(** * The REE-backed secure file engine of [tee_ree_fs.c]

    A shallow embedding of [src/compat/mitee_compat/tee_ree_fs.c]: the
    container layout, the encrypted block I/O paths, the counter-gated
    commit of a candidate meta and the public file operations, followed by
    the properties the specification states about them.

    Conventions of the embedding.
    - The target is the 32-bit NuttX build the format strings of the source
      are written for: [size_t], [uint32_t] and [int] are 32 bits wide and
      [tee_fs_off_t] is a signed 64-bit integer.  Unsigned 32-bit arithmetic
      wraps ([u32]); a conversion to [int] wraps into the signed range
      ([s32]).  64-bit cursor arithmetic never leaves its range for the
      values the engine produces and is written in [Z].
    - Buffers are lists of bytes; a C struct handed to the key manager as
      raw memory is laid out little-endian without padding.
    - The key manager, the RPC transport, the allocator and the session
      accessor are collaborators whose code is not part of this file's
      source: the key manager is an interface ([KeyManager]), the other
      three are modelled by an explicit environment ([world]) that holds the
      REE files, the open descriptors, a script of injected failures and the
      trace of the RPC calls issued so far.
    - An automatic array that the source does not initialise holds
      indeterminate bytes: the environment supplies them ([uninitialised]). *)

From Stdlib Require Import ZArith Lia.
From Stdlib.Strings Require Import Byte.
From stdpp Require Import base list gmap strings.

Local Open Scope Z_scope.

(** ** Machine integers *)

Module CInt.

Definition u32 (z : Z) : Z := z mod 2 ^ 32.

Definition s32 (z : Z) : Z := (z + 2 ^ 31) mod 2 ^ 32 - 2 ^ 31.

End CInt.

Import CInt.

(** ** Bytes and the byte image of a 32-bit word *)

Definition byte_of_Z (z : Z) : byte :=
  default x00 (Byte.of_N (Z.to_N (z mod 256))).

Definition Z_of_byte (b : byte) : Z := Z.of_N (Byte.to_N b).

#[global] Instance byte_eq_decision : EqDecision byte := Byte.byte_eq_dec.

(** [memcpy(data, &word, sizeof(uint32_t))] on a little-endian host. *)
Definition le32_encode (z : Z) : list byte :=
  [byte_of_Z z; byte_of_Z (z / 2 ^ 8); byte_of_Z (z / 2 ^ 16);
   byte_of_Z (z / 2 ^ 24)].

(** [memcpy(&word, data, sizeof(uint32_t))]. *)
Definition le32_decode (l : list byte) : Z :=
  match l with
  | [a; b; c; d] =>
      Z_of_byte a + 2 ^ 8 * Z_of_byte b + 2 ^ 16 * Z_of_byte c
      + 2 ^ 24 * Z_of_byte d
  | _ => 0
  end.

Definition zeros (n : Z) : list byte := replicate (Z.to_nat n) x00.

(** ** Result codes and constants of the GlobalPlatform headers *)

Definition TEE_Result := Z.

Definition TEE_SUCCESS : TEE_Result := 0x00000000.
Definition TEE_ERROR_CORRUPT_OBJECT : TEE_Result := 0xF0100001.
Definition TEE_ERROR_GENERIC : TEE_Result := 0xFFFF0000.
Definition TEE_ERROR_BAD_PARAMETERS : TEE_Result := 0xFFFF0006.
Definition TEE_ERROR_ITEM_NOT_FOUND : TEE_Result := 0xFFFF0008.
Definition TEE_ERROR_OUT_OF_MEMORY : TEE_Result := 0xFFFF000C.
Definition TEE_ERROR_MAC_INVALID : TEE_Result := 0xFFFF3071.

Definition TEE_DATA_MAX_POSITION : Z := 0xFFFFFFFF.

Definition TEE_Whence := Z.
Definition TEE_DATA_SEEK_SET : TEE_Whence := 0.
Definition TEE_DATA_SEEK_CUR : TEE_Whence := 1.
Definition TEE_DATA_SEEK_END : TEE_Whence := 2.

(** [res != TEE_SUCCESS], also written [if (res)] in the source. *)
Definition failed (res : TEE_Result) : bool := negb (res =? TEE_SUCCESS).

(** ** The key manager interface ([tee_fs_key_manager.h]) *)

Inductive tee_fs_file_type := META_FILE | BLOCK_FILE.

(** The header [tee/tee_fs_key_manager.h] is not among the sources: its
    constants and functions are the fields of this interface.  A function of
    the key manager returns its result code and the contents of the buffers
    it writes: [tee_fs_decrypt_file type ct cap fek] returns the plaintext
    written to the output buffer (of capacity [cap]) and the contents of the
    [encrypted_fek] buffer afterwards (an output for [META_FILE]). *)
Class KeyManager := {
  NUM_BLOCKS_PER_FILE : Z;
  TEE_FS_KM_FEK_SIZE : Z;
  TEE_FS_NAME_MAX : Z;
  tee_fs_get_header_size : tee_fs_file_type -> Z;
  tee_fs_generate_fek : list byte -> TEE_Result * list byte;
  tee_fs_encrypt_file :
    tee_fs_file_type -> list byte -> list byte -> TEE_Result * list byte;
  tee_fs_decrypt_file :
    tee_fs_file_type -> list byte -> Z -> list byte ->
    TEE_Result * list byte * list byte
}.

(** ** Data model *)

Definition BLOCK_SHIFT : Z := 8.
Definition BLOCK_SIZE : Z := Z.shiftl 1 BLOCK_SHIFT.

Record tee_fs_file_info := {
  length_ : Z;
  backup_version_table : list Z
}.

Record tee_fs_file_meta := {
  info : tee_fs_file_info;
  encrypted_fek : list byte;
  counter : Z
}.

Record tee_fs_fd := {
  meta_counter : Z;
  meta : tee_fs_file_meta;
  pos : Z;
  flags : Z;
  is_new_file : bool;
  fd : Z
}.

Definition set_length (m : tee_fs_file_meta) (len : Z) : tee_fs_file_meta :=
  {| info := {| length_ := len;
                backup_version_table := backup_version_table (info m) |};
     encrypted_fek := encrypted_fek m;
     counter := counter m |}.

Definition set_table (m : tee_fs_file_meta) (t : list Z) : tee_fs_file_meta :=
  {| info := {| length_ := length_ (info m); backup_version_table := t |};
     encrypted_fek := encrypted_fek m;
     counter := counter m |}.

Definition set_counter (m : tee_fs_file_meta) (c : Z) : tee_fs_file_meta :=
  {| info := info m; encrypted_fek := encrypted_fek m; counter := c |}.

Definition set_pos (f : tee_fs_fd) (p : Z) : tee_fs_fd :=
  {| meta_counter := meta_counter f; meta := meta f; pos := p;
     flags := flags f; is_new_file := is_new_file f; fd := fd f |}.

Definition set_fd (f : tee_fs_fd) (d : Z) : tee_fs_fd :=
  {| meta_counter := meta_counter f; meta := meta f; pos := pos f;
     flags := flags f; is_new_file := is_new_file f; fd := d |}.

Definition set_meta (f : tee_fs_fd) (m : tee_fs_file_meta) : tee_fs_fd :=
  {| meta_counter := meta_counter f; meta := m; pos := pos f;
     flags := flags f; is_new_file := is_new_file f; fd := fd f |}.

Definition set_meta_counter (f : tee_fs_fd) (c : Z) : tee_fs_fd :=
  {| meta_counter := c; meta := meta f; pos := pos f;
     flags := flags f; is_new_file := is_new_file f; fd := fd f |}.

(** ** Layout calculator *)

Section Layout.
Context {KM : KeyManager}.

Definition MAX_FILE_SIZE : Z := BLOCK_SIZE * NUM_BLOCKS_PER_FILE.

(** [sizeof(struct tee_fs_file_info)]: a [size_t] length and one
    [uint32_t] per 32 blocks. *)
Definition sizeof_file_info : Z := 4 + 4 * (NUM_BLOCKS_PER_FILE / 32).

(** [sizeof(struct tee_fs_file_meta)]: the info, the encrypted FEK
    (padded to the alignment of the counter) and the counter. *)
Definition sizeof_file_meta : Z :=
  sizeof_file_info + 4 * ((TEE_FS_KM_FEK_SIZE + 3) / 4) + 4.

Definition pos_to_block_num (position : Z) : Z :=
  Z.shiftr position BLOCK_SHIFT.

Definition get_last_block_num (size : Z) : Z :=
  pos_to_block_num (s32 (u32 (size - 1))).

(** A read outside the table is undefined in C; here it reads 0. *)
Definition get_backup_version_of_block (m : tee_fs_file_meta)
    (block_num : Z) : bool :=
  let index := block_num / 32 in
  let block_mask := u32 (Z.shiftl 1 (block_num mod 32)) in
  negb (Z.land (backup_version_table (info m) !!! Z.to_nat index)
               block_mask =? 0).

(** A write outside the table is undefined in C; here it has no effect. *)
Definition toggle_backup_version_of_block (m : tee_fs_file_meta)
    (block_num : Z) : tee_fs_file_meta :=
  let index := Z.to_nat (block_num / 32) in
  let block_mask := u32 (Z.shiftl 1 (block_num mod 32)) in
  let t := backup_version_table (info m) in
  set_table m (<[index := Z.lxor (t !!! index) block_mask]> t).

Definition meta_size : Z :=
  u32 (tee_fs_get_header_size META_FILE + sizeof_file_meta).

Definition meta_pos_raw (fdp : tee_fs_fd) (active : bool) : Z :=
  let offs := 4 in
  if Z.land (meta_counter fdp) 1 =? Z.b2z active
  then u32 (offs + meta_size)
  else offs.

Definition block_size_raw : Z :=
  u32 (tee_fs_get_header_size BLOCK_FILE + BLOCK_SIZE).

Definition block_pos_raw (m : tee_fs_file_meta) (block_num : Z)
    (active : bool) : Z :=
  let n := u32 (block_num * 2) in
  let n := if Bool.eqb active (get_backup_version_of_block m block_num)
           then u32 (n + 1) else n in
  u32 (4 + meta_size * 2 + n * block_size_raw).

End Layout.

(** ** The environment: REE transport, allocator and session accessor *)

Inductive rpc_event :=
| RpcOpen (name : string) (create : bool) (res : TEE_Result)
| RpcClose (d : Z)
| RpcRead (d offs len : Z) (res : TEE_Result)
| RpcWrite (d offs : Z) (data : list byte) (res : TEE_Result)
| RpcRename (old new : string) (overwrite : bool) (res : TEE_Result)
| RpcRemove (name : string) (res : TEE_Result)
| RpcFsync (d : Z) (res : TEE_Result).

(** [faults] scripts the outcome of the coming calls to the allocator and
    to the transport, one entry per call: [TEE_SUCCESS] lets the call run,
    any other code makes it fail with that code and without effect on the
    files.  An empty script means that no failure is injected.

    [stack] is what automatic storage holds before a function writes to it:
    [stack log script i] is byte [i] of an uninitialised local array of a
    function that is entered when the trace is [log] and the remaining
    failure script is [script], so that the bytes are arbitrary and may
    differ from one call to the next. *)
Record world := {
  ree_files : gmap string (list byte);
  ree_fds : gmap Z string;
  ree_next_fd : Z;
  faults : list TEE_Result;
  rpc_log : list rpc_event;
  session_uuid : list byte;
  stack : list rpc_event -> list TEE_Result -> nat -> byte
}.

Definition set_files (w : world) (fs : gmap string (list byte)) : world :=
  {| ree_files := fs; ree_fds := ree_fds w; ree_next_fd := ree_next_fd w;
     faults := faults w; rpc_log := rpc_log w;
     session_uuid := session_uuid w; stack := stack w |}.

Definition set_fds (w : world) (ds : gmap Z string) (next : Z) : world :=
  {| ree_files := ree_files w; ree_fds := ds; ree_next_fd := next;
     faults := faults w; rpc_log := rpc_log w;
     session_uuid := session_uuid w; stack := stack w |}.

Definition set_faults (w : world) (fl : list TEE_Result) : world :=
  {| ree_files := ree_files w; ree_fds := ree_fds w;
     ree_next_fd := ree_next_fd w; faults := fl; rpc_log := rpc_log w;
     session_uuid := session_uuid w; stack := stack w |}.

Definition log_event (e : rpc_event) (w : world) : world :=
  {| ree_files := ree_files w; ree_fds := ree_fds w;
     ree_next_fd := ree_next_fd w; faults := faults w;
     rpc_log := rpc_log w ++ [e]; session_uuid := session_uuid w;
     stack := stack w |}.

(** The contents of a local array of [n] bytes that was declared without
    an initialiser. *)
Definition uninitialised (n : Z) (w : world) : list byte :=
  stack w (rpc_log w) (faults w) <$> seq 0 (Z.to_nat n).

Definition next_fault (w : world) : TEE_Result * world :=
  match faults w with
  | [] => (TEE_SUCCESS, w)
  | r :: rest => (r, set_faults w rest)
  end.

(** [malloc] and [calloc]: [true] for a non-null pointer. *)
Definition malloc (size : Z) (w : world) : bool * world :=
  let '(r, w1) := next_fault w in (negb (failed r), w1).

(** Positional read of a file: the bytes present in [offs, offs + len). *)
Definition pread (f : list byte) (offs len : Z) : list byte :=
  take (Z.to_nat len) (drop (Z.to_nat offs) f).

(** Positional write: a write past the end leaves a zero-filled hole. *)
Definition pwrite (f : list byte) (offs : Z) (data : list byte) : list byte :=
  take (Z.to_nat offs) (f ++ replicate (Z.to_nat offs - length f)%nat x00)
  ++ data ++ drop (Z.to_nat offs + length data)%nat f.

Definition file_of (w : world) (d : Z) : option (string * list byte) :=
  match ree_fds w !! d with
  | Some name =>
      match ree_files w !! name with
      | Some f => Some (name, f)
      | None => None
      end
  | None => None
  end.

Definition tee_fs_rpc_open (name : string) (create : bool) (w : world)
    : TEE_Result * option Z * world :=
  let '(r, w1) := next_fault w in
  let out :=
    if failed r then (r, None, w1)
    else if create then
      (TEE_SUCCESS, Some (ree_next_fd w1),
       set_fds (set_files w1 (<[name := []]> (ree_files w1)))
               (<[ree_next_fd w1 := name]> (ree_fds w1))
               (ree_next_fd w1 + 1))
    else
      match ree_files w1 !! name with
      | Some _ =>
          (TEE_SUCCESS, Some (ree_next_fd w1),
           set_fds w1 (<[ree_next_fd w1 := name]> (ree_fds w1))
                   (ree_next_fd w1 + 1))
      | None => (TEE_ERROR_ITEM_NOT_FOUND, None, w1)
      end in
  (out.1.1, out.1.2, log_event (RpcOpen name create out.1.1) out.2).

Definition tee_fs_rpc_close (d : Z) (w : world) : world :=
  log_event (RpcClose d) (set_fds w (delete d (ree_fds w)) (ree_next_fd w)).

Definition tee_fs_rpc_read (d : Z) (len offs : Z) (w : world)
    : TEE_Result * list byte * world :=
  let '(r, w1) := next_fault w in
  let out :=
    if failed r then (r, [])
    else if offs <? 0 then (TEE_ERROR_GENERIC, [])
    else
      match file_of w1 d with
      | Some (_, f) => (TEE_SUCCESS, pread f offs len)
      | None => (TEE_ERROR_ITEM_NOT_FOUND, [])
      end in
  (out.1, out.2, log_event (RpcRead d offs len out.1) w1).

Definition tee_fs_rpc_write (d : Z) (data : list byte) (offs : Z) (w : world)
    : TEE_Result * world :=
  let '(r, w1) := next_fault w in
  let out :=
    if failed r then (r, w1)
    else if offs <? 0 then (TEE_ERROR_GENERIC, w1)
    else
      match file_of w1 d with
      | Some (name, f) =>
          (TEE_SUCCESS,
           set_files w1 (<[name := pwrite f offs data]> (ree_files w1)))
      | None => (TEE_ERROR_ITEM_NOT_FOUND, w1)
      end in
  (out.1, log_event (RpcWrite d offs data out.1) out.2).

Definition tee_fs_rpc_remove (name : string) (w : world)
    : TEE_Result * world :=
  let '(r, w1) := next_fault w in
  let out :=
    if failed r then (r, w1)
    else
      match ree_files w1 !! name with
      | Some _ => (TEE_SUCCESS, set_files w1 (delete name (ree_files w1)))
      | None => (TEE_ERROR_ITEM_NOT_FOUND, w1)
      end in
  (out.1, log_event (RpcRemove name out.1) out.2).

Definition tee_fs_rpc_rename (old new : string) (overwrite : bool)
    (w : world) : TEE_Result * world :=
  let '(r, w1) := next_fault w in
  let out :=
    if failed r then (r, w1)
    else
      match ree_files w1 !! old with
      | None => (TEE_ERROR_ITEM_NOT_FOUND, w1)
      | Some f =>
          if negb overwrite && bool_decide (is_Some (ree_files w1 !! new))
          then (TEE_ERROR_GENERIC, w1)
          else (TEE_SUCCESS,
                set_files w1 (<[new := f]> (delete old (ree_files w1))))
      end in
  (out.1, log_event (RpcRename old new overwrite out.1) out.2).

Definition tee_fs_rpc_fsync (d : Z) (w : world) : TEE_Result * world :=
  let '(r, w1) := next_fault w in
  let res :=
    if failed r then r
    else match file_of w1 d with
         | Some _ => TEE_SUCCESS
         | None => TEE_ERROR_ITEM_NOT_FOUND
         end in
  (res, log_event (RpcFsync d res) w1).

(** ** Byte image of [struct tee_fs_file_info] *)

Fixpoint words_of_bytes (n : nat) (l : list byte) : list Z :=
  match n with
  | O => []
  | S n' => le32_decode (take 4 l) :: words_of_bytes n' (drop 4 l)
  end.

(** What a buffer holds after [written] was stored at its start. *)
Definition overlay (written old : list byte) : list byte :=
  written ++ drop (length written) old.

(** [memcpy(block + offset, chunk, |chunk|)] *)
Definition patch (block : list byte) (offset : Z) (chunk : list byte)
    : list byte :=
  take (Z.to_nat offset) block ++ chunk
  ++ drop (Z.to_nat offset + length chunk)%nat block.

Section Engine.
Context {KM : KeyManager}.

Definition info_to_bytes (i : tee_fs_file_info) : list byte :=
  le32_encode (length_ i)
  ++ concat (le32_encode <$> backup_version_table i).

Definition info_of_bytes (l : list byte) : tee_fs_file_info :=
  {| length_ := le32_decode (take 4 l);
     backup_version_table :=
       words_of_bytes (Z.to_nat (NUM_BLOCKS_PER_FILE / 32)) (drop 4 l) |}.

(** *** Encrypted block I/O *)

Definition encrypt_and_write_file (fdp : tee_fs_fd)
    (file_type : tee_fs_file_type) (offs : Z) (data_in : list byte)
    (data_in_size : Z) (fek : list byte) (w : world)
    : TEE_Result * world :=
  let header_size := tee_fs_get_header_size file_type in
  let ciphertext_size := u32 (header_size + data_in_size) in
  let '(ciphertext, w) := malloc ciphertext_size w in
  if negb ciphertext then (TEE_ERROR_OUT_OF_MEMORY, w)
  else
    let '(res, ct) := tee_fs_encrypt_file file_type data_in fek in
    if failed res then (res, w)
    else tee_fs_rpc_write (fd fdp) ct offs w.

Definition read_and_decrypt_file (fdp : tee_fs_fd)
    (file_type : tee_fs_file_type) (offs : Z) (data_out : list byte)
    (data_out_size : Z) (fek : list byte) (w : world)
    : TEE_Result * list byte * list byte * world :=
  let bytes := u32 (data_out_size + tee_fs_get_header_size file_type) in
  let '(ciphertext, w) := malloc bytes w in
  if negb ciphertext then (TEE_ERROR_OUT_OF_MEMORY, data_out, fek, w)
  else
    let '(res, ct, w) := tee_fs_rpc_read (fd fdp) bytes offs w in
    if failed res then (res, data_out, fek, w)
    else if (length ct =? 0)%nat then (TEE_SUCCESS, data_out, fek, w)
    else
      let '(res, pt, fek') :=
        tee_fs_decrypt_file file_type ct data_out_size fek in
      let data_out' := overlay (take (Z.to_nat data_out_size) pt) data_out in
      ((if failed res then TEE_ERROR_CORRUPT_OBJECT else res),
       data_out', fek', w).

(** *** Meta manager *)

Definition write_meta_file (fdp : tee_fs_fd) (m : tee_fs_file_meta)
    (w : world) : TEE_Result * world :=
  let offs := meta_pos_raw fdp false in
  encrypt_and_write_file fdp META_FILE offs (info_to_bytes (info m))
    sizeof_file_info (encrypted_fek m) w.

Definition write_meta_counter (fdp : tee_fs_fd) (w : world)
    : TEE_Result * world :=
  let data := le32_encode (meta_counter fdp) in
  tee_fs_rpc_write (fd fdp) data 0 w.

Definition create_meta (fdp : tee_fs_fd) (fname : string) (w : world)
    : TEE_Result * tee_fs_fd * world :=
  let table :=
    replicate (length (backup_version_table (info (meta fdp)))) 0xffffffff in
  let fdp := set_meta fdp (set_length (set_table (meta fdp) table) 0) in
  let '(res, fek) := tee_fs_generate_fek (session_uuid w) in
  let fdp :=
    set_meta fdp {| info := info (meta fdp); encrypted_fek := fek;
                    counter := counter (meta fdp) |} in
  if failed res then (res, fdp, w)
  else
    let '(res, d, w) := tee_fs_rpc_open fname true w in
    let fdp := match d with Some d => set_fd fdp d | None => fdp end in
    if failed res then (res, fdp, w)
    else
      let fdp := set_meta fdp (set_counter (meta fdp) (meta_counter fdp)) in
      let '(res, w) := write_meta_file fdp (meta fdp) w in
      if failed res then (res, fdp, w)
      else
        let '(res, w) := write_meta_counter fdp w in
        (res, fdp, w).

Definition commit_meta_file (fdp : tee_fs_fd) (new_meta : tee_fs_file_meta)
    (w : world) : TEE_Result * tee_fs_fd * world :=
  let new_meta := set_counter new_meta (u32 (meta_counter fdp + 1)) in
  let '(res, w) := write_meta_file fdp new_meta w in
  if failed res then (res, fdp, w)
  else
    let fdp := set_meta fdp new_meta in
    let fdp := set_meta_counter fdp (counter (meta fdp)) in
    let '(res, w) := write_meta_counter fdp w in
    (res, fdp, w).

Definition read_meta_file (fdp : tee_fs_fd) (m : tee_fs_file_meta)
    (w : world) : TEE_Result * tee_fs_file_meta * world :=
  let meta_info_size := sizeof_file_info in
  let offs := meta_pos_raw fdp true in
  let '(res, data_out, fek, w) :=
    read_and_decrypt_file fdp META_FILE offs (info_to_bytes (info m))
      meta_info_size (encrypted_fek m) w in
  (res,
   {| info := info_of_bytes data_out; encrypted_fek := fek;
      counter := counter m |},
   w).

Definition read_meta_counter (fdp : tee_fs_fd) (w : world)
    : TEE_Result * tee_fs_fd * world :=
  let '(res, data, w) := tee_fs_rpc_read (fd fdp) 4 0 w in
  if failed res then (res, fdp, w)
  else if negb (length data =? 4)%nat
  then (TEE_ERROR_CORRUPT_OBJECT, fdp, w)
  else (res, set_meta_counter fdp (le32_decode data), w).

Definition read_meta (fdp : tee_fs_fd) (fname : string) (w : world)
    : TEE_Result * tee_fs_fd * world :=
  let '(res, d, w) := tee_fs_rpc_open fname false w in
  let fdp := match d with Some d => set_fd fdp d | None => fdp end in
  if failed res then (res, fdp, w)
  else
    let '(res, fdp, w) := read_meta_counter fdp w in
    if failed res then (res, fdp, w)
    else
      let '(res, m, w) := read_meta_file fdp (meta fdp) w in
      (res, set_meta fdp m, w).

(** *** Block engine *)

Definition read_block (fdp : tee_fs_fd) (bnum : Z) (data : list byte)
    (w : world) : TEE_Result * list byte * world :=
  let ct_size := block_size_raw in
  let out_size := BLOCK_SIZE in
  let pos := s32 (block_pos_raw (meta fdp) (u32 bnum) true) in
  let '(ct, w) := malloc ct_size w in
  if negb ct then (TEE_ERROR_OUT_OF_MEMORY, data, w)
  else
    let '(res, ct, w) := tee_fs_rpc_read (fd fdp) ct_size pos w in
    if failed res then (res, data, w)
    else if (length ct =? 0)%nat then (TEE_SUCCESS, zeros BLOCK_SIZE, w)
    else
      let '(res, pt, _) :=
        tee_fs_decrypt_file BLOCK_FILE ct out_size
          (encrypted_fek (meta fdp)) in
      (res, overlay (take (Z.to_nat out_size) pt) data, w).

Definition write_block (fdp : tee_fs_fd) (bnum : Z) (data : list byte)
    (new_meta : tee_fs_file_meta) (w : world)
    : TEE_Result * tee_fs_file_meta * world :=
  let offs := block_pos_raw new_meta bnum false in
  let '(res, w) :=
    encrypt_and_write_file fdp BLOCK_FILE offs data BLOCK_SIZE
      (encrypted_fek new_meta) w in
  if res =? TEE_SUCCESS
  then (res, toggle_backup_version_of_block new_meta bnum, w)
  else (res, new_meta, w).

(** *** Range writer *)

(** The chunk stored by one iteration: [size] bytes of the caller's
    buffer from [data_ptr] on, or zeros when the buffer is null. *)
Definition chunk_of (buf : option (list byte)) (data_ptr size : Z)
    : list byte :=
  match buf with
  | Some data => take (Z.to_nat size) (drop (Z.to_nat data_ptr) data)
  | None => zeros size
  end.

(** The [while] loop of [out_of_place_write], [n] iterations to go.  The
    boolean of the result tells whether the loop ran to its end ([true])
    or left through [goto exit] ([false]). *)
Fixpoint out_of_place_write_loop (n : nat) (buf : option (list byte))
    (res : TEE_Result) (fdp : tee_fs_fd) (start_block_num : Z)
    (remain_bytes data_ptr : Z) (block : list byte)
    (new_meta : tee_fs_file_meta) (w : world)
    : bool * TEE_Result * tee_fs_fd * tee_fs_file_meta * world :=
  match n with
  | O => (true, res, fdp, new_meta, w)
  | S n' =>
      let offset := s32 (Z.rem (pos fdp) BLOCK_SIZE) in
      let size_to_write := Z.min remain_bytes BLOCK_SIZE in
      let size_to_write :=
        if u32 (size_to_write + offset) >? BLOCK_SIZE
        then u32 (BLOCK_SIZE - offset) else size_to_write in
      let '(res, block, w) := read_block fdp start_block_num block w in
      let block :=
        if res =? TEE_ERROR_ITEM_NOT_FOUND then zeros BLOCK_SIZE
        else block in
      if negb (res =? TEE_ERROR_ITEM_NOT_FOUND) && failed res
      then (false, res, fdp, new_meta, w)
      else
        let block := patch block offset (chunk_of buf data_ptr size_to_write) in
        let '(res, new_meta, w) :=
          write_block fdp (u32 start_block_num) block new_meta w in
        if failed res then (false, res, fdp, new_meta, w)
        else
          out_of_place_write_loop n' buf res
            (set_pos fdp (pos fdp + size_to_write))
            (start_block_num + 1)
            (u32 (remain_bytes - size_to_write))
            (data_ptr + size_to_write) block new_meta w
  end.

(** The local [block] array is not initialised: it starts with the bytes
    the environment left on the stack and keeps, from one iteration to the
    next, what the previous block read and patch left in it. *)
Definition out_of_place_write (fdp : tee_fs_fd) (buf : option (list byte))
    (len : Z) (new_meta : tee_fs_file_meta) (w : world)
    : TEE_Result * tee_fs_fd * tee_fs_file_meta * world :=
  let start_block_num := pos_to_block_num (s32 (pos fdp)) in
  let end_block_num := pos_to_block_num (s32 (pos fdp + len - 1)) in
  let orig_pos := s32 (pos fdp) in
  let '(completed, res, fdp, new_meta, w) :=
    out_of_place_write_loop
      (Z.to_nat (end_block_num - start_block_num + 1)) buf
      TEE_ERROR_GENERIC fdp start_block_num len 0
      (uninitialised BLOCK_SIZE w) new_meta w in
  let new_meta :=
    if completed && (pos fdp >? length_ (info new_meta))
    then set_length new_meta (u32 (pos fdp)) else new_meta in
  let fdp := if failed res then set_pos fdp orig_pos else fdp in
  (res, fdp, new_meta, w).

(** *** File facade *)

Definition zero_handle : tee_fs_fd :=
  {| meta_counter := 0;
     meta := {| info := {| length_ := 0;
                           backup_version_table :=
                             replicate (Z.to_nat (NUM_BLOCKS_PER_FILE / 32)) 0 |};
                encrypted_fek := zeros TEE_FS_KM_FEK_SIZE;
                counter := 0 |};
     pos := 0; flags := 0; is_new_file := false; fd := 0 |}.

Definition open_internal (file : option string) (create : bool) (w : world)
    : TEE_Result * option tee_fs_fd * world :=
  match file with
  | None => (TEE_ERROR_BAD_PARAMETERS, None, w)
  | Some file =>
      let len := Z.of_nat (String.length file) + 1 in
      if len >? TEE_FS_NAME_MAX then (TEE_ERROR_BAD_PARAMETERS, None, w)
      else
        let '(fdp, w) := malloc 0 w in
        if negb fdp then (TEE_ERROR_OUT_OF_MEMORY, None, w)
        else
          let fdp := set_fd zero_handle (-1) in
          let '(res, fdp, w) :=
            if create then create_meta fdp file w
            else read_meta fdp file w in
          if res =? TEE_SUCCESS then (res, Some fdp, w)
          else
            let w := if negb (fd fdp =? -1)
                     then tee_fs_rpc_close (fd fdp) w else w in
            let w := if create then (tee_fs_rpc_remove file w).2 else w in
            (res, None, w)
  end.

Definition ree_fs_open (file : option string) (w : world) :=
  open_internal file false w.

Definition ree_fs_create (file : option string) (w : world) :=
  open_internal file true w.

Definition ree_fs_close (fh : option tee_fs_fd) (w : world)
    : option tee_fs_fd * world :=
  match fh with
  | Some fdp => (None, tee_fs_rpc_close (fd fdp) w)
  | None => (None, w)
  end.

(** The third component is the value stored through [new_offs]. *)
Definition ree_fs_seek (fdp : tee_fs_fd) (offset : Z) (whence : TEE_Whence)
    : TEE_Result * tee_fs_fd * option Z :=
  let filelen := length_ (info (meta fdp)) in
  let new_pos :=
    if whence =? TEE_DATA_SEEK_SET then Some offset
    else if whence =? TEE_DATA_SEEK_CUR then Some (pos fdp + offset)
    else if whence =? TEE_DATA_SEEK_END then Some (u32 (filelen + offset))
    else None in
  match new_pos with
  | None => (TEE_ERROR_BAD_PARAMETERS, fdp, None)
  | Some new_pos =>
      let new_pos := if new_pos <? 0 then 0 else new_pos in
      if new_pos >? TEE_DATA_MAX_POSITION
      then (TEE_ERROR_BAD_PARAMETERS, fdp, None)
      else (TEE_SUCCESS, set_pos fdp new_pos, Some (s32 new_pos))
  end.

Definition ree_fs_ftruncate_internal (fdp : tee_fs_fd) (new_file_len : Z)
    (w : world) : TEE_Result * tee_fs_fd * world :=
  let old_file_len := length_ (info (meta fdp)) in
  if new_file_len >? MAX_FILE_SIZE then (TEE_ERROR_BAD_PARAMETERS, fdp, w)
  else
    let new_meta := set_length (meta fdp) (u32 new_file_len) in
    if u32 new_file_len >? old_file_len then
      let ext_len := u32 (new_file_len - old_file_len) in
      let orig_pos := s32 (pos fdp) in
      let fdp := set_pos fdp old_file_len in
      let '(res, fdp, new_meta, w) :=
        out_of_place_write fdp None ext_len new_meta w in
      let fdp := set_pos fdp orig_pos in
      if failed res then (res, fdp, w)
      else commit_meta_file fdp new_meta w
    else commit_meta_file fdp new_meta w.

(** The [while] loop of [ree_fs_read]; [out] is what has been copied to
    the caller's buffer so far. *)
Fixpoint ree_fs_read_loop (n : nat) (fdp : tee_fs_fd)
    (start_block_num remain_bytes : Z) (block out : list byte) (w : world)
    : TEE_Result * list byte * tee_fs_fd * world :=
  match n with
  | O => (TEE_SUCCESS, out, fdp, w)
  | S n' =>
      let offset := Z.rem (pos fdp) BLOCK_SIZE in
      let size_to_read := Z.min remain_bytes BLOCK_SIZE in
      let size_to_read :=
        if size_to_read + offset >? BLOCK_SIZE
        then u32 (BLOCK_SIZE - offset) else size_to_read in
      let '(res, block, w) := read_block fdp start_block_num block w in
      if failed res then
        ((if res =? TEE_ERROR_MAC_INVALID then TEE_ERROR_CORRUPT_OBJECT
          else res), out, fdp, w)
      else
        let out :=
          out ++ take (Z.to_nat size_to_read) (drop (Z.to_nat offset) block) in
        ree_fs_read_loop n' (set_pos fdp (pos fdp + size_to_read))
          (start_block_num + 1) (u32 (remain_bytes - size_to_read))
          block out w
  end.

(** [ree_fs_read fdp len w]: the result code, the bytes copied to [buf],
    the value left in [*len], the handle and the environment.  The local
    [block] array is not initialised. *)
Definition ree_fs_read (fdp : tee_fs_fd) (len : Z) (w : world)
    : TEE_Result * list byte * Z * tee_fs_fd * world :=
  let remain_bytes := len in
  let file_len := length_ (info (meta fdp)) in
  let remain_bytes :=
    if (pos fdp + remain_bytes <? remain_bytes) || (pos fdp >? file_len)
    then 0
    else if pos fdp + remain_bytes >? file_len
    then u32 (file_len - pos fdp)
    else remain_bytes in
  if remain_bytes =? 0 then (TEE_SUCCESS, [], remain_bytes, fdp, w)
  else
    let start_block_num := pos_to_block_num (s32 (pos fdp)) in
    let end_block_num :=
      pos_to_block_num (s32 (pos fdp + remain_bytes - 1)) in
    let '(res, out, fdp, w) :=
      ree_fs_read_loop (Z.to_nat (end_block_num - start_block_num + 1))
        fdp start_block_num remain_bytes (uninitialised BLOCK_SIZE w) [] w in
    (res, out, remain_bytes, fdp, w).

Definition ree_fs_write (fdp : tee_fs_fd) (buf : option (list byte))
    (len : Z) (w : world) : TEE_Result * tee_fs_fd * world :=
  if len =? 0 then (TEE_SUCCESS, fdp, w)
  else
    let file_size := length_ (info (meta fdp)) in
    if (pos fdp + len >? MAX_FILE_SIZE) || (pos fdp + len <? len)
    then (TEE_ERROR_BAD_PARAMETERS, fdp, w)
    else
      let '(res, fdp, w) :=
        if file_size <? u32 (pos fdp)
        then ree_fs_ftruncate_internal fdp (pos fdp) w
        else (TEE_SUCCESS, fdp, w) in
      if failed res then (res, fdp, w)
      else
        let new_meta := meta fdp in
        let '(res, fdp, new_meta, w) :=
          out_of_place_write fdp buf len new_meta w in
        if failed res then (res, fdp, w)
        else commit_meta_file fdp new_meta w.

Definition ree_fs_rename (old new : string) (overwrite : bool) (w : world)
    : TEE_Result * world :=
  tee_fs_rpc_rename old new overwrite w.

Definition ree_fs_remove (file : string) (w : world) : TEE_Result * world :=
  tee_fs_rpc_remove file w.

Definition ree_fs_truncate (fdp : tee_fs_fd) (len : Z) (w : world)
    : TEE_Result * tee_fs_fd * world :=
  ree_fs_ftruncate_internal fdp len w.

Definition ree_fs_fsync (fh : option tee_fs_fd) (w : world)
    : TEE_Result * world :=
  match fh with
  | Some fdp => tee_fs_rpc_fsync (fd fdp) w
  | None => (TEE_SUCCESS, w)
  end.

End Engine.


(** ** The contract of the key manager

    What the engine relies on.  The constants of the key manager give a
    layout: the bitmap covers every block and the container fits the 32-bit
    offsets the layout is computed in ([KeyManagerLayout]).  Its functions
    are an authenticated encryption: a FEK has the size the interface
    fixes, encryption under such a FEK succeeds and adds the header, and
    decryption inverts encryption under the FEK the ciphertext was produced
    with (for a meta, the FEK is recovered from the ciphertext itself)
    ([KeyManagerOk]). *)

Class KeyManagerLayout (KM : KeyManager) : Prop := {
  km_blocks_pos : 0 < NUM_BLOCKS_PER_FILE;
  km_blocks_words : NUM_BLOCKS_PER_FILE mod 32 = 0;
  km_fek_size : 0 <= TEE_FS_KM_FEK_SIZE;
  km_header_size : forall t, 0 <= tee_fs_get_header_size t;
  km_container_fits :
    4 + 2 * (tee_fs_get_header_size META_FILE + sizeof_file_meta)
    + 2 * NUM_BLOCKS_PER_FILE
      * (tee_fs_get_header_size BLOCK_FILE + BLOCK_SIZE) < 2 ^ 31
}.

Class KeyManagerOk (KM : KeyManager) : Prop := {
  km_layout :: KeyManagerLayout KM;
  km_generate_fek : forall uuid fek,
    tee_fs_generate_fek uuid = (TEE_SUCCESS, fek) ->
    length fek = Z.to_nat TEE_FS_KM_FEK_SIZE;
  km_encrypt_ok : forall t pt fek,
    length fek = Z.to_nat TEE_FS_KM_FEK_SIZE ->
    exists ct, tee_fs_encrypt_file t pt fek = (TEE_SUCCESS, ct);
  km_encrypt_size : forall t pt fek ct,
    tee_fs_encrypt_file t pt fek = (TEE_SUCCESS, ct) ->
    Z.of_nat (length ct) = tee_fs_get_header_size t + Z.of_nat (length pt);
  km_decrypt : forall t pt fek ct cap buf,
    tee_fs_encrypt_file t pt fek = (TEE_SUCCESS, ct) ->
    Z.of_nat (length pt) <= cap ->
    (t = BLOCK_FILE -> buf = fek) ->
    tee_fs_decrypt_file t ct cap buf = (TEE_SUCCESS, pt, fek)
}.

(** ** Vocabulary of the specification *)

(** [w'] differs from [w] at most in the failure script and in the trace. *)
Definition same_store (w w' : world) : Prop :=
  ree_files w' = ree_files w /\ ree_fds w' = ree_fds w
  /\ ree_next_fd w' = ree_next_fd w /\ session_uuid w' = session_uuid w.


Section SpecVocabulary.
Context {KM : KeyManager}.

(** Offset of meta slot [i] in the container (slot 0 follows the
    counter). *)
Definition meta_slot_offset (i : Z) : Z := 4 + i * meta_size.



(** The effective length of a read as the specification words it; the
    sum of the cursor and the requested length is a 64-bit signed
    value. *)
Definition spec_effective_len (pos len file_len : Z) : Z :=
  if (pos >? file_len) || (2 ^ 63 - 1 <? pos + len) then 0
  else Z.min len (file_len - pos).

(** Which of the two slots of block [k] an access goes to. *)
Definition slot_bit (m : tee_fs_file_meta) (k : Z) (active : bool) : Z :=
  if Bool.eqb active (get_backup_version_of_block m k) then 1 else 0.

(** The counter stored at offset 0 of the file behind descriptor [d]. *)
Definition disk_counter (w : world) (d : Z) : option Z :=
  match file_of w d with
  | Some (_, f) =>
      if (4 <=? length f)%nat then Some (le32_decode (take 4 f)) else None
  | None => None
  end.

(** The handle mirrors the counter of its backing file. *)
Definition in_sync (fdp : tee_fs_fd) (w : world) : Prop :=
  disk_counter w (fd fdp) = Some (meta_counter fdp).

(** The events the transport logged between [w] and [w']. *)
Definition new_events (w w' : world) : list rpc_event :=
  drop (length (rpc_log w)) (rpc_log w').

Definition is_counter_write (e : rpc_event) : bool :=
  match e with
  | RpcWrite _ offs _ _ => offs =? 0
  | _ => false
  end.

(** No event of [evs] is a write at offset 0. *)
Definition quiet (evs : list rpc_event) : Prop :=
  forallb (fun e => negb (is_counter_write e)) evs = true.

(** The operations of an open handle, and a run of successful
    operations: [run_ops] is [None] as soon as one of them fails. *)
Inductive file_op :=
| OpSeek (offset : Z) (whence : TEE_Whence)
| OpRead (len : Z)
| OpWrite (buf : list byte)
| OpTruncate (len : Z)
| OpFsync.

Definition run_op (op : file_op) (fdp : tee_fs_fd) (w : world)
    : TEE_Result * tee_fs_fd * world :=
  match op with
  | OpSeek offset whence =>
      let '(res, fdp, _) := ree_fs_seek fdp offset whence in (res, fdp, w)
  | OpRead len =>
      let '(res, _, _, fdp, w) := ree_fs_read fdp len w in (res, fdp, w)
  | OpWrite buf => ree_fs_write fdp (Some buf) (Z.of_nat (length buf)) w
  | OpTruncate len => ree_fs_truncate fdp len w
  | OpFsync =>
      let '(res, w) := ree_fs_fsync (Some fdp) w in (res, fdp, w)
  end.







(** The length recorded in the handle's meta is within the file bounds. *)
Definition handle_ok (fdp : tee_fs_fd) : Prop :=
  0 <= length_ (info (meta fdp)) <= MAX_FILE_SIZE.

(** The part of the byte range [[p, p + r)] that falls into block [j]. *)
Definition chunk_lo (p j : Z) : Z := Z.max p (BLOCK_SIZE * j).
Definition chunk_hi (p r j : Z) : Z := Z.min (p + r) (BLOCK_SIZE * (j + 1)).

(** The number of bytes one iteration of a range loop handles when the
    cursor is at [p] and [r] bytes remain. *)
Definition chunk_size (p r : Z) : Z := Z.min r (BLOCK_SIZE - p mod BLOCK_SIZE).

(** An event a commit on [fdp] may issue: the write of the shadow meta or
    the write of the counter. *)
Definition commit_write (fdp : tee_fs_fd) (e : rpc_event) : Prop :=
  match e with
  | RpcWrite d offs _ _ =>
      d = fd fdp /\ (offs = meta_pos_raw fdp false \/ offs = 0)
  | _ => False
  end.

(** An event that reads and does not write. *)
Definition read_event (d : Z) (e : rpc_event) : Prop :=
  match e with
  | RpcRead d' _ _ _ => d' = d
  | _ => False
  end.

(** No failure is scripted and descriptor [d] is open on the file [name],
    whose contents are [f]. *)
Definition backed (w : world) (d : Z) (name : string) (f : list byte)
    : Prop :=
  faults w = [] /\ file_of w d = Some (name, f).

(** The descriptors from [ree_next_fd] on are not in use, and the next one
    is not the [-1] a handle starts with. *)
Definition fds_fresh (w : world) : Prop :=
  0 <= ree_next_fd w
  /\ forall d, ree_next_fd w <= d -> ree_fds w !! d = None.

(** A meta info whose fields fit their C types. *)
Definition info_wf (i : tee_fs_file_info) : Prop :=
  0 <= length_ i < 2 ^ 32
  /\ length (backup_version_table i) = Z.to_nat (NUM_BLOCKS_PER_FILE / 32)
  /\ Forall (fun x => 0 <= x < 2 ^ 32) (backup_version_table i).

(** *** The contents of a container

    The data of a file is described by an image: [MAX_FILE_SIZE] bytes, of
    which the first [length] are the contents of the file. *)

(** Offset of the first block slot. *)
Definition data_base : Z := 4 + 2 * meta_size.

(** Block [k] of an image. *)
Definition blk (img : list byte) (k : Z) : list byte :=
  take (Z.to_nat BLOCK_SIZE) (drop (Z.to_nat (BLOCK_SIZE * k)) img).

(** The container [f] stores the image [img] under the bitmap and the FEK
    of [m]: the blocks below the watermark [wm] were written at least once
    and the slot the bitmap makes active holds the ciphertext of that block
    of the image; the blocks from [wm] on were never written, their bit is
    still set, the file ends before their slots and the image is zero
    there. *)
Definition stores (f : list byte) (m : tee_fs_file_meta) (img : list byte)
    (wm : Z) : Prop :=
  Z.of_nat (length img) = MAX_FILE_SIZE
  /\ length (backup_version_table (info m))
     = Z.to_nat (NUM_BLOCKS_PER_FILE / 32)
  /\ Forall (fun x => 0 <= x < 2 ^ 32) (backup_version_table (info m))
  /\ length (encrypted_fek m) = Z.to_nat TEE_FS_KM_FEK_SIZE
  /\ 0 <= wm <= NUM_BLOCKS_PER_FILE
  /\ Z.of_nat (length f) <= data_base + 2 * wm * block_size_raw
  /\ (forall k, 0 <= k < wm ->
        exists ct,
          tee_fs_encrypt_file BLOCK_FILE (blk img k) (encrypted_fek m)
          = (TEE_SUCCESS, ct)
          /\ pread f (block_pos_raw m k true) block_size_raw = ct)
  /\ (forall k, wm <= k < NUM_BLOCKS_PER_FILE ->
        get_backup_version_of_block m k = true
        /\ blk img k = zeros BLOCK_SIZE).

(** The handle [h] is open on the container [name] of [w], which stores
    the image [img], and the length it records lies within the blocks
    that were written. *)
Definition consistent (h : tee_fs_fd) (w : world) (name : string)
    (img : list byte) : Prop :=
  exists f wm,
    backed w (fd h) name f
    /\ stores f (meta h) img wm
    /\ 0 <= length_ (info (meta h)) <= BLOCK_SIZE * wm.

(** The contents of the file behind a consistent handle. *)
Definition contents (h : tee_fs_fd) (img : list byte) : list byte :=
  take (Z.to_nat (length_ (info (meta h)))) img.

(** The counter of [f] is the one of the handle and the meta slot it
    selects holds the ciphertext of the handle's meta info. *)
Definition committed (f : list byte) (h : tee_fs_fd) : Prop :=
  (4 <= length f)%nat
  /\ le32_decode (take 4 f) = meta_counter h
  /\ exists ct,
       tee_fs_encrypt_file META_FILE (info_to_bytes (info (meta h)))
         (encrypted_fek (meta h)) = (TEE_SUCCESS, ct)
       /\ pread f (meta_pos_raw h true)
            (sizeof_file_info + tee_fs_get_header_size META_FILE) = ct.

(** A consistent handle whose counter and meta are the ones a reopen of
    the container will find. *)
Definition durable (h : tee_fs_fd) (w : world) (name : string)
    (img : list byte) : Prop :=
  consistent h w name img
  /\ exists f, backed w (fd h) name f /\ committed f h.

(** The container [f'] has everything that was live in [f] under the
    bitmap of [m]: it is at least as long, and the bytes before the first
    block slot (the counter and the two meta slots) and the active slot of
    every block, as far as they lie within [f], are the same. *)
Definition spared (m : tee_fs_file_meta) (f f' : list byte) : Prop :=
  (length f <= length f')%nat
  /\ (forall o n, 0 <= o -> 0 <= n -> o + n <= data_base ->
        o + n <= Z.of_nat (length f) -> pread f' o n = pread f o n)
  /\ (forall j, 0 <= j < NUM_BLOCKS_PER_FILE ->
        block_pos_raw m j true + block_size_raw <= Z.of_nat (length f) ->
        pread f' (block_pos_raw m j true) block_size_raw
        = pread f (block_pos_raw m j true) block_size_raw).

(** [w'] differs from [w] at most in the contents of the file [name], in
    the failure script and in the trace. *)
Definition touches_only (name : string) (w w' : world) : Prop :=
  ree_fds w' = ree_fds w /\ ree_next_fd w' = ree_next_fd w
  /\ session_uuid w' = session_uuid w
  /\ forall other, other <> name ->
       ree_files w' !! other = ree_files w !! other.

(** The bytes a range write stores: [Some data] must hold them. *)
Definition chunk_ok (buf : option (list byte)) (data_ptr len : Z) : Prop :=
  match buf with
  | Some data => data_ptr + len <= Z.of_nat (length data)
  | None => True
  end.

End SpecVocabulary.

(** ** A reference key manager for executable scenarios

    A small key manager that meets the functional contract of the interface
    and can be run: a ciphertext is a one-byte tag, the FEK it is bound to
    and the payload.  Authentication fails when the tag is wrong, when a
    block is bound to another FEK than the one supplied, or when the
    ciphertext is shorter than its header. *)

Module RefKM.

Definition fek_size : Z := 4.

Definition tag_of (t : tee_fs_file_type) : byte :=
  match t with META_FILE => xa5 | BLOCK_FILE => x5a end.

Definition header_size (t : tee_fs_file_type) : Z := 1 + fek_size.

Definition generate_fek (uuid : list byte) : TEE_Result * list byte :=
  (TEE_SUCCESS, take (Z.to_nat fek_size) (uuid ++ zeros fek_size)).

Definition encrypt_file (t : tee_fs_file_type) (pt fek : list byte)
    : TEE_Result * list byte :=
  if (length fek =? Z.to_nat fek_size)%nat
  then (TEE_SUCCESS, tag_of t :: fek ++ pt)
  else (TEE_ERROR_BAD_PARAMETERS, []).

Definition decrypt_file (t : tee_fs_file_type) (ct : list byte) (cap : Z)
    (fek : list byte) : TEE_Result * list byte * list byte :=
  match ct with
  | tag :: rest =>
      let key := take (Z.to_nat fek_size) rest in
      let pt := drop (Z.to_nat fek_size) rest in
      if bool_decide (tag = tag_of t)
         && (Z.to_nat fek_size <=? length rest)%nat
         && (Z.of_nat (length pt) <=? cap)
         && match t with
            | META_FILE => true
            | BLOCK_FILE => bool_decide (key = fek)
            end
      then (TEE_SUCCESS, pt, key)
      else (TEE_ERROR_MAC_INVALID, [], fek)
  | [] => (TEE_ERROR_MAC_INVALID, [], fek)
  end.

Definition km : KeyManager :=
  {| NUM_BLOCKS_PER_FILE := 32;
     TEE_FS_KM_FEK_SIZE := fek_size;
     TEE_FS_NAME_MAX := 350;
     tee_fs_get_header_size := header_size;
     tee_fs_generate_fek := generate_fek;
     tee_fs_encrypt_file := encrypt_file;
     tee_fs_decrypt_file := decrypt_file |}.

(** An environment without files, descriptors or injected failures, whose
    stack holds the byte [0xa5] everywhere. *)
Definition empty_world : world :=
  {| ree_files := ∅; ree_fds := ∅; ree_next_fd := 3; faults := [];
     rpc_log := []; session_uuid := [x01; x02; x03; x04];
     stack := fun _ _ _ => xa5 |}.

(** A container just created under the name [/obj/a]. *)
Definition created : TEE_Result * option tee_fs_fd * world :=
  @ree_fs_create km (Some "/obj/a"%string) empty_world.

Definition created_handle : tee_fs_fd :=
  default (@zero_handle km) created.1.2.

Definition created_world : world := created.2.

Definition created_file : list byte :=
  default [] (ree_files created_world !! "/obj/a"%string).












(** The created container after three bytes were written at offset 0, and
    the same container after the REE has overwritten the first byte of the
    ciphertext of block 0 (offset 46, the slot the write went to). *)
Definition written : TEE_Result * tee_fs_fd * world :=
  @ree_fs_write km created_handle (Some [x01; x02; x03]) 3 created_world.

Definition tampered_world : world :=
  let w := written.2 in
  set_files w
    (<["/obj/a"%string :=
         pwrite (default [] (ree_files w !! "/obj/a"%string)) 46 [x00]]>
       (ree_files w)).

(** The handle of [written] with its cursor back at 0. *)
Definition rewound_handle : tee_fs_fd :=
  (ree_fs_seek written.1.2 0 TEE_DATA_SEEK_SET).1.2.

(** The created handle after [seek(SET, 2^31 - 1)] and [seek(CUR, 1)], and
    the truncate to one byte that follows. *)
Definition far_seek_1 : TEE_Result * tee_fs_fd * option Z :=
  ree_fs_seek created_handle (2 ^ 31 - 1) TEE_DATA_SEEK_SET.

Definition far_seek_2 : TEE_Result * tee_fs_fd * option Z :=
  ree_fs_seek far_seek_1.1.2 1 TEE_DATA_SEEK_CUR.

Definition far_handle : tee_fs_fd := far_seek_2.1.2.

Definition far_truncated : TEE_Result * tee_fs_fd * world :=
  @ree_fs_truncate km far_handle 1 created_world.

(** The written container in an environment that lets the read of a block
    through and fails the RPC write that follows, and a one-byte write at
    the end of the file in that environment. *)
Definition flaky_world : world :=
  set_faults written.2
    [TEE_SUCCESS; TEE_SUCCESS; TEE_SUCCESS; TEE_ERROR_GENERIC].

Definition flaky_write : TEE_Result * tee_fs_fd * world :=
  @ree_fs_write km written.1.2 (Some [x07]) 1 flaky_world.

(** A truncation of the written container to no bytes in an environment
    that fails the first allocation. *)
Definition starved_world : world := set_faults written.2 [TEE_ERROR_GENERIC].

Definition starved_truncate : TEE_Result * tee_fs_fd * world :=
  @ree_fs_truncate km written.1.2 0 starved_world.

(** The created container after its handle was closed: nothing was
    committed, so the meta slot its counter selects is still a hole. *)
Definition closed_world : world :=
  (ree_fs_close (Some created_handle) created_world).2.

(** The written container in an environment that lets a one-byte write
    at the end of the file through up to its last step and fails the write
    of the counter, and the handle that failed write leaves behind. *)
Definition ahead_world : world :=
  set_faults written.2
    [TEE_SUCCESS; TEE_SUCCESS; TEE_SUCCESS; TEE_SUCCESS; TEE_SUCCESS;
     TEE_SUCCESS; TEE_ERROR_GENERIC].

Definition ahead_write : TEE_Result * tee_fs_fd * world :=
  @ree_fs_write km written.1.2 (Some [x07]) 1 ahead_world.

Definition ahead_handle : tee_fs_fd := ahead_write.1.2.

(** A truncate to no bytes through that handle, whose counter write fails
    as well, and the container opened again after the handle was closed. *)
Definition lost_world : world :=
  set_faults ahead_write.2 [TEE_SUCCESS; TEE_SUCCESS; TEE_ERROR_GENERIC].

Definition lost_truncate : TEE_Result * tee_fs_fd * world :=
  @ree_fs_truncate km ahead_handle 0 lost_world.

Definition lost_reopened : TEE_Result * option tee_fs_fd * world :=
  @ree_fs_open km (Some "/obj/a"%string)
    (ree_fs_close (Some lost_truncate.1.2) lost_truncate.2).2.

(** The bytes of the container [/obj/a] in an environment. *)
Definition container (w : world) : list byte :=
  default [] (ree_files w !! "/obj/a"%string).

(** The written container after its handle was closed; the same container
    after the REE has overwritten the first byte of its live meta (offset
    25); and the same container cut off behind its 4-byte counter. *)
Definition shut_world : world :=
  (ree_fs_close (Some written.1.2) written.2).2.

Definition garbled_world : world :=
  set_files shut_world
    (<["/obj/a"%string := pwrite (container shut_world) 25 [x00]]>
       (ree_files shut_world)).

Definition cut_world : world :=
  set_files shut_world
    (<["/obj/a"%string := take 4 (container shut_world)]>
       (ree_files shut_world)).

(** The same key manager when it has no key to derive a FEK from. *)
Definition locked_km : KeyManager :=
  {| NUM_BLOCKS_PER_FILE := 32;
     TEE_FS_KM_FEK_SIZE := fek_size;
     TEE_FS_NAME_MAX := 350;
     tee_fs_get_header_size := header_size;
     tee_fs_generate_fek := fun _ => (TEE_ERROR_GENERIC, []);
     tee_fs_encrypt_file := encrypt_file;
     tee_fs_decrypt_file := decrypt_file |}.

(** The same key manager when its cipher refuses a block that starts with
    the byte [0xff], and a write of 257 bytes to the created container
    whose second block is such a block. *)
Definition picky_km : KeyManager :=
  {| NUM_BLOCKS_PER_FILE := 32;
     TEE_FS_KM_FEK_SIZE := fek_size;
     TEE_FS_NAME_MAX := 350;
     tee_fs_get_header_size := header_size;
     tee_fs_generate_fek := generate_fek;
     tee_fs_encrypt_file := fun t pt fek =>
       match t, pt with
       | BLOCK_FILE, xff :: _ => (TEE_ERROR_GENERIC, [])
       | _, _ => encrypt_file t pt fek
       end;
     tee_fs_decrypt_file := decrypt_file |}.

Definition refused_data : list byte := replicate 256 x01 ++ [xff].

Definition refused_write
    : TEE_Result * tee_fs_fd * tee_fs_file_meta * world :=
  @out_of_place_write picky_km created_handle (Some refused_data) 257
    (meta created_handle) created_world.

End RefKM.

(** * Properties *)

(** ** Machine integers and bytes *)

Lemma u32_id z : 0 <= z < 2 ^ 32 -> u32 z = z.
Proof. intros H. unfold u32. apply Z.mod_small. exact H. Qed.

Lemma u32_range z : 0 <= u32 z < 2 ^ 32.
Proof. unfold u32. apply Z.mod_pos_bound. lia. Qed.

Lemma s32_id z : - 2 ^ 31 <= z < 2 ^ 31 -> s32 z = z.
Proof. intros H. unfold s32. rewrite Z.mod_small; lia. Qed.

Lemma s32_range z : - 2 ^ 31 <= s32 z < 2 ^ 31.
Proof.
  unfold s32. pose proof (Z.mod_pos_bound (z + 2 ^ 31) (2 ^ 32)). lia.
Qed.


Lemma Z_of_byte_of_Z z : Z_of_byte (byte_of_Z z) = z mod 256.
Proof.
  unfold Z_of_byte, byte_of_Z.
  pose proof (Z.mod_pos_bound z 256 ltac:(lia)) as Hr.
  destruct (Byte.of_N (Z.to_N (z mod 256))) as [b|] eqn:E.
  - apply Byte.to_of_N in E. simpl. rewrite E. lia.
  - apply Byte.of_N_None_iff in E. lia.
Qed.

Lemma le32_decode_encode z : le32_decode (le32_encode z) = u32 z.
Proof.
  unfold le32_decode, le32_encode, u32. rewrite !Z_of_byte_of_Z.
  change (2 ^ 8) with 256. change (2 ^ 16) with (256 * 256).
  change (2 ^ 24) with (256 * 256 * 256).
  change (2 ^ 32) with (256 * (256 * (256 * 256))).
  rewrite <- !Z.div_div by lia.
  rewrite (Z.rem_mul_r z 256 (256 * (256 * 256))) by lia.
  rewrite (Z.rem_mul_r (z / 256) 256 (256 * 256)) by lia.
  rewrite (Z.rem_mul_r (z / 256 / 256) 256 256) by lia.
  lia.
Qed.

Lemma length_le32_encode z : length (le32_encode z) = 4%nat.
Proof. reflexivity. Qed.

Lemma length_zeros n : length (zeros n) = Z.to_nat n.
Proof. unfold zeros. apply length_replicate. Qed.

Lemma length_uninitialised n w : length (uninitialised n w) = Z.to_nat n.
Proof. unfold uninitialised. rewrite length_fmap. apply length_seq. Qed.

Lemma failed_false res : failed res = false <-> res = TEE_SUCCESS.
Proof.
  unfold failed. rewrite negb_false_iff. apply Z.eqb_eq.
Qed.

Lemma failed_true res : failed res = true <-> res <> TEE_SUCCESS.
Proof.
  unfold failed. rewrite negb_true_iff. apply Z.eqb_neq.
Qed.

(** ** Sizes and offsets under the key manager's contract *)

Section Sizes.
Context {KM : KeyManager} {LO : KeyManagerLayout KM}.

Lemma BLOCK_SIZE_eq : BLOCK_SIZE = 256.
Proof. reflexivity. Qed.

Lemma sizeof_file_info_ge : 4 <= sizeof_file_info.
Proof.
  unfold sizeof_file_info. pose proof km_blocks_pos.
  pose proof (Z.div_pos NUM_BLOCKS_PER_FILE 32). lia.
Qed.

Lemma sizeof_file_meta_ge : sizeof_file_info + 4 <= sizeof_file_meta.
Proof.
  unfold sizeof_file_meta. pose proof km_fek_size.
  pose proof (Z.div_pos (TEE_FS_KM_FEK_SIZE + 3) 4). lia.
Qed.

Lemma meta_size_eq :
  meta_size = tee_fs_get_header_size META_FILE + sizeof_file_meta.
Proof.
  unfold meta_size. apply u32_id.
  pose proof km_container_fits. pose proof km_blocks_pos.
  pose proof (km_header_size META_FILE). pose proof (km_header_size BLOCK_FILE).
  pose proof sizeof_file_meta_ge. pose proof sizeof_file_info_ge.
  rewrite BLOCK_SIZE_eq in *. nia.
Qed.

Lemma meta_size_ge : 8 <= meta_size.
Proof.
  rewrite meta_size_eq. pose proof (km_header_size META_FILE).
  pose proof sizeof_file_meta_ge. pose proof sizeof_file_info_ge. lia.
Qed.

Lemma block_size_raw_eq :
  block_size_raw = tee_fs_get_header_size BLOCK_FILE + BLOCK_SIZE.
Proof.
  unfold block_size_raw. apply u32_id.
  pose proof km_container_fits. pose proof km_blocks_pos.
  pose proof (km_header_size META_FILE). pose proof (km_header_size BLOCK_FILE).
  pose proof sizeof_file_meta_ge. pose proof sizeof_file_info_ge.
  rewrite BLOCK_SIZE_eq in *. nia.
Qed.

Lemma block_size_raw_ge : BLOCK_SIZE <= block_size_raw.
Proof. rewrite block_size_raw_eq. pose proof (km_header_size BLOCK_FILE). lia. Qed.

Lemma container_fits :
  4 + 2 * meta_size + 2 * NUM_BLOCKS_PER_FILE * block_size_raw < 2 ^ 31.
Proof. rewrite meta_size_eq, block_size_raw_eq. apply km_container_fits. Qed.

Lemma MAX_FILE_SIZE_bound : 0 < MAX_FILE_SIZE < 2 ^ 31.
Proof.
  unfold MAX_FILE_SIZE. rewrite BLOCK_SIZE_eq.
  pose proof container_fits. pose proof km_blocks_pos.
  pose proof block_size_raw_ge. pose proof meta_size_ge.
  rewrite BLOCK_SIZE_eq in *. nia.
Qed.

Lemma meta_pos_raw_eq fdp active :
  meta_pos_raw fdp active
  = if Z.land (meta_counter fdp) 1 =? Z.b2z active
    then 4 + meta_size else 4.
Proof.
  unfold meta_pos_raw. destruct (_ =? _); [|reflexivity].
  apply u32_id. pose proof container_fits. pose proof meta_size_ge.
  pose proof km_blocks_pos. pose proof block_size_raw_ge.
  rewrite BLOCK_SIZE_eq in *. nia.
Qed.

Lemma land_1_cases c : Z.land c 1 = 0 \/ Z.land c 1 = 1.
Proof.
  assert (H : Z.land c 1 = c mod 2) by exact (Z.land_ones c 1 ltac:(lia)).
  pose proof (Z.mod_pos_bound c 2). lia.
Qed.

(** The active meta slot is the one named by the low bit of the counter,
    the shadow slot is the other one. *)
Lemma meta_pos_raw_active fdp :
  meta_pos_raw fdp true = meta_slot_offset (Z.land (meta_counter fdp) 1).
Proof.
  rewrite meta_pos_raw_eq. unfold meta_slot_offset. simpl Z.b2z.
  destruct (land_1_cases (meta_counter fdp)) as [-> | ->]; simpl; lia.
Qed.

Lemma meta_pos_raw_shadow fdp :
  meta_pos_raw fdp false
  = meta_slot_offset (1 - Z.land (meta_counter fdp) 1).
Proof.
  rewrite meta_pos_raw_eq. unfold meta_slot_offset. simpl Z.b2z.
  destruct (land_1_cases (meta_counter fdp)) as [-> | ->]; simpl; lia.
Qed.

End Sizes.

(** ** The reference key manager meets the contract *)

Lemma RefKM_layout : KeyManagerLayout RefKM.km.
Proof.
  split.
  - reflexivity.
  - reflexivity.
  - discriminate.
  - intros []; discriminate.
  - reflexivity.
Qed.

Lemma RefKM_picky_layout : KeyManagerLayout RefKM.picky_km.
Proof.
  split.
  - reflexivity.
  - reflexivity.
  - discriminate.
  - intros []; discriminate.
  - reflexivity.
Qed.

Lemma RefKM_contract : KeyManagerOk RefKM.km.
Proof.
  split.
  - exact RefKM_layout.
  - intros uuid fek [= <-]. cbn.
    rewrite length_take, length_app, length_zeros. cbn. lia.
  - intros t pt fek Hlen. cbn in *. unfold RefKM.encrypt_file.
    apply Nat.eqb_eq in Hlen as Hb. rewrite Hb.
    eexists; reflexivity.
  - intros t pt fek ct. cbn. unfold RefKM.encrypt_file.
    destruct (length fek =? Z.to_nat RefKM.fek_size)%nat eqn:Hb;
      [|discriminate].
    apply Nat.eqb_eq in Hb. intros [= <-].
    cbn [length]. rewrite length_app, Hb. unfold RefKM.header_size.
    rewrite Nat2Z.inj_succ, Nat2Z.inj_add. unfold RefKM.fek_size. lia.
  - intros t pt fek ct cap buf Henc Hcap Hbuf. cbn in *.
    unfold RefKM.encrypt_file in Henc.
    destruct (length fek =? Z.to_nat RefKM.fek_size)%nat eqn:Hb;
      [|discriminate].
    apply Nat.eqb_eq in Hb. injection Henc as <-.
    unfold RefKM.decrypt_file.
    rewrite take_app_length' by (symmetry; exact Hb).
    rewrite drop_app_length' by (symmetry; exact Hb).
    rewrite bool_decide_eq_true_2 by reflexivity.
    rewrite length_app.
    replace (Z.to_nat RefKM.fek_size <=? length fek + length pt)%nat
      with true by (symmetry; apply Nat.leb_le; lia).
    replace (Z.of_nat (length pt) <=? cap) with true
      by (symmetry; apply Z.leb_le; lia).
    destruct t; cbn.
    + reflexivity.
    + rewrite (Hbuf eq_refl). rewrite bool_decide_eq_true_2 by reflexivity.
      reflexivity.
Qed.

(** ** The environment's primitives *)


Lemma same_store_refl w : same_store w w.
Proof. repeat split. Qed.

Lemma same_store_trans w1 w2 w3 :
  same_store w1 w2 -> same_store w2 w3 -> same_store w1 w3.
Proof.
  intros (a & b & c & d) (a' & b' & c' & d').
  repeat split; congruence.
Qed.

Lemma same_store_file_of w w' d :
  same_store w w' -> file_of w' d = file_of w d.
Proof. intros (a & b & _). unfold file_of. rewrite a, b. reflexivity. Qed.

Lemma next_fault_spec w r w' :
  next_fault w = (r, w') ->
  same_store w w' /\ rpc_log w' = rpc_log w
  /\ (faults w = [] -> r = TEE_SUCCESS /\ w' = w).
Proof.
  unfold next_fault. destruct (faults w) as [|x rest] eqn:E; intros [= <- <-].
  - repeat split.
  - repeat split; discriminate.
Qed.

Lemma malloc_spec n w b w' :
  malloc n w = (b, w') ->
  same_store w w' /\ rpc_log w' = rpc_log w
  /\ (faults w = [] -> b = true /\ w' = w).
Proof.
  unfold malloc. destruct (next_fault w) as [r w1] eqn:E. intros [= <- <-].
  apply next_fault_spec in E as (Hs & Hl & Hf).
  repeat split; try apply Hs; try exact Hl.
  - destruct (Hf H) as [-> _]. reflexivity.
  - apply Hf, H.
Qed.

Lemma rpc_read_spec d len offs w res data w' :
  tee_fs_rpc_read d len offs w = (res, data, w') ->
  same_store w w'
  /\ rpc_log w' = rpc_log w ++ [RpcRead d offs len res]
  /\ (res = TEE_SUCCESS ->
      0 <= offs /\ exists name f,
        file_of w d = Some (name, f) /\ data = pread f offs len).
Proof.
  unfold tee_fs_rpc_read. destruct (next_fault w) as [r w1] eqn:E.
  apply next_fault_spec in E as (Hs & Hl & _).
  intros [= <- <- <-]. split; [|split].
  - exact Hs.
  - cbn. rewrite Hl. reflexivity.
  - rewrite (same_store_file_of _ _ d Hs).
    destruct (failed r) eqn:Hr.
    { cbn. intros ->. discriminate. }
    destruct (offs <? 0) eqn:Ho; [cbn; discriminate|].
    apply Z.ltb_ge in Ho.
    destruct (file_of w d) as [[name f]|]; cbn; [|discriminate].
    intros _. split; [exact Ho|]. eauto.
Qed.

Lemma rpc_read_reliable d len offs w name f :
  faults w = [] -> 0 <= offs -> file_of w d = Some (name, f) ->
  tee_fs_rpc_read d len offs w
  = (TEE_SUCCESS, pread f offs len,
     log_event (RpcRead d offs len TEE_SUCCESS) w).
Proof.
  intros Hf Ho Hfile. unfold tee_fs_rpc_read, next_fault. rewrite Hf.
  cbn. destruct (offs <? 0) eqn:E; [apply Z.ltb_lt in E; lia|].
  rewrite Hfile. reflexivity.
Qed.

Lemma rpc_write_spec d data offs w res w' :
  tee_fs_rpc_write d data offs w = (res, w') ->
  ree_fds w' = ree_fds w /\ ree_next_fd w' = ree_next_fd w
  /\ session_uuid w' = session_uuid w
  /\ rpc_log w' = rpc_log w ++ [RpcWrite d offs data res]
  /\ (res <> TEE_SUCCESS -> ree_files w' = ree_files w)
  /\ (res = TEE_SUCCESS ->
      0 <= offs /\ exists name f,
        file_of w d = Some (name, f)
        /\ ree_files w' = <[name := pwrite f offs data]> (ree_files w)).
Proof.
  unfold tee_fs_rpc_write. destruct (next_fault w) as [r w1] eqn:E.
  apply next_fault_spec in E as (Hs & Hl & _).
  pose proof (same_store_file_of _ _ d Hs) as Hfo.
  destruct Hs as (Hfiles & Hfds & Hnext & Hu).
  destruct (failed r) eqn:Hr.
  { intros [= <- <-]. cbn. apply failed_true in Hr.
    repeat split; try congruence. }
  destruct (offs <? 0) eqn:Ho.
  { intros [= <- <-]. cbn. repeat split; try congruence; try discriminate. }
  apply Z.ltb_ge in Ho. rewrite Hfo.
  destruct (file_of w d) as [[name f]|] eqn:Hfile.
  - intros [= <- <-]. cbn. repeat split; try congruence.
    exists name, f. rewrite Hfiles. split; reflexivity.
  - intros [= <- <-]. cbn. repeat split; try congruence; try discriminate.
Qed.

Lemma rpc_write_reliable d data offs w name f :
  faults w = [] -> 0 <= offs -> file_of w d = Some (name, f) ->
  tee_fs_rpc_write d data offs w
  = (TEE_SUCCESS,
     log_event (RpcWrite d offs data TEE_SUCCESS)
       (set_files w (<[name := pwrite f offs data]> (ree_files w)))).
Proof.
  intros Hf Ho Hfile. unfold tee_fs_rpc_write, next_fault. rewrite Hf.
  cbn. destruct (offs <? 0) eqn:E; [apply Z.ltb_lt in E; lia|].
  rewrite Hfile. reflexivity.
Qed.

(** ** Positional reads and writes *)

Lemma length_pwrite f o d :
  0 <= o ->
  length (pwrite f o d) = Nat.max (length f) (Z.to_nat o + length d).
Proof.
  intros Ho. unfold pwrite.
  rewrite !length_app, length_take, length_app, length_replicate, length_drop.
  lia.
Qed.

Lemma pwrite_prefix_length f o :
  length (take (Z.to_nat o) (f ++ replicate (Z.to_nat o - length f) x00))
  = Z.to_nat o.
Proof. rewrite length_take, length_app, length_replicate. lia. Qed.

Lemma pread_pwrite_same f o d n :
  n = Z.of_nat (length d) -> pread (pwrite f o d) o n = d.
Proof.
  intros ->. unfold pread, pwrite.
  rewrite drop_app_length' by (symmetry; apply pwrite_prefix_length).
  rewrite Nat2Z.id. apply take_app_length.
Qed.

Lemma pread_pwrite_above f o d o' n :
  0 <= o -> o + Z.of_nat (length d) <= o' ->
  pread (pwrite f o d) o' n = pread f o' n.
Proof.
  intros Ho Hle. unfold pread, pwrite. f_equal.
  rewrite app_assoc, drop_app_ge.
  2:{ rewrite length_app, pwrite_prefix_length. lia. }
  rewrite length_app, pwrite_prefix_length, drop_drop. f_equal. lia.
Qed.

Lemma pread_pwrite_below f o d o' n :
  0 <= o' -> 0 <= n -> o' + n <= o -> o' + n <= Z.of_nat (length f) ->
  pread (pwrite f o d) o' n = pread f o' n.
Proof.
  intros Ho' Hn Hle Hin. unfold pread, pwrite.
  rewrite !take_drop_commute. f_equal.
  rewrite take_app_le by (rewrite pwrite_prefix_length; lia).
  rewrite take_take, Nat.min_l by lia.
  rewrite take_app_le by lia. reflexivity.
Qed.

Lemma pread_eof f o n :
  Z.of_nat (length f) <= o -> pread f o n = [].
Proof.
  intros H. unfold pread. rewrite drop_ge by lia. apply take_nil.
Qed.

Lemma length_pread f o n :
  0 <= o -> 0 <= n -> o + n <= Z.of_nat (length f) ->
  length (pread f o n) = Z.to_nat n.
Proof.
  intros. unfold pread. rewrite length_take, length_drop. lia.
Qed.

(** A write that starts at or after offset 4 leaves an existing counter
    alone. *)
Lemma pwrite_keeps_counter f o d :
  4 <= o -> (4 <= length f)%nat ->
  take 4 (pwrite f o d) = take 4 f
  /\ (4 <= length (pwrite f o d))%nat.
Proof.
  intros Ho Hf. split.
  - change (take 4 (pwrite f o d)) with (pread (pwrite f o d) 0 4).
    change (take 4 f) with (pread f 0 4).
    apply pread_pwrite_below; lia.
  - rewrite length_pwrite by lia. lia.
Qed.

(** ** Encrypted writes, the meta writes and the commit *)

Section MetaWrites.
Context {KM : KeyManager}.

Lemma new_events_app w w' evs :
  rpc_log w' = rpc_log w ++ evs -> new_events w w' = evs.
Proof. intros H. unfold new_events. rewrite H. apply drop_app_length. Qed.

Lemma encrypt_and_write_file_spec fdp t offs data sz fek w res w' :
  encrypt_and_write_file fdp t offs data sz fek w = (res, w') ->
  ree_fds w' = ree_fds w /\ ree_next_fd w' = ree_next_fd w
  /\ session_uuid w' = session_uuid w
  /\ (res <> TEE_SUCCESS ->
      ree_files w' = ree_files w
      /\ (rpc_log w' = rpc_log w
          \/ exists ct,
               rpc_log w' = rpc_log w ++ [RpcWrite (fd fdp) offs ct res]))
  /\ (res = TEE_SUCCESS ->
      0 <= offs /\ exists ct name f,
        tee_fs_encrypt_file t data fek = (TEE_SUCCESS, ct)
        /\ file_of w (fd fdp) = Some (name, f)
        /\ ree_files w' = <[name := pwrite f offs ct]> (ree_files w)
        /\ rpc_log w' = rpc_log w ++ [RpcWrite (fd fdp) offs ct TEE_SUCCESS]).
Proof.
  unfold encrypt_and_write_file.
  destruct (malloc _ w) as [p w1] eqn:Em.
  apply malloc_spec in Em as ((Hfi & Hfd & Hnx & Hu) & Hl & _).
  destruct p; cbn [negb].
  2:{ intros [= <- <-]. repeat split; try congruence; try discriminate.
      left. exact Hl. }
  destruct (tee_fs_encrypt_file t data fek) as [r ct] eqn:Ee.
  destruct (failed r) eqn:Hr.
  { intros [= <- <-]. apply failed_true in Hr.
    repeat split; try congruence. left. exact Hl. }
  apply failed_false in Hr. subst r.
  intros Hw. apply rpc_write_spec in Hw
    as (Hfd' & Hnx' & Hu' & Hl' & Hfail & Hok).
  repeat split; try congruence.
  - rewrite (Hfail H). exact Hfi.
  - right. exists ct. rewrite Hl', Hl. reflexivity.
  - apply Hok, H.
  - destruct (Hok H) as (_ & name & f & Hfile & Hfiles).
    exists ct, name, f. repeat split.
    + rewrite <- Hfile. unfold file_of. rewrite Hfi, Hfd. reflexivity.
    + rewrite Hfiles, Hfi. reflexivity.
    + rewrite Hl', Hl, H. reflexivity.
Qed.

Lemma write_meta_counter_spec fdp w res w' :
  write_meta_counter fdp w = (res, w') ->
  ree_fds w' = ree_fds w /\ ree_next_fd w' = ree_next_fd w
  /\ session_uuid w' = session_uuid w
  /\ rpc_log w'
     = rpc_log w ++ [RpcWrite (fd fdp) 0 (le32_encode (meta_counter fdp)) res]
  /\ (res <> TEE_SUCCESS -> ree_files w' = ree_files w)
  /\ (res = TEE_SUCCESS ->
      exists name f,
        file_of w (fd fdp) = Some (name, f)
        /\ ree_files w'
           = <[name := pwrite f 0 (le32_encode (meta_counter fdp))]>
               (ree_files w)).
Proof.
  unfold write_meta_counter. intros H.
  apply rpc_write_spec in H as (a & b & c & d & e & f).
  repeat split; try assumption. intros Hr. apply f, Hr.
Qed.

(** [commit_meta_file] unfolded along the outcome of its shadow write. *)
Lemma commit_meta_file_eq fdp new_meta w :
  let nm := set_counter new_meta (u32 (meta_counter fdp + 1)) in
  let adopted := set_meta_counter (set_meta fdp nm) (u32 (meta_counter fdp + 1)) in
  commit_meta_file fdp new_meta w
  = let '(res1, w1) := write_meta_file fdp nm w in
    if failed res1 then (res1, fdp, w1)
    else let '(res2, w2) := write_meta_counter adopted w1 in
         (res2, adopted, w2).
Proof. reflexivity. Qed.

End MetaWrites.

(** ** The meta-offset function (C4) *)




(** ** The commit of a candidate meta (C2) *)

Section Commit.
Context {KM : KeyManager} {OK : KeyManagerOk KM}.

Lemma file_of_inv w d name f :
  file_of w d = Some (name, f)
  <-> ree_fds w !! d = Some name /\ ree_files w !! name = Some f.
Proof.
  unfold file_of. destruct (ree_fds w !! d) as [n|]; [|split; [discriminate|intros [? _]; discriminate]].
  destruct (ree_files w !! n) as [g|] eqn:E.
  - split.
    + intros [= <- <-]. split; [reflexivity|exact E].
    + intros [[= <-] Hf]. rewrite E in Hf. injection Hf as <-. reflexivity.
  - split; [discriminate|]. intros [[= <-] Hf]. congruence.
Qed.

Lemma file_of_update w w' d name f f' :
  file_of w d = Some (name, f) ->
  ree_fds w' = ree_fds w ->
  ree_files w' = <[name := f']> (ree_files w) ->
  file_of w' d = Some (name, f').
Proof.
  intros H Hd Hf. apply file_of_inv in H as [H1 H2]. apply file_of_inv.
  rewrite Hd, Hf. split; [exact H1|]. apply lookup_insert_eq.
Qed.

Lemma file_of_same w w' d :
  ree_fds w' = ree_fds w -> ree_files w' = ree_files w ->
  file_of w' d = file_of w d.
Proof. intros Hd Hf. unfold file_of. rewrite Hd, Hf. reflexivity. Qed.

Lemma length_concat_le32 (t : list Z) :
  length (concat (le32_encode <$> t)) = (4 * length t)%nat.
Proof.
  induction t as [|x t IH]; [reflexivity|].
  cbn [fmap list_fmap concat]. rewrite length_app, IH. cbn. lia.
Qed.

Lemma length_info_to_bytes i :
  length (backup_version_table i) = Z.to_nat (NUM_BLOCKS_PER_FILE / 32) ->
  Z.of_nat (length (info_to_bytes i)) = sizeof_file_info.
Proof.
  intros H. unfold info_to_bytes, sizeof_file_info.
  rewrite length_app, length_concat_le32, H. cbn [length le32_encode].
  pose proof km_blocks_pos.
  pose proof (Z.div_pos NUM_BLOCKS_PER_FILE 32). lia.
Qed.

Lemma meta_ciphertext_fits :
  tee_fs_get_header_size META_FILE + sizeof_file_info <= meta_size.
Proof. rewrite meta_size_eq. pose proof sizeof_file_meta_ge. lia. Qed.

Lemma meta_slot_offsets_differ c :
  meta_slot_offset (1 - Z.land c 1) <> meta_slot_offset (Z.land c 1).
Proof.
  unfold meta_slot_offset. pose proof meta_size_ge.
  destruct (land_1_cases c) as [-> | ->]; lia.
Qed.

End Commit.

(** X22: a commit through a handle that mirrors the on-disk counter.  The
    offset of the shadow meta write differs from the offset of the meta
    slot the on-disk counter selects, and the write leaves the bytes of
    that live meta as they were; if the shadow write fails the commit
    returns its error with the handle untouched and without any write at
    offset 0; if it succeeds the handle adopts the new meta and counter and
    only then is the 4-byte counter written at offset 0, so that the two
    writes are the only events of the commit, in this order. *)
Theorem commit_shadow_then_counter (KM : KeyManager) (OK : KeyManagerOk KM)
    (fdp : tee_fs_fd) (new_meta : tee_fs_file_meta) (w : world)
    (name : string) (f : list byte) (c : Z) :
  file_of w (fd fdp) = Some (name, f) ->
  disk_counter w (fd fdp) = Some c ->
  meta_counter fdp = c ->
  length (backup_version_table (info new_meta))
  = Z.to_nat (NUM_BLOCKS_PER_FILE / 32) ->
  let live := meta_slot_offset (Z.land c 1) in
  let shadow := meta_pos_raw fdp false in
  let ct_size := tee_fs_get_header_size META_FILE + sizeof_file_info in
  let nm := set_counter new_meta (u32 (meta_counter fdp + 1)) in
  let adopted :=
    set_meta_counter (set_meta fdp nm) (u32 (meta_counter fdp + 1)) in
  shadow <> live
  /\ forall res1 w1,
       write_meta_file fdp nm w = (res1, w1) ->
       (exists f1,
          file_of w1 (fd fdp) = Some (name, f1)
          /\ (live + ct_size <= Z.of_nat (length f) ->
              pread f1 live ct_size = pread f live ct_size))
       /\ (failed res1 = true ->
           commit_meta_file fdp new_meta w = (res1, fdp, w1)
           /\ forallb (fun e => negb (is_counter_write e)) (new_events w w1)
              = true)
       /\ (failed res1 = false ->
           exists ct res2 w2,
             write_meta_counter adopted w1 = (res2, w2)
             /\ commit_meta_file fdp new_meta w = (res2, adopted, w2)
             /\ new_events w w2
                = [RpcWrite (fd fdp) shadow ct TEE_SUCCESS;
                   RpcWrite (fd fdp) 0 (le32_encode (u32 (c + 1))) res2]).
Proof.
  intros Hfile Hdisk Hsync Htab live shadow ct_size nm adopted.
  assert (Hshadow : shadow = meta_slot_offset (1 - Z.land c 1)).
  { unfold shadow. rewrite meta_pos_raw_shadow, Hsync. reflexivity. }
  split.
  { rewrite Hshadow. apply meta_slot_offsets_differ. }
  intros res1 w1 Hw.
  pose proof (commit_meta_file_eq fdp new_meta w) as Heq. cbv zeta in Heq.
  fold nm in Heq. fold adopted in Heq. rewrite Hw in Heq.
  unfold write_meta_file in Hw. fold shadow in Hw.
  apply encrypt_and_write_file_spec in Hw as (Hfd & Hnx & Hu & Hfail & Hok).
  split; [|split].
  - destruct (Z.eq_dec res1 TEE_SUCCESS) as [Hr|Hr].
    + destruct (Hok Hr) as (Hpos & ct & name' & f' & Henc & Hfile' & Hfiles & _).
      rewrite Hfile in Hfile'. injection Hfile' as <- <-.
      exists (pwrite f shadow ct). split.
      { eapply file_of_update; eassumption. }
      intros Hin.
      apply km_encrypt_size in Henc.
      rewrite length_info_to_bytes in Henc by exact Htab.
      fold ct_size in Henc.
      pose proof meta_ciphertext_fits. pose proof meta_size_ge.
      pose proof (km_header_size META_FILE). pose proof sizeof_file_info_ge.
      rewrite Hshadow. unfold live, meta_slot_offset in *.
      destruct (land_1_cases c) as [Hc | Hc]; rewrite Hc in *.
      * apply pread_pwrite_below; lia.
      * apply pread_pwrite_above; lia.
    + destruct (Hfail Hr) as (Hfiles & _).
      exists f. split; [|reflexivity].
      rewrite (file_of_same w w1) by assumption. exact Hfile.
  - intros Hr. rewrite Hr in Heq. split; [exact Heq|].
    apply failed_true in Hr. destruct (Hfail Hr) as (_ & [Hl | [ct Hl]]).
    + unfold new_events. rewrite Hl, drop_all. reflexivity.
    + rewrite (new_events_app _ _ _ Hl). cbn.
      assert ((shadow =? 0) = false) as ->; [|reflexivity].
      apply Z.eqb_neq. rewrite Hshadow. unfold meta_slot_offset.
      pose proof meta_size_ge. destruct (land_1_cases c) as [-> | ->]; lia.
  - intros Hr. rewrite Hr in Heq. apply failed_false in Hr.
    destruct (Hok Hr) as (_ & ct & _ & _ & _ & _ & _ & Hl).
    destruct (write_meta_counter adopted w1) as [res2 w2] eqn:Hc.
    exists ct, res2, w2. split; [reflexivity|]. split; [exact Heq|].
    apply write_meta_counter_spec in Hc as (_ & _ & _ & Hl2 & _).
    apply new_events_app. rewrite Hl2, Hl, <- app_assoc. cbn.
    rewrite Hsync. reflexivity.
Qed.

Lemma commit_shadow_then_counter_witness :
  let fdp := RefKM.created_handle in
  let w := RefKM.created_world in
  (file_of w (fd fdp) = Some ("/obj/a"%string, RefKM.created_file)
   /\ @disk_counter w (fd fdp) = Some 0
   /\ meta_counter fdp = 0)
  /\ @meta_pos_raw RefKM.km fdp false <> @meta_slot_offset RefKM.km 0.
Proof.
  split; [vm_compute; repeat split|].
  refine (proj1 (commit_shadow_then_counter RefKM.km RefKM_contract
            RefKM.created_handle (meta RefKM.created_handle)
            RefKM.created_world "/obj/a"%string RefKM.created_file 0
            _ _ _ _)); vm_compute; reflexivity.
Defined.

(** C2, at the failing input: a one-byte write to the written container
    (counter 1 on disk and in the handle) fails in its last step, the write
    of the counter; the commit has adopted the new counter before that
    write, so the handle is at counter 2 while the disk is still at 1, and
    the shadow offset computed from the handle's counter is the offset of
    the meta slot the on-disk counter selects.  A truncate to no bytes
    through that handle, whose counter write fails as well, has by then
    written its meta over the live meta: the on-disk counter is still 1,
    both operations reported a failure, and the container opens with a
    length of 0 where 3 bytes were committed. *)
Lemma shadow_write_overwrites_live_meta :
  let h := RefKM.ahead_handle in
  let live := @meta_slot_offset RefKM.km (Z.land 1 1) in
  (RefKM.written.1.1 = TEE_SUCCESS
   /\ meta_counter RefKM.written.1.2 = 1
   /\ length_ (info (meta RefKM.written.1.2)) = 3
   /\ disk_counter RefKM.written.2 (fd h) = Some 1)
  /\ (RefKM.ahead_write.1.1 = TEE_ERROR_GENERIC
      /\ meta_counter h = 2
      /\ disk_counter RefKM.ahead_write.2 (fd h) = Some 1
      /\ @meta_pos_raw RefKM.km h false = live)
  /\ (RefKM.lost_truncate.1.1 = TEE_ERROR_GENERIC
      /\ disk_counter RefKM.lost_truncate.2 (fd h) = Some 1
      /\ (exists ct,
            new_events RefKM.lost_world RefKM.lost_truncate.2
            = [RpcWrite (fd h) live ct TEE_SUCCESS;
               RpcWrite (fd h) 0 (le32_encode 3) TEE_ERROR_GENERIC])
      /\ pread (RefKM.container RefKM.lost_truncate.2) live 13
         <> pread (RefKM.container RefKM.written.2) live 13)
  /\ exists h',
       RefKM.lost_reopened.1 = (TEE_SUCCESS, Some h')
       /\ meta_counter h' = 1 /\ length_ (info (meta h')) = 0.
Proof.
  cbv zeta. split; [vm_compute; repeat split|].
  split; [vm_compute; repeat split|]. split.
  - split; [vm_compute; reflexivity|]. split; [vm_compute; reflexivity|].
    split; [eexists; vm_compute; reflexivity|]. vm_compute. discriminate.
  - eexists. split; [vm_compute; reflexivity|]. vm_compute. repeat split.
Qed.

(** ** The backup-version bitmap *)

Section Bitmap.
Context {KM : KeyManager} {LO : KeyManagerLayout KM}.

Lemma land_pow2 x i :
  0 <= i -> Z.land x (2 ^ i) = if Z.testbit x i then 2 ^ i else 0.
Proof.
  intros Hi. apply Z.bits_inj'. intros j Hj.
  rewrite Z.land_spec, Z.pow2_bits_eqb by lia.
  destruct (Z.eqb_spec i j) as [<- | Hne].
  - rewrite andb_true_r. destruct (Z.testbit x i) eqn:E.
    + rewrite Z.pow2_bits_true; lia.
    + rewrite Z.bits_0. reflexivity.
  - rewrite andb_false_r. destruct (Z.testbit x i).
    + rewrite Z.pow2_bits_false; lia.
    + rewrite Z.bits_0. reflexivity.
Qed.

Lemma block_mask_eq k :
  u32 (Z.shiftl 1 (k mod 32)) = 2 ^ (k mod 32).
Proof.
  pose proof (Z.mod_pos_bound k 32 ltac:(lia)) as Hr.
  rewrite Z.shiftl_1_l. apply u32_id. split; [lia|].
  apply Z.pow_lt_mono_r; lia.
Qed.

Lemma get_backup_version_testbit m k :
  get_backup_version_of_block m k
  = Z.testbit (backup_version_table (info m) !!! Z.to_nat (k / 32))
      (k mod 32).
Proof.
  pose proof (Z.mod_pos_bound k 32 ltac:(lia)) as Hr.
  unfold get_backup_version_of_block. cbv zeta.
  rewrite block_mask_eq, land_pow2 by lia.
  destruct (Z.testbit _ _); [|reflexivity].
  apply negb_true_iff, Z.eqb_neq. lia.
Qed.

Lemma word_index_lt k :
  0 <= k < NUM_BLOCKS_PER_FILE ->
  (Z.to_nat (k / 32) < Z.to_nat (NUM_BLOCKS_PER_FILE / 32))%nat.
Proof.
  intros Hk. pose proof km_blocks_words as Hw.
  apply Z.mod_divide in Hw; [|lia]. destruct Hw as [q Hq].
  rewrite Hq, Z.div_mul by lia.
  assert (k / 32 < q) by (apply Z.div_lt_upper_bound; lia).
  pose proof (Z.div_pos k 32). lia.
Qed.

Lemma toggle_table_length m k :
  length (backup_version_table (info (toggle_backup_version_of_block m k)))
  = length (backup_version_table (info m)).
Proof. unfold toggle_backup_version_of_block. cbn. apply length_insert. Qed.

Lemma toggle_same m k :
  0 <= k < NUM_BLOCKS_PER_FILE ->
  length (backup_version_table (info m))
  = Z.to_nat (NUM_BLOCKS_PER_FILE / 32) ->
  get_backup_version_of_block (toggle_backup_version_of_block m k) k
  = negb (get_backup_version_of_block m k).
Proof.
  intros Hk Hlen. pose proof (word_index_lt k Hk) as Hi.
  pose proof (Z.mod_pos_bound k 32 ltac:(lia)) as Hr.
  rewrite !get_backup_version_testbit.
  unfold toggle_backup_version_of_block. cbn.
  rewrite list_lookup_total_insert_eq by lia.
  rewrite block_mask_eq, Z.lxor_spec, Z.pow2_bits_true by lia.
  destruct (Z.testbit _ _); reflexivity.
Qed.

Lemma toggle_other m k j :
  0 <= k < NUM_BLOCKS_PER_FILE -> 0 <= j -> j <> k ->
  get_backup_version_of_block (toggle_backup_version_of_block m k) j
  = get_backup_version_of_block m j.
Proof.
  intros Hk Hj Hne.
  pose proof (Z.mod_pos_bound k 32 ltac:(lia)) as Hr.
  pose proof (Z.mod_pos_bound j 32 ltac:(lia)) as Hr'.
  rewrite !get_backup_version_testbit.
  unfold toggle_backup_version_of_block. cbn.
  destruct (decide (Z.to_nat (k / 32) = Z.to_nat (j / 32))) as [He|He].
  - rewrite <- He.
    destruct (decide (Z.to_nat (k / 32)
                      < length (backup_version_table (info m)))%nat)
      as [Hlt|Hge].
    + rewrite list_lookup_total_insert_eq by exact Hlt.
      rewrite block_mask_eq, Z.lxor_spec, Z.pow2_bits_false.
      * apply xorb_false_r.
      * intros Heq.
        pose proof (Z.div_pos k 32). pose proof (Z.div_pos j 32).
        assert (k / 32 = j / 32) by lia.
        pose proof (Z.div_mod k 32). pose proof (Z.div_mod j 32). lia.
    + rewrite list_insert_ge by lia. reflexivity.
  - rewrite list_lookup_total_insert_ne by exact He. reflexivity.
Qed.

Lemma all_ones_bit m k :
  backup_version_table (info m)
  = replicate (Z.to_nat (NUM_BLOCKS_PER_FILE / 32)) 0xffffffff ->
  0 <= k < NUM_BLOCKS_PER_FILE ->
  get_backup_version_of_block m k = true.
Proof.
  intros Ht Hk. pose proof (word_index_lt k Hk) as Hi.
  pose proof (Z.mod_pos_bound k 32 ltac:(lia)) as Hr.
  rewrite get_backup_version_testbit, Ht.
  rewrite list_lookup_total_alt, lookup_replicate_2 by exact Hi. cbn.
  change 4294967295 with (Z.ones 32). apply Z.ones_spec_low. lia.
Qed.

End Bitmap.

(** ** Creation of a container (C3) *)

Lemma rpc_open_spec name create w res d w' :
  tee_fs_rpc_open name create w = (res, d, w') ->
  rpc_log w' = rpc_log w ++ [RpcOpen name create res]
  /\ (res = TEE_SUCCESS -> exists n, d = Some n)
  /\ (res <> TEE_SUCCESS -> d = None).
Proof.
  unfold tee_fs_rpc_open. destruct (next_fault w) as [r w1] eqn:E.
  apply next_fault_spec in E as (_ & Hl & _).
  destruct (failed r) eqn:Hr.
  { intros [= <- <- <-]. cbn. apply failed_true in Hr.
    rewrite Hl. repeat split; try congruence; eauto. }
  destruct create.
  - intros [= <- <- <-]. cbn. rewrite Hl.
    repeat split; try congruence; eauto.
  - destruct (ree_files w1 !! name).
    + intros [= <- <- <-]. cbn. rewrite Hl.
      repeat split; try congruence; eauto.
    + intros [= <- <- <-]. cbn. rewrite Hl.
      repeat split; try congruence; discriminate.
Qed.

(** X23: the trace of a successful create.  The handle's
    [backup_version_table] is all-ones, its length is 0 and its
    [meta_counter] is 0; after the RPC open exactly two writes are issued:
    the encrypted meta at offset [4 + meta_size()], the slot [meta_pos_raw]
    gives for [active = false] at counter 0, and then the counter 0 at
    offset 0. *)
Theorem create_writes_shadow_slot_then_counter
    (KM : KeyManager) (OK : KeyManagerOk KM)
    (file : string) (w w' : world) (fdp : tee_fs_fd) :
  ree_fs_create (Some file) w = (TEE_SUCCESS, Some fdp, w') ->
  backup_version_table (info (meta fdp))
  = replicate (Z.to_nat (NUM_BLOCKS_PER_FILE / 32)) 0xffffffff
  /\ (forall k, 0 <= k < NUM_BLOCKS_PER_FILE ->
        get_backup_version_of_block (meta fdp) k = true)
  /\ length_ (info (meta fdp)) = 0
  /\ meta_counter fdp = 0
  /\ meta_pos_raw (set_meta_counter fdp 0) false = meta_slot_offset 1
  /\ exists ct,
       tee_fs_encrypt_file META_FILE (info_to_bytes (info (meta fdp)))
         (encrypted_fek (meta fdp)) = (TEE_SUCCESS, ct)
       /\ new_events w w'
          = [RpcOpen file true TEE_SUCCESS;
             RpcWrite (fd fdp) (meta_slot_offset 1) ct TEE_SUCCESS;
             RpcWrite (fd fdp) 0 (le32_encode 0) TEE_SUCCESS].
Proof.
  unfold ree_fs_create, open_internal.
  destruct (_ >? TEE_FS_NAME_MAX); [discriminate|].
  destruct (malloc 0 w) as [p w0] eqn:Em.
  apply malloc_spec in Em as (_ & Hl0 & _).
  destruct p; cbn [negb]; [|discriminate].
  destruct (create_meta _ file w0) as [[res fdp1] w1] eqn:Ec.
  destruct (res =? TEE_SUCCESS) eqn:Hres; [|discriminate].
  apply Z.eqb_eq in Hres. subst res. intros [= -> ->].
  unfold create_meta in Ec.
  destruct (tee_fs_generate_fek (session_uuid w0)) as [r fek] eqn:Eg.
  destruct (failed r) eqn:Hr.
  { injection Ec as -> _ _. discriminate. }
  destruct (tee_fs_rpc_open file true w0) as [[r1 d] w2] eqn:Eo.
  apply rpc_open_spec in Eo as (Hl1 & Hd & _).
  destruct (failed r1) eqn:Hr1.
  { injection Ec as -> _ _. discriminate. }
  apply failed_false in Hr1. subst r1. destruct (Hd eq_refl) as [n ->].
  cbv beta iota in Ec.
  match type of Ec with
  | context [write_meta_file ?h _ w2] => remember h as h0 eqn:Hh0
  end.
  destruct (write_meta_file h0 (meta h0) w2) as [r2 w3] eqn:Ew.
  destruct (failed r2) eqn:Hr2.
  { injection Ec as -> _ _. discriminate. }
  apply failed_false in Hr2. subst r2.
  destruct (write_meta_counter h0 w3) as [r3 w4] eqn:Ewc.
  injection Ec as -> <- ->.
  assert (Ht : backup_version_table (info (meta h0))
               = replicate (Z.to_nat (NUM_BLOCKS_PER_FILE / 32)) 0xffffffff).
  { rewrite Hh0. cbn. rewrite length_replicate. reflexivity. }
  assert (Hlen : length_ (info (meta h0)) = 0) by (rewrite Hh0; reflexivity).
  assert (Hc : meta_counter h0 = 0) by (rewrite Hh0; reflexivity).
  assert (Hshadow : meta_pos_raw h0 false = meta_slot_offset 1).
  { rewrite meta_pos_raw_shadow, Hc. reflexivity. }
  clear Hh0.
  split; [exact Ht|]. split.
  { intros k Hk. apply all_ones_bit; [exact Ht|exact Hk]. }
  split; [exact Hlen|]. split; [exact Hc|]. split.
  { rewrite meta_pos_raw_shadow. reflexivity. }
  unfold write_meta_file in Ew. rewrite Hshadow in Ew.
  apply encrypt_and_write_file_spec in Ew as (_ & _ & _ & _ & Hok).
  destruct (Hok eq_refl) as (_ & ct & _ & _ & Henc & _ & _ & Hl3).
  apply write_meta_counter_spec in Ewc as (_ & _ & _ & Hl4 & _).
  exists ct. split; [exact Henc|].
  apply new_events_app. rewrite Hl4, Hl3, Hl1, Hl0, Hc, <- !app_assoc.
  reflexivity.
Qed.

Lemma create_writes_shadow_slot_then_counter_witness :
  @ree_fs_create RefKM.km (Some "/obj/a"%string) RefKM.empty_world
  = (TEE_SUCCESS, Some RefKM.created_handle, RefKM.created_world)
  /\ meta_counter RefKM.created_handle = 0
  /\ length_ (info (meta RefKM.created_handle)) = 0.
Proof.
  assert (H : @ree_fs_create RefKM.km (Some "/obj/a"%string) RefKM.empty_world
              = (TEE_SUCCESS, Some RefKM.created_handle, RefKM.created_world))
    by (vm_compute; reflexivity).
  split; [exact H|].
  pose proof (create_writes_shadow_slot_then_counter RefKM.km RefKM_contract
                "/obj/a"%string RefKM.empty_world RefKM.created_world
                RefKM.created_handle H) as (_ & _ & Hlen & Hc & _).
  split; [exact Hc|exact Hlen].
Defined.

(** C3, at the failing input: creating [/obj/a] in an empty environment
    succeeds with an all-ones table, length 0 and [meta_counter] 0, and
    writes the meta at offset 25, which is slot 1, and then the counter 0.
    Slot 0 at offset 4 -- the slot the counter 0 selects when the container
    is opened -- is left as a hole of zero bytes, and opening the container
    after the handle was closed fails with [TEE_ERROR_CORRUPT_OBJECT]. *)
Lemma create_leaves_live_meta_slot_empty :
  let h := RefKM.created_handle in
  (RefKM.created.1.1 = TEE_SUCCESS
   /\ backup_version_table (info (meta h)) = [0xffffffff]
   /\ length_ (info (meta h)) = 0 /\ meta_counter h = 0)
  /\ (exists ct,
        rpc_log RefKM.created_world
        = [RpcOpen "/obj/a" true TEE_SUCCESS;
           RpcWrite (fd h) (@meta_slot_offset RefKM.km 1) ct TEE_SUCCESS;
           RpcWrite (fd h) 0 (le32_encode 0) TEE_SUCCESS])
  /\ (@meta_slot_offset RefKM.km 0 = 4 /\ @meta_slot_offset RefKM.km 1 = 25
      /\ @meta_pos_raw RefKM.km h true = @meta_slot_offset RefKM.km 0)
  /\ (disk_counter RefKM.created_world (fd h) = Some 0
      /\ pread RefKM.created_file (@meta_slot_offset RefKM.km 0)
           (@meta_size RefKM.km) = zeros (@meta_size RefKM.km))
  /\ (@ree_fs_open RefKM.km (Some "/obj/a"%string) RefKM.closed_world).1
     = (TEE_ERROR_CORRUPT_OBJECT, None).
Proof.
  cbv zeta. split; [vm_compute; repeat split|].
  split; [eexists; vm_compute; reflexivity|].
  split; [vm_compute; repeat split|].
  split; [vm_compute; repeat split|]. vm_compute. reflexivity.
Qed.

(** ** Block offsets and the block engine *)

Section Blocks.
Context {KM : KeyManager} {LO : KeyManagerLayout KM}.

Lemma block_pos_raw_eq m k active :
  0 <= k < NUM_BLOCKS_PER_FILE ->
  block_pos_raw m k active
  = 4 + 2 * meta_size + (2 * k + slot_bit m k active) * block_size_raw.
Proof.
  intros Hk. unfold block_pos_raw, slot_bit. cbv zeta.
  pose proof container_fits. pose proof meta_size_ge.
  pose proof block_size_raw_ge. rewrite BLOCK_SIZE_eq in *.
  rewrite (u32_id (k * 2)) by nia.
  destruct (Bool.eqb _ _).
  - rewrite (u32_id (k * 2 + 1)) by nia. rewrite u32_id by nia. lia.
  - rewrite u32_id by nia. lia.
Qed.

Lemma block_pos_raw_range m k active :
  0 <= k < NUM_BLOCKS_PER_FILE ->
  4 + 2 * meta_size <= block_pos_raw m k active
  /\ block_pos_raw m k active + block_size_raw
     <= 4 + 2 * meta_size + 2 * NUM_BLOCKS_PER_FILE * block_size_raw.
Proof.
  intros Hk. rewrite block_pos_raw_eq by exact Hk. unfold slot_bit.
  pose proof block_size_raw_ge. rewrite BLOCK_SIZE_eq in *.
  destruct (Bool.eqb _ _); nia.
Qed.

Lemma read_block_spec fdp bnum data w res data' w' :
  read_block fdp bnum data w = (res, data', w') ->
  same_store w w'
  /\ (rpc_log w' = rpc_log w
      \/ exists r,
           rpc_log w'
           = rpc_log w
             ++ [RpcRead (fd fdp)
                   (s32 (block_pos_raw (meta fdp) (u32 bnum) true))
                   block_size_raw r]).
Proof.
  unfold read_block. cbv zeta.
  destruct (malloc block_size_raw w) as [p w1] eqn:Em.
  apply malloc_spec in Em as (Hs & Hl & _).
  destruct p; cbn [negb].
  2:{ intros [= <- <- <-]. split; [exact Hs|left; exact Hl]. }
  destruct (tee_fs_rpc_read _ _ _ w1) as [[r ct] w2] eqn:Er.
  apply rpc_read_spec in Er as (Hs2 & Hl2 & _).
  assert (same_store w w2) by (eapply same_store_trans; eassumption).
  assert (rpc_log w2
          = rpc_log w
            ++ [RpcRead (fd fdp)
                  (s32 (block_pos_raw (meta fdp) (u32 bnum) true))
                  block_size_raw r]) by (rewrite Hl2, Hl; reflexivity).
  destruct (failed r); [intros [= <- <- <-]; eauto|].
  destruct (length ct =? 0)%nat; [intros [= <- <- <-]; eauto|].
  destruct (tee_fs_decrypt_file _ _ _ _) as [[r' pt] fk].
  intros [= <- <- <-]; eauto.
Qed.

Lemma write_block_spec fdp bnum data new_meta w res new_meta' w' :
  write_block fdp bnum data new_meta w = (res, new_meta', w') ->
  let offs := block_pos_raw new_meta bnum false in
  ree_fds w' = ree_fds w /\ ree_next_fd w' = ree_next_fd w
  /\ session_uuid w' = session_uuid w
  /\ (res <> TEE_SUCCESS ->
      new_meta' = new_meta /\ ree_files w' = ree_files w
      /\ (rpc_log w' = rpc_log w
          \/ exists ct,
               rpc_log w' = rpc_log w ++ [RpcWrite (fd fdp) offs ct res]))
  /\ (res = TEE_SUCCESS ->
      new_meta' = toggle_backup_version_of_block new_meta bnum
      /\ exists ct name f,
           tee_fs_encrypt_file BLOCK_FILE data (encrypted_fek new_meta)
           = (TEE_SUCCESS, ct)
           /\ file_of w (fd fdp) = Some (name, f)
           /\ ree_files w' = <[name := pwrite f offs ct]> (ree_files w)
           /\ rpc_log w'
              = rpc_log w ++ [RpcWrite (fd fdp) offs ct TEE_SUCCESS]).
Proof.
  unfold write_block. cbv zeta.
  destruct (encrypt_and_write_file _ _ _ _ _ _ w) as [r w1] eqn:E.
  apply encrypt_and_write_file_spec in E as (a & b & c & Hfail & Hok).
  destruct (r =? TEE_SUCCESS) eqn:Hr.
  - apply Z.eqb_eq in Hr. subst r. intros [= <- <- <-].
    split; [exact a|]. split; [exact b|]. split; [exact c|]. split.
    + intros Hne. congruence.
    + intros _. split; [reflexivity|]. destruct (Hok eq_refl) as (_ & H).
      exact H.
  - apply Z.eqb_neq in Hr. intros [= <- <- <-].
    split; [exact a|]. split; [exact b|]. split; [exact c|]. split.
    + intros _. split; [reflexivity|]. apply (Hfail Hr).
    + intros He. congruence.
Qed.

Lemma disk_counter_same_store w w' d :
  same_store w w' -> disk_counter w' d = disk_counter w d.
Proof.
  intros H. unfold disk_counter. rewrite (same_store_file_of _ _ d H).
  reflexivity.
Qed.

Lemma disk_counter_after_write w w' d name f offs ct c :
  file_of w d = Some (name, f) ->
  ree_fds w' = ree_fds w ->
  ree_files w' = <[name := pwrite f offs ct]> (ree_files w) ->
  4 <= offs ->
  disk_counter w d = Some c -> disk_counter w' d = Some c.
Proof.
  intros Hfile Hfd Hfiles Ho. unfold disk_counter.
  rewrite (file_of_update _ _ _ _ _ _ Hfile Hfd Hfiles), Hfile.
  destruct (4 <=? length f)%nat eqn:E; [|discriminate].
  apply Nat.leb_le in E.
  destruct (pwrite_keeps_counter f offs ct Ho E) as [Ht Hl].
  apply Nat.leb_le in Hl. rewrite Hl, Ht. trivial.
Qed.

End Blocks.

(** C8: when the RPC read of the active slot of block [bnum] succeeds with
    zero bytes, the block read succeeds and yields [BLOCK_SIZE] zero
    bytes. *)
Theorem read_block_empty_slot (KM : KeyManager)
    (fdp : tee_fs_fd) (bnum : Z) (data : list byte) (w w1 w2 : world) :
  malloc block_size_raw w = (true, w1) ->
  tee_fs_rpc_read (fd fdp) block_size_raw
    (s32 (block_pos_raw (meta fdp) (u32 bnum) true)) w1
  = (TEE_SUCCESS, [], w2) ->
  read_block fdp bnum data w = (TEE_SUCCESS, zeros BLOCK_SIZE, w2)
  /\ Z.of_nat (length (zeros BLOCK_SIZE)) = BLOCK_SIZE
  /\ Forall (fun b => b = x00) (zeros BLOCK_SIZE).
Proof.
  intros Hm Hr. split; [|split].
  - unfold read_block. cbv zeta. rewrite Hm. cbn [negb]. rewrite Hr.
    reflexivity.
  - rewrite length_zeros. reflexivity.
  - unfold zeros. apply Forall_replicate. reflexivity.
Qed.

Lemma read_block_empty_slot_witness :
  let w := RefKM.created_world in
  let w2 :=
    log_event (RpcRead 3 307 261 TEE_SUCCESS) RefKM.created_world in
  @read_block RefKM.km RefKM.created_handle 0 [] w
  = (TEE_SUCCESS, zeros BLOCK_SIZE, w2).
Proof.
  refine (proj1 (read_block_empty_slot RefKM.km RefKM.created_handle 0 []
                   RefKM.created_world RefKM.created_world _ _ _));
    vm_compute; reflexivity.
Defined.

(** ** The range writer in an arbitrary environment *)

Section RangeWrite.
Context {KM : KeyManager} {LO : KeyManagerLayout KM}.

Lemma quiet_app (a b : list rpc_event) : quiet a -> quiet b -> quiet (a ++ b).
Proof. unfold quiet. intros Ha Hb. rewrite forallb_app, Ha, Hb. reflexivity. Qed.

Lemma read_block_quiet fdp bnum data w res data' w' :
  read_block fdp bnum data w = (res, data', w') ->
  same_store w w'
  /\ exists evs, rpc_log w' = rpc_log w ++ evs /\ quiet evs.
Proof.
  intros H. apply read_block_spec in H as (Hs & [Hl | [r Hl]]).
  - split; [exact Hs|]. exists []. rewrite app_nil_r. split; [exact Hl|reflexivity].
  - split; [exact Hs|]. eexists. split; [exact Hl|reflexivity].
Qed.

Lemma write_block_quiet fdp k data nm w res nm' w' :
  0 <= k < NUM_BLOCKS_PER_FILE ->
  write_block fdp k data nm w = (res, nm', w') ->
  ree_fds w' = ree_fds w
  /\ (forall c, disk_counter w (fd fdp) = Some c ->
                disk_counter w' (fd fdp) = Some c)
  /\ exists evs, rpc_log w' = rpc_log w ++ evs /\ quiet evs.
Proof.
  intros Hk H. apply write_block_spec in H. cbv zeta in H.
  destruct H as (Hfd & _ & _ & Hfail & Hok).
  pose proof (block_pos_raw_range nm k false Hk) as [Hlo _].
  pose proof meta_size_ge as Hms.
  assert (Hq : forall ct r,
             quiet [RpcWrite (fd fdp) (block_pos_raw nm k false) ct r]).
  { intros ct r. unfold quiet. cbn.
    match goal with
    | |- context [?x =? 0] => destruct (Z.eqb_spec x 0); [lia|reflexivity]
    end. }
  split; [exact Hfd|].
  destruct (Z.eq_dec res TEE_SUCCESS) as [Hr | Hr].
  - destruct (Hok Hr) as (_ & ct & name & f & _ & Hfile & Hfiles & Hl).
    split.
    + intros c. eapply disk_counter_after_write; try eassumption. lia.
    + eexists. split; [exact Hl|apply Hq].
  - destruct (Hfail Hr) as (_ & Hfiles & Hl). split.
    + intros c. unfold disk_counter.
      rewrite (file_of_same w w') by assumption. trivial.
    + destruct Hl as [Hl | [ct Hl]].
      * exists []. rewrite app_nil_r. split; [exact Hl|reflexivity].
      * eexists. split; [exact Hl|apply Hq].
Qed.

Lemma out_of_place_write_loop_spec n :
  forall buf res fdp start remain dptr block nm w completed res' fdp' nm' w',
    0 <= start -> start + Z.of_nat n <= NUM_BLOCKS_PER_FILE ->
    0 <= pos fdp -> 0 <= remain < 2 ^ 32 ->
    out_of_place_write_loop n buf res fdp start remain dptr block nm w
    = (completed, res', fdp', nm', w') ->
    meta fdp' = meta fdp /\ meta_counter fdp' = meta_counter fdp
    /\ fd fdp' = fd fdp
    /\ ree_fds w' = ree_fds w
    /\ (forall c, disk_counter w (fd fdp) = Some c ->
                  disk_counter w' (fd fdp) = Some c)
    /\ (exists evs, rpc_log w' = rpc_log w ++ evs /\ quiet evs)
    /\ (completed = false -> res' <> TEE_SUCCESS)
    /\ pos fdp <= pos fdp' <= pos fdp + remain
    /\ length_ (info nm') = length_ (info nm)
    /\ length (backup_version_table (info nm'))
       = length (backup_version_table (info nm))
    /\ encrypted_fek nm' = encrypted_fek nm.
Proof.
  induction n as [|n IH];
    intros buf res fdp start remain dptr block nm w completed res' fdp' nm' w'
      Hs Hn Hp Hrem Hloop.
  - cbn in Hloop. injection Hloop as <- <- <- <- <-.
    repeat split; try discriminate; try tauto; try lia.
    exists []. rewrite app_nil_r. split; reflexivity.
  - cbn [out_of_place_write_loop] in Hloop. cbv zeta in Hloop.
    destruct (read_block fdp start block w) as [[r1 b1] w1] eqn:Er.
    apply read_block_quiet in Er as (Hst & evs1 & Hl1 & Hq1).
    destruct (negb (r1 =? TEE_ERROR_ITEM_NOT_FOUND) && failed r1) eqn:Hexit.
    { injection Hloop as <- <- <- <- <-.
      apply andb_true_iff in Hexit as [_ Hf]. apply failed_true in Hf.
      repeat split; try apply Hst; try (intros _; exact Hf); try lia.
      - intros c. rewrite (disk_counter_same_store w w1) by exact Hst. trivial.
      - exists evs1. split; assumption. }
    assert (Hk : 0 <= start < NUM_BLOCKS_PER_FILE) by lia.
    pose proof container_fits. pose proof meta_size_ge.
    pose proof block_size_raw_ge. rewrite BLOCK_SIZE_eq in *.
    rewrite (u32_id start) in Hloop by nia.
    match type of Hloop with
    | context [write_block fdp start ?b nm w1] =>
        destruct (write_block fdp start b nm w1) as [[r2 nm2] w2] eqn:Ew
    end.
    pose proof (write_block_spec _ _ _ _ _ _ _ _ Ew) as Hwb. cbv zeta in Hwb.
    assert (Hnm2 : length_ (info nm2) = length_ (info nm)
                   /\ length (backup_version_table (info nm2))
                      = length (backup_version_table (info nm))
                   /\ encrypted_fek nm2 = encrypted_fek nm).
    { destruct Hwb as (_ & _ & _ & Hfail & Hok).
      destruct (Z.eq_dec r2 TEE_SUCCESS) as [Hr | Hr].
      - destruct (Hok Hr) as (-> & _). rewrite toggle_table_length.
        repeat split.
      - destruct (Hfail Hr) as (-> & _). repeat split. }
    clear Hwb. destruct Hnm2 as (Hlen2 & Htab2 & Hfek2).
    apply (write_block_quiet _ _ _ _ _ _ _ _ Hk) in Ew
      as (Hfd2 & Hdc2 & evs2 & Hl2 & Hq2).
    set (offset := s32 (Z.rem (pos fdp) 256)) in *.
    assert (Hoff : 0 <= offset < 256).
    { unfold offset. pose proof (Z.rem_bound_pos (pos fdp) 256).
      rewrite s32_id; lia. }
    match type of Hloop with
    | context [set_pos fdp (pos fdp + ?sz)] => set (size := sz) in *
    end.
    assert (Hsize : 0 <= size <= remain).
    { unfold size. destruct (Z.gtb_spec (u32 (Z.min remain 256 + offset)) 256)
        as [Hgt | Hle].
      - rewrite u32_id in Hgt by lia. rewrite u32_id by lia. lia.
      - lia. }
    assert (Hdc : forall c, disk_counter w (fd fdp) = Some c ->
                            disk_counter w2 (fd fdp) = Some c).
    { intros c Hc. apply Hdc2.
      rewrite (disk_counter_same_store w w1) by exact Hst. exact Hc. }
    assert (Hlog : rpc_log w2 = rpc_log w ++ (evs1 ++ evs2)).
    { rewrite Hl2, Hl1, app_assoc. reflexivity. }
    destruct (failed r2) eqn:Hf2.
    { injection Hloop as <- <- <- <- <-. apply failed_true in Hf2.
      repeat split; try (intros _; exact Hf2); try exact Hdc; try lia;
        try assumption.
      - rewrite Hfd2. apply Hst.
      - eexists. split; [exact Hlog|]. apply quiet_app; assumption. }
    apply IH in Hloop; [|lia|lia|cbn; lia|rewrite u32_id; lia].
    rewrite (u32_id (remain - size)) in Hloop by lia.
    destruct Hloop as (Hm & Hc & Hd & Hfds & Hdisk & (evs3 & Hl3 & Hq3)
                       & Hcomp & Hpos3 & Hlen3 & Htab3 & Hfek3).
    cbn [meta meta_counter fd set_pos pos] in *.
    repeat split; try assumption; try lia; try congruence.
    + rewrite Hfds, Hfd2. apply Hst.
    + intros c Hc0. apply Hdisk, Hdc, Hc0.
    + exists ((evs1 ++ evs2) ++ evs3). split.
      * rewrite Hl3, Hlog, <- !app_assoc. reflexivity.
      * apply quiet_app; [apply quiet_app|]; assumption.
Qed.

(** The iterations of a range write visit existing blocks only. *)
Lemma range_blocks p len :
  0 <= p -> 0 < len -> p + len <= MAX_FILE_SIZE ->
  let start := pos_to_block_num (s32 p) in
  let last := pos_to_block_num (s32 (p + len - 1)) in
  start = p / 256 /\ last = (p + len - 1) / 256
  /\ 0 <= start <= last /\ last < NUM_BLOCKS_PER_FILE.
Proof.
  intros Hp Hlen Hmax. cbv zeta. pose proof MAX_FILE_SIZE_bound as Hb.
  unfold pos_to_block_num, BLOCK_SHIFT.
  rewrite !s32_id by lia. rewrite !Z.shiftr_div_pow2 by lia.
  change (2 ^ 8) with 256.
  unfold MAX_FILE_SIZE in *. rewrite BLOCK_SIZE_eq in *.
  pose proof (Z.div_pos p 256).
  assert (p / 256 <= (p + len - 1) / 256) by (apply Z.div_le_mono; lia).
  assert ((p + len - 1) / 256 < NUM_BLOCKS_PER_FILE)
    by (apply Z.div_lt_upper_bound; lia).
  lia.
Qed.

Lemma out_of_place_write_spec fdp buf len nm w res fdp' nm' w' :
  0 <= pos fdp -> 0 < len -> pos fdp + len <= MAX_FILE_SIZE ->
  out_of_place_write fdp buf len nm w = (res, fdp', nm', w') ->
  meta fdp' = meta fdp /\ meta_counter fdp' = meta_counter fdp
  /\ fd fdp' = fd fdp
  /\ ree_fds w' = ree_fds w
  /\ (forall c, disk_counter w (fd fdp) = Some c ->
                disk_counter w' (fd fdp) = Some c)
  /\ (exists evs, rpc_log w' = rpc_log w ++ evs /\ quiet evs)
  /\ (res <> TEE_SUCCESS -> pos fdp' = pos fdp)
  /\ pos fdp <= pos fdp' <= pos fdp + len
  /\ (length_ (info nm') = length_ (info nm)
      \/ length_ (info nm) < length_ (info nm') <= pos fdp + len)
  /\ length (backup_version_table (info nm'))
     = length (backup_version_table (info nm))
  /\ encrypted_fek nm' = encrypted_fek nm.
Proof.
  intros Hp Hlen Hmax. unfold out_of_place_write. cbv zeta.
  destruct (range_blocks (pos fdp) len Hp Hlen Hmax) as (Hs & Hl & Hr & Hlt).
  cbv zeta in *. pose proof MAX_FILE_SIZE_bound.
  destruct (out_of_place_write_loop _ _ _ _ _ _ _ _ _ _)
    as [[[[completed r] fdp1] nm1] w1] eqn:Eloop.
  apply out_of_place_write_loop_spec in Eloop; [|lia|lia|lia|lia].
  destruct Eloop as (Hm & Hc & Hd & Hfds & Hdisk & Hev & _
                     & Hpos1 & Hlen1 & Htab1 & Hfek1).
  intros [= <- <- <- <-].
  assert (Hnm : (length_ (info (if completed && (pos fdp1 >? length_ (info nm1))
                                then set_length nm1 (u32 (pos fdp1)) else nm1))
                 = length_ (info nm)
                 \/ length_ (info nm)
                    < length_ (info (if completed
                                        && (pos fdp1 >? length_ (info nm1))
                                     then set_length nm1 (u32 (pos fdp1))
                                     else nm1))
                    <= pos fdp + len)
                /\ length (backup_version_table
                             (info (if completed
                                       && (pos fdp1 >? length_ (info nm1))
                                    then set_length nm1 (u32 (pos fdp1))
                                    else nm1)))
                   = length (backup_version_table (info nm))
                /\ encrypted_fek (if completed
                                     && (pos fdp1 >? length_ (info nm1))
                                  then set_length nm1 (u32 (pos fdp1))
                                  else nm1)
                   = encrypted_fek nm).
  { destruct completed; cbn [andb]; [|auto].
    destruct (Z.gtb_spec (pos fdp1) (length_ (info nm1))); [|auto].
    cbn. rewrite u32_id by lia. split; [right; lia|auto]. }
  destruct Hnm as (Hlen' & Htab' & Hfek').
  destruct (failed r) eqn:Hf; cbn [meta meta_counter fd set_pos pos];
    repeat split; try assumption; try lia.
  - intros _. apply s32_id. lia.
  - rewrite s32_id; lia.
  - rewrite s32_id; lia.
  - intros Hne. apply failed_false in Hf. contradiction.
Qed.

End RangeWrite.

(** ** Failure of a range write (C9) *)

Lemma new_events_quiet w w' evs :
  rpc_log w' = rpc_log w ++ evs -> quiet evs -> quiet (new_events w w').
Proof. intros Hl Hq. rewrite (new_events_app _ _ _ Hl). exact Hq. Qed.

(** C9: if a range write within the file bounds fails at some block -- in
    the block read, in the encryption of the block or in its RPC write,
    whatever the key manager and the environment do -- the handle's cursor
    is back at its value at entry and the handle's meta and counter are
    unchanged; the on-disk counter is untouched and no write at offset 0
    was issued; the callers return the error without committing the
    candidate meta: [ree_fs_write] returns the handle as the range write
    left it, and the extending truncate returns it with the caller's cursor
    put back.  Only the layout constants of the key manager are assumed:
    its functions may fail at will. *)
Theorem range_write_failure_restores_cursor
    (KM : KeyManager) (LO : KeyManagerLayout KM)
    (fdp : tee_fs_fd) (buf : option (list byte)) (len : Z)
    (new_meta : tee_fs_file_meta) (w : world)
    (res : TEE_Result) (fdp' : tee_fs_fd) (new_meta' : tee_fs_file_meta)
    (w' : world) :
  0 <= pos fdp -> 0 < len -> pos fdp + len <= MAX_FILE_SIZE ->
  out_of_place_write fdp buf len new_meta w = (res, fdp', new_meta', w') ->
  res <> TEE_SUCCESS ->
  (pos fdp' = pos fdp /\ meta fdp' = meta fdp
   /\ meta_counter fdp' = meta_counter fdp)
  /\ (forall c, disk_counter w (fd fdp) = Some c ->
                disk_counter w' (fd fdp) = Some c)
  /\ quiet (new_events w w')
  /\ (new_meta = meta fdp ->
      pos fdp <= length_ (info (meta fdp)) ->
      ree_fs_write fdp buf len w = (res, fdp', w'))
  /\ (forall h,
        buf = None ->
        fdp = set_pos h (length_ (info (meta h))) ->
        new_meta = set_length (meta h) (pos fdp + len) ->
        ree_fs_ftruncate_internal h (pos fdp + len) w
        = (res, set_pos fdp' (s32 (pos h)), w')).
Proof.
  intros Hp Hlen Hmax Hoow Hres.
  pose proof (out_of_place_write_spec _ _ _ _ _ _ _ _ _ Hp Hlen Hmax Hoow)
    as (Hm & Hc & Hd & Hfds & Hdisk & (evs & Hl & Hq) & Hpos & _).
  pose proof MAX_FILE_SIZE_bound as Hb.
  assert (Hf : failed res = true) by (apply failed_true; exact Hres).
  split; [auto|]. split; [exact Hdisk|].
  split; [eapply new_events_quiet; eassumption|]. split.
  - intros -> Hle. unfold ree_fs_write.
    destruct (Z.eqb_spec len 0) as [|_]; [lia|].
    destruct (Z.gtb_spec (pos fdp + len) MAX_FILE_SIZE); [lia|].
    destruct (Z.ltb_spec (pos fdp + len) len); [lia|]. cbn [orb].
    rewrite (u32_id (pos fdp)) by lia.
    destruct (Z.ltb_spec (length_ (info (meta fdp))) (pos fdp)); [lia|].
    cbn [failed negb Z.eqb TEE_SUCCESS]. rewrite Hoow, Hf. reflexivity.
  - intros h -> -> ->. cbn [pos set_pos] in *.
    unfold ree_fs_ftruncate_internal.
    destruct (Z.gtb_spec (length_ (info (meta h)) + len) MAX_FILE_SIZE);
      [lia|].
    rewrite (u32_id (length_ (info (meta h)) + len)) by lia.
    destruct (Z.gtb_spec (length_ (info (meta h)) + len)
                (length_ (info (meta h)))); [|lia].
    replace (length_ (info (meta h)) + len - length_ (info (meta h)))
      with len by lia.
    rewrite (u32_id len) by lia. rewrite Hoow, Hf. reflexivity.
Qed.

(** The key manager refuses to encrypt the second block of a write of 257
    bytes: the first block was written and the cursor had moved to 256; the
    write fails and the cursor is back at 0. *)
Lemma range_write_failure_restores_cursor_witness :
  let fdp := RefKM.created_handle in
  (exists ct,
     rpc_log RefKM.refused_write.2 !! 4%nat
     = Some (RpcWrite 3 46 ct TEE_SUCCESS))
  /\ RefKM.refused_write.1.1.1 = TEE_ERROR_GENERIC
  /\ pos RefKM.refused_write.1.1.2 = pos fdp
  /\ meta RefKM.refused_write.1.1.2 = meta fdp
  /\ @disk_counter RefKM.refused_write.2 (fd fdp) = Some 0.
Proof.
  cbv zeta.
  assert (E : @out_of_place_write RefKM.picky_km RefKM.created_handle
                (Some RefKM.refused_data) 257 (meta RefKM.created_handle)
                RefKM.created_world
              = (RefKM.refused_write.1.1.1, RefKM.refused_write.1.1.2,
                 RefKM.refused_write.1.2, RefKM.refused_write.2))
    by (vm_compute; reflexivity).
  assert (Hres : RefKM.refused_write.1.1.1 = TEE_ERROR_GENERIC)
    by (vm_compute; reflexivity).
  assert (Hlog : exists ct,
             rpc_log RefKM.refused_write.2 !! 4%nat
             = Some (RpcWrite 3 46 ct TEE_SUCCESS))
    by (eexists; vm_compute; reflexivity).
  assert (Hp : 0 <= pos RefKM.created_handle) by (vm_compute; discriminate).
  assert (Hmax : pos RefKM.created_handle + 257
                 <= @MAX_FILE_SIZE RefKM.picky_km)
    by (vm_compute; discriminate).
  assert (Hdisk : @disk_counter RefKM.created_world
                    (fd RefKM.created_handle) = Some 0)
    by (vm_compute; reflexivity).
  revert E Hres Hlog.
  generalize RefKM.refused_write.1.1.1, RefKM.refused_write.1.1.2,
    RefKM.refused_write.1.2, RefKM.refused_write.2.
  intros res fdp' nm' w' E Hres Hlog.
  revert Hp Hmax Hdisk E.
  generalize RefKM.created_world, RefKM.created_handle.
  intros w fdp Hp Hmax Hdisk E.
  destruct (range_write_failure_restores_cursor RefKM.picky_km
              RefKM_picky_layout fdp (Some RefKM.refused_data) 257
              (meta fdp) w res fdp' nm' w' Hp ltac:(lia) Hmax E)
    as ((Hpos & Hmeta & _) & Hd & _).
  { rewrite Hres. discriminate. }
  split; [exact Hlog|]. split; [exact Hres|]. split; [exact Hpos|].
  split; [exact Hmeta|]. apply Hd. exact Hdisk.
Defined.

(** ** The counter across successful operations (C6) *)

Section Counter.
Context {KM : KeyManager} {OK : KeyManagerOk KM}.

(** Closes a goal whose premise equates an error result with a success. *)
Ltac wrong_result :=
  let H := fresh in
  intros H; apply (f_equal (fun x => x.1.1)) in H; cbn [fst snd] in H;
  first [ discriminate H
        | vm_compute in H; discriminate H ].

Lemma commit_meta_file_success fdp nm w fdp' w' :
  commit_meta_file fdp nm w = (TEE_SUCCESS, fdp', w') ->
  fdp' = set_meta_counter
           (set_meta fdp (set_counter nm (u32 (meta_counter fdp + 1))))
           (u32 (meta_counter fdp + 1))
  /\ disk_counter w' (fd fdp) = Some (u32 (meta_counter fdp + 1)).
Proof.
  rewrite commit_meta_file_eq. cbv zeta.
  destruct (write_meta_file _ _ w) as [r1 w1] eqn:E1.
  destruct (failed r1) eqn:Hf1.
  { intros [= -> _ _]. discriminate. }
  destruct (write_meta_counter _ w1) as [r2 w2] eqn:E2.
  intros [= -> <- <-]. split; [reflexivity|].
  apply write_meta_counter_spec in E2 as (Hfd & _ & _ & _ & _ & Hok).
  destruct (Hok eq_refl) as (name & f & Hfile & Hfiles).
  cbn [fd meta_counter set_meta_counter set_meta] in *.
  unfold disk_counter.
  rewrite (file_of_update _ _ _ _ _ _ Hfile Hfd Hfiles).
  rewrite length_pwrite by lia.
  replace (4 <=? _)%nat with true by (symmetry; apply Nat.leb_le; cbn; lia).
  change (take 4 (pwrite f 0 (le32_encode (u32 (meta_counter fdp + 1)))))
    with (pread (pwrite f 0 (le32_encode (u32 (meta_counter fdp + 1)))) 0 4).
  rewrite pread_pwrite_same by reflexivity.
  rewrite le32_decode_encode. unfold u32. rewrite Z.mod_mod by lia.
  reflexivity.
Qed.

Lemma ree_fs_read_loop_frame n :
  forall fdp start remain block out w res out' fdp' w',
    ree_fs_read_loop n fdp start remain block out w = (res, out', fdp', w') ->
    meta fdp' = meta fdp /\ meta_counter fdp' = meta_counter fdp
    /\ fd fdp' = fd fdp /\ same_store w w'
    /\ res <> TEE_ERROR_MAC_INVALID.
Proof.
  induction n as [|n IH]; intros fdp start remain block out w res out' fdp' w'.
  - cbn. intros [= <- <- <- <-]. repeat split. discriminate.
  - cbn [ree_fs_read_loop]. cbv zeta.
    destruct (read_block fdp start block w) as [[r b] w1] eqn:Er.
    apply read_block_spec in Er as (Hs & _).
    destruct (failed r) eqn:Hf.
    + intros [= <- <- <- <-]. repeat split; try apply Hs.
      destruct (Z.eqb_spec r TEE_ERROR_MAC_INVALID); [discriminate|assumption].
    + intros Hloop. apply IH in Hloop as (Hm & Hc & Hd & Hs' & Hr).
      cbn [meta meta_counter fd set_pos] in *.
      split; [assumption|]. split; [assumption|]. split; [assumption|].
      split; [eapply same_store_trans; eassumption|assumption].
Qed.

Lemma ree_fs_read_frame fdp len w res out len' fdp' w' :
  ree_fs_read fdp len w = (res, out, len', fdp', w') ->
  meta fdp' = meta fdp /\ meta_counter fdp' = meta_counter fdp
  /\ fd fdp' = fd fdp /\ same_store w w'
  /\ res <> TEE_ERROR_MAC_INVALID.
Proof.
  unfold ree_fs_read. cbv zeta.
  match goal with |- context [if ?c =? 0 then _ else _] =>
    destruct (c =? 0) end.
  - intros [= <- <- <- <- <-]. repeat split. discriminate.
  - destruct (ree_fs_read_loop _ _ _ _ _ _ _) as [[[r o] f] w1] eqn:E.
    intros [= <- <- <- <- <-]. eapply ree_fs_read_loop_frame. exact E.
Qed.

Lemma commit_meta_file_pos fdp nm w res fdp' w' :
  commit_meta_file fdp nm w = (res, fdp', w') -> pos fdp' = pos fdp.
Proof.
  rewrite commit_meta_file_eq. cbv zeta.
  destruct (write_meta_file _ _ w) as [r1 w1].
  destruct (failed r1); [intros [= _ <- _]; reflexivity|].
  destruct (write_meta_counter _ w1) as [r2 w2].
  intros [= _ <- _]. reflexivity.
Qed.

(** A truncate leaves the cursor alone, up to the [int] it is saved in
    while the file is extended. *)
Lemma ftruncate_cursor fdp new_len w res fdp' w' :
  ree_fs_ftruncate_internal fdp new_len w = (res, fdp', w') ->
  pos fdp' = pos fdp \/ pos fdp' = s32 (pos fdp).
Proof.
  unfold ree_fs_ftruncate_internal.
  destruct (new_len >? MAX_FILE_SIZE); [intros [= _ <- _]; auto|].
  destruct (u32 new_len >? length_ (info (meta fdp))).
  - destruct (out_of_place_write _ _ _ _ w) as [[[r f1] nm1] w1].
    destruct (failed r).
    + intros [= _ <- _]. right. reflexivity.
    + intros H. apply commit_meta_file_pos in H. right. exact H.
  - intros H. apply commit_meta_file_pos in H. left. exact H.
Qed.

Lemma ftruncate_success fdp new_len w fdp' w' :
  handle_ok fdp -> 0 <= new_len < 2 ^ 32 ->
  ree_fs_ftruncate_internal fdp new_len w = (TEE_SUCCESS, fdp', w') ->
  handle_ok fdp' /\ fd fdp' = fd fdp
  /\ length_ (info (meta fdp')) = new_len
  /\ meta_counter fdp' = u32 (meta_counter fdp + 1)
  /\ disk_counter w' (fd fdp) = Some (u32 (meta_counter fdp + 1)).
Proof.
  intros [Hl0 Hl1] Hn. unfold ree_fs_ftruncate_internal.
  pose proof MAX_FILE_SIZE_bound as Hb.
  destruct (Z.gtb_spec new_len MAX_FILE_SIZE) as [|Hmax]; [wrong_result|].
  rewrite (u32_id new_len) by lia.
  destruct (Z.gtb_spec new_len (length_ (info (meta fdp)))) as [Hext | Hshr].
  - rewrite (u32_id (new_len - _)) by lia.
    destruct (out_of_place_write _ _ _ _ w) as [[[r f1] nm1] w1] eqn:Eo.
    apply out_of_place_write_spec in Eo; cbn [pos set_pos]; [|lia|lia|lia].
    cbn [pos set_pos meta meta_counter fd] in Eo.
    destruct Eo as (Hm & Hc & Hd & _ & _ & _ & _ & _ & Hlen & _).
    cbn [length_ info set_length] in Hlen.
    destruct (failed r) eqn:Hfr; [intros [= -> _ _]; discriminate Hfr|].
    intros Hcommit. apply commit_meta_file_success in Hcommit as [-> Hdisk].
    cbn [meta meta_counter fd set_pos set_meta set_meta_counter info
         set_counter] in *.
    unfold handle_ok. cbn. rewrite Hc, Hd in *.
    repeat split; try assumption; try lia.
  - intros Hcommit. apply commit_meta_file_success in Hcommit as [-> Hdisk].
    unfold handle_ok. cbn. repeat split; try assumption; lia.
Qed.


End Counter.

Section CounterSteps.
Context {KM : KeyManager} {OK : KeyManagerOk KM}.

Lemma ree_fs_seek_frame fdp offset whence res fdp' new_offs :
  ree_fs_seek fdp offset whence = (res, fdp', new_offs) ->
  meta fdp' = meta fdp /\ meta_counter fdp' = meta_counter fdp
  /\ fd fdp' = fd fdp.
Proof.
  unfold ree_fs_seek. cbv zeta.
  destruct (if whence =? TEE_DATA_SEEK_SET then _ else _) as [p|];
    [|intros [= _ <- _]; auto].
  destruct (_ >? TEE_DATA_MAX_POSITION); intros [= _ <- _]; auto.
Qed.

Lemma rpc_fsync_spec d w res w' :
  tee_fs_rpc_fsync d w = (res, w') -> same_store w w'.
Proof.
  unfold tee_fs_rpc_fsync. destruct (next_fault w) as [r w1] eqn:E.
  apply next_fault_spec in E as (Hs & _). intros [= _ <-]. exact Hs.
Qed.









End CounterSteps.





(** ** Authentication failures at the engine boundary (C5) *)

(** The read path upgrades: a read never returns [TEE_ERROR_MAC_INVALID]. *)
Lemma ree_fs_read_never_mac_invalid (KM : KeyManager)
    (fdp : tee_fs_fd) (len : Z) (w : world) :
  (ree_fs_read fdp len w).1.1.1.1 <> TEE_ERROR_MAC_INVALID.
Proof.
  destruct (ree_fs_read fdp len w) as [[[[r o] l] f] w1] eqn:E.
  apply ree_fs_read_frame in E as (_ & _ & _ & _ & H). exact H.
Qed.

(** C5, at the failing input: on a container whose block 0 fails
    authentication, a one-byte write at offset 0 and a truncate to 10 bytes
    both return [TEE_ERROR_MAC_INVALID] as the key manager produced it,
    where a read of the same block returns [TEE_ERROR_CORRUPT_OBJECT]. *)
Lemma mac_invalid_crosses_write_and_truncate :
  RefKM.written.1.1 = TEE_SUCCESS
  /\ (@ree_fs_write RefKM.km RefKM.rewound_handle (Some [xff]) 1
        RefKM.tampered_world).1.1 = TEE_ERROR_MAC_INVALID
  /\ (@ree_fs_truncate RefKM.km RefKM.rewound_handle 10
        RefKM.tampered_world).1.1 = TEE_ERROR_MAC_INVALID
  /\ (@ree_fs_read RefKM.km RefKM.rewound_handle 3
        RefKM.tampered_world).1.1.1.1 = TEE_ERROR_CORRUPT_OBJECT.
Proof. vm_compute. repeat split. Qed.

(** ** The cursor across a truncate (C10) *)

(** Where the cursor is representable as an [int], every truncate leaves
    it where it was, whatever the outcome. *)
Lemma truncate_keeps_int_cursor (KM : KeyManager)
    (fdp : tee_fs_fd) (new_len : Z) (w : world)
    (res : TEE_Result) (fdp' : tee_fs_fd) (w' : world) :
  - 2 ^ 31 <= pos fdp < 2 ^ 31 ->
  ree_fs_ftruncate_internal fdp new_len w = (res, fdp', w') ->
  pos fdp' = pos fdp.
Proof.
  intros Hp H. apply ftruncate_cursor in H. rewrite s32_id in H by exact Hp.
  destruct H; assumption.
Qed.

(** C10, at the failing input: after [seek(SET, 2^31 - 1)] and
    [seek(CUR, 1)] the cursor of a fresh handle is [2^31]; a truncate to one
    byte, which extends the empty file, succeeds and leaves the cursor at
    [-2^31]. *)
Lemma truncate_moves_cursor_beyond_int :
  RefKM.far_seek_1.1.1 = TEE_SUCCESS
  /\ RefKM.far_seek_2.1.1 = TEE_SUCCESS
  /\ pos RefKM.far_handle = 2 ^ 31
  /\ RefKM.far_truncated.1.1 = TEE_SUCCESS
  /\ pos RefKM.far_truncated.1.2 = - 2 ^ 31.
Proof. vm_compute. repeat split. Qed.

(** ** Arithmetic of the range loops *)

Lemma rem_block p : 0 <= p -> Z.rem p BLOCK_SIZE = p mod BLOCK_SIZE.
Proof. intros Hp. apply Z.rem_mod_nonneg; [exact Hp|reflexivity]. Qed.

Lemma mod_block_range p : 0 <= p mod BLOCK_SIZE < 256.
Proof. apply Z.mod_pos_bound. reflexivity. Qed.

Lemma write_offset p : 0 <= p -> s32 (Z.rem p BLOCK_SIZE) = p mod BLOCK_SIZE.
Proof.
  intros Hp. rewrite rem_block by exact Hp.
  pose proof (mod_block_range p). apply s32_id. lia.
Qed.

Lemma write_chunk_size p r :
  0 <= p -> 0 < r < 2 ^ 32 ->
  (if u32 (Z.min r BLOCK_SIZE + s32 (Z.rem p BLOCK_SIZE)) >? BLOCK_SIZE
   then u32 (BLOCK_SIZE - s32 (Z.rem p BLOCK_SIZE))
   else Z.min r BLOCK_SIZE) = chunk_size p r.
Proof.
  intros Hp Hr. rewrite write_offset by exact Hp.
  pose proof (mod_block_range p) as Ho.
  unfold chunk_size. rewrite BLOCK_SIZE_eq in *.
  rewrite (u32_id (Z.min r 256 + p mod 256)) by lia.
  destruct (Z.gtb_spec (Z.min r 256 + p mod 256) 256).
  - rewrite u32_id; lia.
  - lia.
Qed.

Lemma read_chunk_size p r :
  0 <= p -> 0 < r < 2 ^ 32 ->
  (if Z.min r BLOCK_SIZE + Z.rem p BLOCK_SIZE >? BLOCK_SIZE
   then u32 (BLOCK_SIZE - Z.rem p BLOCK_SIZE)
   else Z.min r BLOCK_SIZE) = chunk_size p r.
Proof.
  intros Hp Hr. rewrite rem_block by exact Hp.
  pose proof (mod_block_range p) as Ho.
  unfold chunk_size. rewrite BLOCK_SIZE_eq in *.
  destruct (Z.gtb_spec (Z.min r 256 + p mod 256) 256).
  - rewrite u32_id; lia.
  - lia.
Qed.

(** One iteration: the chunk is the part of the range inside the current
    block, and what remains starts at the next block boundary. *)
Lemma chunk_step p r (n : nat) :
  0 <= p -> 0 < r ->
  Z.of_nat (S n) = (p + r - 1) / 256 - p / 256 + 1 ->
  let k := p / 256 in
  let size := chunk_size p r in
  0 < size <= r
  /\ p mod BLOCK_SIZE + size <= 256
  /\ chunk_lo p k = p
  /\ chunk_hi p r k = p + size
  /\ ((r - size = 0 /\ n = O)
      \/ (0 < r - size /\ (p + size) / 256 = k + 1
          /\ (p + size) mod BLOCK_SIZE = 0
          /\ Z.of_nat n
             = (p + size + (r - size) - 1) / 256 - (p + size) / 256 + 1)).
Proof.
  intros Hp Hr Hn. cbv zeta.
  unfold chunk_size, chunk_lo, chunk_hi. rewrite BLOCK_SIZE_eq.
  replace (p + Z.min r (256 - p mod 256) + (r - Z.min r (256 - p mod 256)) - 1)
    with (p + r - 1) by lia.
  destruct (Z.le_gt_cases r (256 - p mod 256)) as [Hle | Hgt].
  - rewrite Z.min_l by lia.
    assert ((p + r - 1) / 256 = p / 256)
      by (Z.to_euclidean_division_equations; lia).
    split; [lia|].
    split; [Z.to_euclidean_division_equations; lia|].
    split; [Z.to_euclidean_division_equations; lia|].
    split; [Z.to_euclidean_division_equations; lia|].
    left. split; lia.
  - rewrite Z.min_r by lia.
    split; [Z.to_euclidean_division_equations; lia|].
    split; [Z.to_euclidean_division_equations; lia|].
    split; [Z.to_euclidean_division_equations; lia|].
    split; [Z.to_euclidean_division_equations; lia|].
    right.
    split; [Z.to_euclidean_division_equations; lia|].
    split; [Z.to_euclidean_division_equations; lia|].
    split; Z.to_euclidean_division_equations; lia.
Qed.

(** In later blocks the bounds of a chunk do not depend on where the loop
    started. *)
Lemma chunk_bounds_next p r j :
  0 <= p -> 0 < r -> p / 256 < j ->
  let size := chunk_size p r in
  0 < r - size ->
  chunk_lo (p + size) j = chunk_lo p j
  /\ chunk_hi (p + size) (r - size) j = chunk_hi p r j.
Proof.
  intros Hp Hr Hj. cbv zeta. unfold chunk_size, chunk_lo, chunk_hi.
  rewrite BLOCK_SIZE_eq. intros Hrem.
  split; Z.to_euclidean_division_equations; lia.
Qed.

(** ** The effective length of a read (C7) *)

Section ReadLength.
Context {KM : KeyManager}.

Lemma length_overlay (a b : list byte) :
  length (overlay a b) = Nat.max (length a) (length b).
Proof. unfold overlay. rewrite length_app, length_drop. lia. Qed.

Lemma read_block_length fdp bnum data w res data' w' :
  read_block fdp bnum data w = (res, data', w') ->
  (256 <= length data)%nat -> (256 <= length data')%nat.
Proof.
  unfold read_block. cbv zeta.
  destruct (malloc block_size_raw w) as [p w1].
  destruct p; cbn [negb]; [|intros [= _ <- _]; trivial].
  destruct (tee_fs_rpc_read _ _ _ w1) as [[r ct] w2].
  destruct (failed r); [intros [= _ <- _]; trivial|].
  destruct (length ct =? 0)%nat.
  { intros [= _ <- _] _. rewrite length_zeros, BLOCK_SIZE_eq. lia. }
  destruct (tee_fs_decrypt_file _ _ _ _) as [[r' pt] fk].
  intros [= _ <- _] H. rewrite length_overlay. lia.
Qed.

Lemma ree_fs_read_loop_count n :
  forall fdp start remain block out w res out' fdp' w',
    0 <= pos fdp ->
    (remain = 0 /\ n = O)
    \/ (0 < remain < 2 ^ 32
        /\ Z.of_nat n = (pos fdp + remain - 1) / 256 - pos fdp / 256 + 1) ->
    (256 <= length block)%nat ->
    ree_fs_read_loop n fdp start remain block out w = (res, out', fdp', w') ->
    res = TEE_SUCCESS ->
    Z.of_nat (length out') = Z.of_nat (length out) + remain
    /\ pos fdp' = pos fdp + remain.
Proof.
  induction n as [|n IH];
    intros fdp start remain block out w res out' fdp' w' Hp Hn Hb Hloop Hres.
  - destruct Hn as [[-> _] | [Hr Hn]].
    + cbn in Hloop. injection Hloop as _ <- <- _. lia.
    + exfalso. assert (pos fdp / 256 <= (pos fdp + remain - 1) / 256)
        by (apply Z.div_le_mono; lia). lia.
  - destruct Hn as [[_ [=]] | [Hr Hn]].
    cbn [ree_fs_read_loop] in Hloop. cbv zeta in Hloop.
    rewrite (read_chunk_size (pos fdp) remain Hp Hr) in Hloop.
    rewrite (rem_block _ Hp) in Hloop.
    destruct (chunk_step (pos fdp) remain n Hp ltac:(lia) Hn)
      as (Hsz & Hfit & _ & _ & Hnext).
    set (size := chunk_size (pos fdp) remain) in *.
    pose proof (mod_block_range (pos fdp)) as Ho.
    destruct (read_block fdp start block w) as [[r b] w1] eqn:Er.
    apply read_block_length in Er; [|exact Hb].
    destruct (failed r) eqn:Hfr.
    { exfalso. injection Hloop as <- _ _ _.
      destruct (r =? TEE_ERROR_MAC_INVALID); [discriminate Hres|].
      rewrite Hres in Hfr. discriminate Hfr. }
    rewrite (u32_id (remain - size)) in Hloop by lia.
    apply IH in Hloop; cbn [pos set_pos]; try assumption; try lia.
    cbn [pos set_pos] in Hloop. destruct Hloop as [Hlen Hpos].
    rewrite Hlen, Hpos, length_app, length_take, length_drop. lia.
Qed.

End ReadLength.

(** C7, counterexample: a truncate that extends the file leaves a cursor
    of [2^31] at [-2^31]; the file is then one byte long, and a read of one
    byte succeeds and leaves 0 in [*len], where the claim gives
    [min(1, length - pos) = 1] -- the cursor is not past the length and the
    sum of cursor and length does not overflow -- and where
    [max(0, length - pos)] is [2^31 + 1]. *)
Lemma read_effective_length_counterexample :
  let h := RefKM.far_truncated.1.2 in
  let r := @ree_fs_read RefKM.km h 1 RefKM.far_truncated.2 in
  RefKM.far_truncated.1.1 = TEE_SUCCESS
  /\ pos h = - 2 ^ 31 /\ length_ (info (meta h)) = 1
  /\ r.1.1.1.1 = TEE_SUCCESS /\ r.1.1.2 = 0
  /\ spec_effective_len (pos h) 1 (length_ (info (meta h))) = 1
  /\ Z.max 0 (length_ (info (meta h)) - pos h) = 2 ^ 31 + 1.
Proof. vm_compute. repeat split. Qed.

(** C7, as amended: the value a read leaves in [*len] is 0 when the cursor
    is negative -- the case in which the test [pos + *len < *len] of the
    source holds, the sum being formed in the 64-bit cursor type -- or past
    the length, and the smaller of the requested length and [length - pos]
    otherwise, whatever the outcome of the block reads; with an effective
    length of 0 no I/O happens at all.  For a cursor that is not negative
    this is the effective length as the specification words it, a read that
    reaches past the length gets [max(0, length - pos)], and a successful
    read copies exactly the effective length. *)
Theorem read_effective_length (KM : KeyManager) (LO : KeyManagerLayout KM)
    (fdp : tee_fs_fd) (len : Z) (w : world)
    (res : TEE_Result) (out : list byte) (len' : Z) (fdp' : tee_fs_fd)
    (w' : world) :
  handle_ok fdp ->
  0 <= len < 2 ^ 32 ->
  ree_fs_read fdp len w = (res, out, len', fdp', w') ->
  let file_len := length_ (info (meta fdp)) in
  let eff := if (pos fdp <? 0) || (pos fdp >? file_len) then 0
             else Z.min len (file_len - pos fdp) in
  len' = eff
  /\ (eff = 0 -> res = TEE_SUCCESS /\ out = [] /\ fdp' = fdp /\ w' = w)
  /\ (0 <= pos fdp -> eff = spec_effective_len (pos fdp) len file_len)
  /\ (0 <= pos fdp -> file_len - pos fdp <= len ->
      eff = Z.max 0 (file_len - pos fdp))
  /\ (res = TEE_SUCCESS -> Z.of_nat (length out) = eff).
Proof.
  intros [Hl0 Hl1] Hlen Hread file_len eff.
  pose proof MAX_FILE_SIZE_bound as Hb.
  assert (Hspec : 0 <= pos fdp ->
                  eff = spec_effective_len (pos fdp) len file_len).
  { intros Hp. unfold eff, spec_effective_len.
    destruct (Z.ltb_spec (pos fdp) 0); [lia|]. cbn [orb].
    destruct (Z.gtb_spec (pos fdp) file_len); [reflexivity|].
    destruct (Z.ltb_spec (2 ^ 63 - 1) (pos fdp + len));
      [unfold file_len in *; lia|reflexivity]. }
  unfold ree_fs_read in Hread. cbv zeta in Hread. fold file_len in Hread.
  assert (Hcode : (if (pos fdp + len <? len) || (pos fdp >? file_len) then 0
                   else if pos fdp + len >? file_len
                        then u32 (file_len - pos fdp) else len) = eff).
  { unfold eff. destruct (Z.ltb_spec (pos fdp + len) len);
      destruct (Z.ltb_spec (pos fdp) 0); try lia; [reflexivity|].
    cbn [orb]. destruct (Z.gtb_spec (pos fdp) file_len); [reflexivity|].
    destruct (Z.gtb_spec (pos fdp + len) file_len).
    - rewrite u32_id by (unfold file_len in *; lia). lia.
    - lia. }
  rewrite !Hcode in Hread.
  assert (Hpast : 0 <= pos fdp -> file_len - pos fdp <= len ->
                  eff = Z.max 0 (file_len - pos fdp)).
  { intros Hp Hle. unfold eff. destruct (Z.ltb_spec (pos fdp) 0); [lia|].
    cbn [orb]. destruct (Z.gtb_spec (pos fdp) file_len); lia. }
  destruct (Z.eqb_spec eff 0) as [Hz | Hnz].
  - injection Hread as <- <- <- <- <-.
    split; [reflexivity|]. split; [intros _; repeat split|].
    split; [exact Hspec|]. split; [exact Hpast|].
    intros _. rewrite Hz. reflexivity.
  - destruct (ree_fs_read_loop _ _ _ _ _ _ _) as [[[r o] f1] w1] eqn:Eloop.
    injection Hread as <- <- <- <- <-.
    split; [reflexivity|]. split; [intros Hz; contradiction|].
    split; [exact Hspec|]. split; [exact Hpast|]. intros Hres.
    assert (Hrange : 0 <= pos fdp /\ 0 < eff /\ pos fdp + eff <= file_len).
    { unfold eff in *. destruct (Z.ltb_spec (pos fdp) 0);
        [contradiction Hnz; reflexivity|]. cbn [orb] in *.
      destruct (Z.gtb_spec (pos fdp) file_len); lia. }
    destruct Hrange as (Hp & Hpos & Hfit). clearbody eff.
    unfold file_len in *.
    eapply (ree_fs_read_loop_count _ fdp _ eff _ [] w) in Eloop;
      [| lia | | rewrite length_uninitialised, BLOCK_SIZE_eq; lia
       | exact Hres ].
    + cbn [length] in Eloop. lia.
    + right. split; [lia|].
      unfold pos_to_block_num, BLOCK_SHIFT.
      rewrite !s32_id by lia. rewrite !Z.shiftr_div_pow2 by lia.
      change (2 ^ 8) with 256.
      assert (pos fdp / 256 <= (pos fdp + eff - 1) / 256)
        by (apply Z.div_le_mono; lia).
      lia.
Qed.

Lemma read_effective_length_witness :
  exists res out fdp' w',
    @ree_fs_read RefKM.km RefKM.rewound_handle 10 RefKM.written.2
    = (res, out, 3, fdp', w').
Proof.
  destruct (@ree_fs_read RefKM.km RefKM.rewound_handle 10 RefKM.written.2)
    as [[[[res out] len'] fdp'] w'] eqn:E.
  assert (Hok : @handle_ok RefKM.km RefKM.rewound_handle)
    by (vm_compute; split; discriminate).
  assert (Hl : 0 <= 10 < 2 ^ 32) by lia.
  pose proof (read_effective_length RefKM.km RefKM_layout
                RefKM.rewound_handle 10 RefKM.written.2
                res out len' fdp' w' Hok Hl E) as (Hlen & _).
  exists res, out, fdp', w'. rewrite Hlen. reflexivity.
Defined.

(** * Further properties of the engine *)

(** ** Seek *)

(** X13: a seek either succeeds or reports [TEE_ERROR_BAD_PARAMETERS]; after
    a success the cursor lies in [[0, TEE_DATA_MAX_POSITION]] and what is
    stored through [new_offs] is the cursor converted to [int32_t], which
    is the cursor itself only when it is below [2^31].  For [SEEK_SET] and
    [SEEK_CUR] a target before the start of the file is moved to 0.  For
    [SEEK_END] the target is computed from the file length in unsigned
    32-bit arithmetic: the seek always succeeds and a target before the
    start of the file wraps around instead of being moved to 0.  An unknown
    [whence] is rejected, a failed seek leaves the handle as it was, and no
    seek touches the meta, the counter or the descriptor. *)
Theorem seek_outcome (fdp : tee_fs_fd) (offset : Z) (whence : TEE_Whence)
    (res : TEE_Result) (fdp' : tee_fs_fd) (new_offs : option Z) :
  ree_fs_seek fdp offset whence = (res, fdp', new_offs) ->
  (res = TEE_SUCCESS \/ res = TEE_ERROR_BAD_PARAMETERS)
  /\ (res = TEE_SUCCESS ->
      0 <= pos fdp' <= TEE_DATA_MAX_POSITION
      /\ new_offs = Some (s32 (pos fdp'))
      /\ (pos fdp' < 2 ^ 31 -> new_offs = Some (pos fdp'))
      /\ (2 ^ 31 <= pos fdp' -> new_offs = Some (pos fdp' - 2 ^ 32)))
  /\ (res <> TEE_SUCCESS -> fdp' = fdp /\ new_offs = None)
  /\ (whence = TEE_DATA_SEEK_SET -> offset <= TEE_DATA_MAX_POSITION ->
      res = TEE_SUCCESS /\ pos fdp' = Z.max 0 offset)
  /\ (whence = TEE_DATA_SEEK_CUR ->
      pos fdp + offset <= TEE_DATA_MAX_POSITION ->
      res = TEE_SUCCESS /\ pos fdp' = Z.max 0 (pos fdp + offset))
  /\ (whence = TEE_DATA_SEEK_END ->
      res = TEE_SUCCESS
      /\ pos fdp' = u32 (length_ (info (meta fdp)) + offset))
  /\ ((whence <> TEE_DATA_SEEK_SET /\ whence <> TEE_DATA_SEEK_CUR
       /\ whence <> TEE_DATA_SEEK_END) ->
      res = TEE_ERROR_BAD_PARAMETERS)
  /\ meta fdp' = meta fdp /\ meta_counter fdp' = meta_counter fdp
  /\ fd fdp' = fd fdp.
Proof.
  unfold ree_fs_seek. cbv zeta.
  assert (Hs32 : forall p, 0 <= p <= TEE_DATA_MAX_POSITION ->
             (p < 2 ^ 31 -> s32 p = p)
             /\ (2 ^ 31 <= p -> s32 p = p - 2 ^ 32)).
  { intros p Hp. unfold TEE_DATA_MAX_POSITION in Hp. split; intros Hlt.
    - apply s32_id. lia.
    - unfold s32. replace (p + 2 ^ 31) with (p - 2 ^ 31 + 1 * 2 ^ 32) by lia.
      rewrite Z.mod_add by lia. rewrite Z.mod_small by lia. lia. }
  assert (Hclamp : forall t res fdp' new_offs,
             (let new_pos := if t <? 0 then 0 else t in
              if new_pos >? TEE_DATA_MAX_POSITION
              then (TEE_ERROR_BAD_PARAMETERS, fdp, None)
              else (TEE_SUCCESS, set_pos fdp new_pos, Some (s32 new_pos)))
             = (res, fdp', new_offs) ->
             (res = TEE_SUCCESS \/ res = TEE_ERROR_BAD_PARAMETERS)
             /\ (res = TEE_SUCCESS ->
                 0 <= pos fdp' <= TEE_DATA_MAX_POSITION
                 /\ new_offs = Some (s32 (pos fdp'))
                 /\ (pos fdp' < 2 ^ 31 -> new_offs = Some (pos fdp'))
                 /\ (2 ^ 31 <= pos fdp' ->
                     new_offs = Some (pos fdp' - 2 ^ 32)))
             /\ (res <> TEE_SUCCESS -> fdp' = fdp /\ new_offs = None)
             /\ (t <= TEE_DATA_MAX_POSITION ->
                 res = TEE_SUCCESS /\ pos fdp' = Z.max 0 t)
             /\ meta fdp' = meta fdp /\ meta_counter fdp' = meta_counter fdp
             /\ fd fdp' = fd fdp).
  { intros t r f' no. cbv zeta.
    destruct (Z.ltb_spec t 0) as [Hneg | Hpos];
      match goal with
      | |- context [?x >? TEE_DATA_MAX_POSITION] =>
          destruct (Z.gtb_spec x TEE_DATA_MAX_POSITION) as [Hbig | Hfit]
      end; intros [= <- <- <-]; cbn [pos set_pos meta meta_counter fd].
    - unfold TEE_DATA_MAX_POSITION in Hbig. lia.
    - split; [left; reflexivity|]. split.
      { intros _. destruct (Hs32 0 ltac:(unfold TEE_DATA_MAX_POSITION; lia))
          as [Hlo Hhi].
        split; [unfold TEE_DATA_MAX_POSITION; lia|].
        split; [reflexivity|]. split; intros H; f_equal; auto. }
      split; [intros Hne; exfalso; apply Hne; reflexivity|].
      split; [intros _; split; [reflexivity|lia]|]. auto.
    - split; [right; reflexivity|]. split; [discriminate|].
      split; [intros _; split; reflexivity|]. split; [lia|]. auto.
    - split; [left; reflexivity|]. split.
      { intros _. destruct (Hs32 t ltac:(lia)) as [Hlo Hhi].
        split; [lia|]. split; [reflexivity|].
        split; intros H; f_equal; auto. }
      split; [intros Hne; exfalso; apply Hne; reflexivity|].
      split; [intros _; split; [reflexivity|lia]|]. auto. }
  assert (Hdiff : TEE_DATA_SEEK_SET <> TEE_DATA_SEEK_CUR
                  /\ TEE_DATA_SEEK_SET <> TEE_DATA_SEEK_END
                  /\ TEE_DATA_SEEK_CUR <> TEE_DATA_SEEK_END)
    by (repeat split; discriminate).
  destruct Hdiff as (Hsc & Hse & Hce).
  destruct (Z.eqb_spec whence TEE_DATA_SEEK_SET) as [-> | Hs].
  { intros H. apply Hclamp in H as (a & b & c & d & e & f & g).
    split; [exact a|]. split; [exact b|]. split; [exact c|].
    split; [intros _; exact d|]. split; [intros Hw; contradiction|].
    split; [intros Hw; contradiction|].
    split; [intros (Hw & _); contradiction|]. auto. }
  destruct (Z.eqb_spec whence TEE_DATA_SEEK_CUR) as [-> | Hc].
  { intros H. apply Hclamp in H as (a & b & c & d & e & f & g).
    split; [exact a|]. split; [exact b|]. split; [exact c|].
    split; [intros Hw; contradiction|]. split; [intros _; exact d|].
    split; [intros Hw; contradiction|].
    split; [intros (_ & Hw & _); contradiction|]. auto. }
  destruct (Z.eqb_spec whence TEE_DATA_SEEK_END) as [-> | He].
  { intros H. apply Hclamp in H as (a & b & c & d & e & f & g).
    pose proof (u32_range (length_ (info (meta fdp)) + offset)) as Hu.
    split; [exact a|]. split; [exact b|]. split; [exact c|].
    split; [intros Hw; symmetry in Hw; contradiction|].
    split; [intros Hw; symmetry in Hw; contradiction|].
    split.
    { intros _. destruct d as [-> ->];
        [unfold TEE_DATA_MAX_POSITION; lia|]. split; [reflexivity|lia]. }
    split; [intros (_ & _ & Hw); contradiction|]. auto. }
  intros [= <- <- <-].
  split; [right; reflexivity|].
  split; [intros Hw; exfalso; vm_compute in Hw; discriminate Hw|].
  split; [intros _; split; reflexivity|].
  split; [intros Hw; contradiction|]. split; [intros Hw; contradiction|].
  split; [intros Hw; contradiction|].
  split; [intros _; reflexivity|]. auto.
Qed.

(** A seek to 5 bytes before the end of the written container, which is 3
    bytes long, succeeds: the cursor is [2^32 - 2] and [-2] is stored
    through [new_offs]. *)
Lemma seek_outcome_witness :
  exists fdp',
    ree_fs_seek RefKM.written.1.2 (-5) TEE_DATA_SEEK_END
    = (TEE_SUCCESS, fdp', Some (-2))
    /\ pos fdp' = 2 ^ 32 - 2.
Proof.
  destruct (ree_fs_seek RefKM.written.1.2 (-5) TEE_DATA_SEEK_END)
    as [[res fdp'] new_offs] eqn:E.
  assert (Hl : length_ (info (meta RefKM.written.1.2)) = 3)
    by (vm_compute; reflexivity).
  revert E Hl. generalize RefKM.written.1.2. intros h E Hl.
  destruct (seek_outcome h (-5) TEE_DATA_SEEK_END res fdp' new_offs E)
    as (_ & Hok & _ & _ & _ & Hend & _).
  destruct (Hend eq_refl) as [-> Hpos].
  destruct (Hok eq_refl) as (_ & _ & _ & Hhi).
  rewrite Hl in Hpos. change (u32 (3 + -5)) with (2 ^ 32 - 2) in Hpos.
  exists fdp'. rewrite Hhi by (rewrite Hpos; lia). rewrite Hpos.
  split; reflexivity.
Defined.

(** ** Argument checks of write and truncate *)

(** X14: a write of zero bytes succeeds without any effect, wherever the cursor
    is; a write that would end past [MAX_FILE_SIZE] or that starts at a
    negative cursor, and a truncate to more than [MAX_FILE_SIZE], fail with
    [TEE_ERROR_BAD_PARAMETERS] and leave the handle and the environment as
    they were: no allocation is made and no RPC is issued. *)
Theorem write_and_truncate_argument_checks (KM : KeyManager)
    (fdp : tee_fs_fd) (buf : option (list byte)) (len : Z) (w : world) :
  (len = 0 -> ree_fs_write fdp buf len w = (TEE_SUCCESS, fdp, w))
  /\ (len <> 0 /\ (MAX_FILE_SIZE < pos fdp + len \/ pos fdp < 0) ->
      ree_fs_write fdp buf len w = (TEE_ERROR_BAD_PARAMETERS, fdp, w))
  /\ (MAX_FILE_SIZE < len ->
      ree_fs_truncate fdp len w = (TEE_ERROR_BAD_PARAMETERS, fdp, w)).
Proof.
  split; [|split].
  - intros ->. reflexivity.
  - intros [Hne Hbad]. unfold ree_fs_write.
    destruct (Z.eqb_spec len 0); [contradiction|].
    destruct (Z.gtb_spec (pos fdp + len) MAX_FILE_SIZE); [reflexivity|].
    destruct (Z.ltb_spec (pos fdp + len) len); [reflexivity|]. lia.
  - intros Hbig. unfold ree_fs_truncate, ree_fs_ftruncate_internal.
    destruct (Z.gtb_spec len MAX_FILE_SIZE); [reflexivity|lia].
Qed.

Lemma write_and_truncate_argument_checks_witness :
  @ree_fs_truncate RefKM.km RefKM.created_handle 8193 RefKM.created_world
  = (TEE_ERROR_BAD_PARAMETERS, RefKM.created_handle, RefKM.created_world).
Proof.
  apply (proj2 (proj2 (write_and_truncate_argument_checks RefKM.km
                         RefKM.created_handle None 8193
                         RefKM.created_world))).
  vm_compute. reflexivity.
Defined.

(** ** Truncate and write, seen from the caller *)

Section TruncateWrite.
Context {KM : KeyManager} {OK : KeyManagerOk KM}.

Lemma commit_meta_file_events fdp nm w res fdp' w' :
  commit_meta_file fdp nm w = (res, fdp', w') ->
  exists evs,
    rpc_log w' = rpc_log w ++ evs /\ Forall (commit_write fdp) evs.
Proof.
  rewrite commit_meta_file_eq. cbv zeta.
  destruct (write_meta_file _ _ w) as [r1 w1] eqn:E1.
  unfold write_meta_file in E1.
  apply encrypt_and_write_file_spec in E1 as (_ & _ & _ & Hfail & Hok).
  assert (Hev1 : exists evs, rpc_log w1 = rpc_log w ++ evs
                             /\ Forall (commit_write fdp) evs).
  { destruct (Z.eq_dec r1 TEE_SUCCESS) as [Hr | Hr].
    - destruct (Hok Hr) as (_ & ct & _ & _ & _ & _ & _ & Hl).
      eexists. split; [exact Hl|].
      constructor; [split; [reflexivity|left; reflexivity]|constructor].
    - destruct (Hfail Hr) as (_ & [Hl | [ct Hl]]).
      + exists []. rewrite app_nil_r. split; [exact Hl|constructor].
      + eexists. split; [exact Hl|].
        constructor; [split; [reflexivity|left; reflexivity]|constructor]. }
  destruct Hev1 as (evs1 & Hl1 & Hf1).
  destruct (failed r1).
  { intros [= _ _ <-]. exists evs1. split; assumption. }
  destruct (write_meta_counter _ w1) as [r2 w2] eqn:E2.
  apply write_meta_counter_spec in E2 as (_ & _ & _ & Hl2 & _).
  intros [= _ _ <-]. eexists. split.
  - rewrite Hl2, Hl1, <- app_assoc. reflexivity.
  - apply Forall_app. split; [exact Hf1|].
    constructor; [split; [reflexivity|right; reflexivity]|constructor].
Qed.

Lemma out_of_place_write_loop_count n :
  forall buf res fdp start remain dptr block nm w res' fdp' nm' w',
    0 <= pos fdp ->
    (remain = 0 /\ n = O)
    \/ (0 < remain < 2 ^ 32
        /\ Z.of_nat n = (pos fdp + remain - 1) / 256 - pos fdp / 256 + 1) ->
    out_of_place_write_loop n buf res fdp start remain dptr block nm w
    = (true, res', fdp', nm', w') ->
    pos fdp' = pos fdp + remain.
Proof.
  induction n as [|n IH];
    intros buf res fdp start remain dptr block nm w res' fdp' nm' w'
      Hp Hn Hloop.
  - destruct Hn as [[-> _] | [Hr Hn]].
    + cbn in Hloop. injection Hloop as _ <- _ _. lia.
    + exfalso. assert (pos fdp / 256 <= (pos fdp + remain - 1) / 256)
        by (apply Z.div_le_mono; lia). lia.
  - destruct Hn as [[_ [=]] | [Hr Hn]].
    cbn [out_of_place_write_loop] in Hloop. cbv zeta in Hloop.
    rewrite (write_chunk_size (pos fdp) remain Hp Hr) in Hloop.
    destruct (chunk_step (pos fdp) remain n Hp ltac:(lia) Hn)
      as (Hsz & Hfit & _ & _ & Hnext).
    set (size := chunk_size (pos fdp) remain) in *.
    destruct (read_block fdp start block w) as [[r b] w1].
    destruct (negb (r =? TEE_ERROR_ITEM_NOT_FOUND) && failed r);
      [discriminate Hloop|].
    destruct (write_block _ _ _ _ _) as [[r2 nm2] w2].
    destruct (failed r2); [discriminate Hloop|].
    rewrite (u32_id (remain - size)) in Hloop by lia.
    apply IH in Hloop; cbn [pos set_pos]; try lia.
    cbn [pos set_pos] in Hloop. lia.
Qed.

Lemma out_of_place_write_success fdp buf len nm w fdp' nm' w' :
  0 <= pos fdp -> 0 < len -> pos fdp + len <= MAX_FILE_SIZE ->
  out_of_place_write fdp buf len nm w = (TEE_SUCCESS, fdp', nm', w') ->
  pos fdp' = pos fdp + len
  /\ length_ (info nm') = Z.max (length_ (info nm)) (pos fdp + len).
Proof.
  intros Hp Hlen Hmax. unfold out_of_place_write. cbv zeta.
  destruct (range_blocks (pos fdp) len Hp Hlen Hmax) as (Hs & Hl & Hr & Hlt).
  cbv zeta in *. pose proof MAX_FILE_SIZE_bound.
  destruct (out_of_place_write_loop _ _ _ _ _ _ _ _ _ _)
    as [[[[completed r] fdp1] nm1] w1] eqn:Eloop.
  pose proof Eloop as Espec.
  apply out_of_place_write_loop_spec in Espec; [|lia|lia|lia|lia].
  destruct Espec as (_ & _ & _ & _ & _ & _ & Hcomp & _ & Hlen1 & _).
  destruct (failed r) eqn:Hf.
  { intros [= -> _ _ _]. discriminate Hf. }
  apply failed_false in Hf. subst r.
  destruct completed; [|exfalso; apply Hcomp; reflexivity].
  apply out_of_place_write_loop_count in Eloop; [|lia|].
  2:{ right. split; [lia|]. rewrite Hs, Hl. lia. }
  cbn [andb]. intros [= <- <- _]. split; [exact Eloop|].
  rewrite Eloop.
  destruct (Z.gtb_spec (pos fdp + len) (length_ (info nm1))).
  - cbn. rewrite u32_id by lia. lia.
  - lia.
Qed.

End TruncateWrite.

(** X15: a truncate that does not extend the file touches no data block: the
    only RPC calls it issues are the writes of the commit (the shadow meta
    and the counter), it leaves the cursor alone, and when it succeeds the
    handle has the new length, the same bitmap and FEK, and the counter
    plus 1. *)
Theorem truncate_shrink_commits_only (KM : KeyManager) (OK : KeyManagerOk KM)
    (fdp : tee_fs_fd) (new_len : Z) (w : world)
    (res : TEE_Result) (fdp' : tee_fs_fd) (w' : world) :
  0 <= new_len <= length_ (info (meta fdp)) ->
  length_ (info (meta fdp)) < 2 ^ 32 ->
  ree_fs_truncate fdp new_len w = (res, fdp', w') ->
  Forall (commit_write fdp) (new_events w w')
  /\ pos fdp' = pos fdp
  /\ (res = TEE_SUCCESS ->
      length_ (info (meta fdp')) = new_len
      /\ backup_version_table (info (meta fdp'))
         = backup_version_table (info (meta fdp))
      /\ encrypted_fek (meta fdp') = encrypted_fek (meta fdp)
      /\ meta_counter fdp' = u32 (meta_counter fdp + 1)).
Proof.
  intros Hn Hl. unfold ree_fs_truncate, ree_fs_ftruncate_internal.
  destruct (new_len >? MAX_FILE_SIZE).
  { intros [= <- <- <-]. unfold new_events. rewrite drop_all.
    split; [constructor|]. split; [reflexivity|].
    intros Hr. exfalso. vm_compute in Hr. discriminate Hr. }
  rewrite (u32_id new_len) by lia.
  destruct (Z.gtb_spec new_len (length_ (info (meta fdp)))); [lia|].
  intros Hc. pose proof (commit_meta_file_events _ _ _ _ _ _ Hc)
    as (evs & Hlog & Hev).
  split; [rewrite (new_events_app _ _ _ Hlog); exact Hev|].
  split; [eapply commit_meta_file_pos; exact Hc|].
  intros ->. apply commit_meta_file_success in Hc as [-> _].
  cbn. repeat split.
Qed.

Lemma truncate_shrink_commits_only_witness :
  exists fdp' w',
    @ree_fs_truncate RefKM.km RefKM.rewound_handle 1 RefKM.written.2
    = (TEE_SUCCESS, fdp', w')
    /\ length_ (info (meta fdp')) = 1
    /\ Forall (@commit_write RefKM.km RefKM.rewound_handle)
         (new_events RefKM.written.2 w').
Proof.
  destruct (@ree_fs_truncate RefKM.km RefKM.rewound_handle 1 RefKM.written.2)
    as [[res fdp'] w'] eqn:E.
  assert (Hres : res = TEE_SUCCESS).
  { change res with (res, fdp', w').1.1. rewrite <- E. vm_compute.
    reflexivity. }
  subst res.
  assert (H1 : 0 <= 1 <= length_ (info (meta RefKM.rewound_handle)))
    by (vm_compute; split; discriminate).
  assert (H2 : length_ (info (meta RefKM.rewound_handle)) < 2 ^ 32)
    by (vm_compute; reflexivity).
  destruct (truncate_shrink_commits_only RefKM.km RefKM_contract
              RefKM.rewound_handle 1 RefKM.written.2 TEE_SUCCESS fdp' w'
              H1 H2 E) as (Hev & _ & Hok).
  exists fdp', w'. split; [reflexivity|].
  split; [apply (Hok eq_refl)|exact Hev].
Defined.

(** X16: a successful write of [len > 0] bytes through a handle whose recorded
    length is within the file bounds leaves the cursor [len] bytes further
    and the file length at the larger of the old length and the new cursor,
    whether or not the file had first to be extended up to the cursor. *)
Theorem write_advances_cursor_and_length
    (KM : KeyManager) (OK : KeyManagerOk KM)
    (fdp : tee_fs_fd) (buf : option (list byte)) (len : Z) (w : world)
    (fdp' : tee_fs_fd) (w' : world) :
  handle_ok fdp -> 0 < len ->
  ree_fs_write fdp buf len w = (TEE_SUCCESS, fdp', w') ->
  pos fdp' = pos fdp + len
  /\ length_ (info (meta fdp'))
     = Z.max (length_ (info (meta fdp))) (pos fdp + len)
  /\ 0 <= pos fdp /\ pos fdp + len <= MAX_FILE_SIZE.
Proof.
  intros Hok Hlen. unfold ree_fs_write.
  pose proof MAX_FILE_SIZE_bound as Hb.
  destruct (Z.eqb_spec len 0); [lia|].
  destruct (Z.gtb_spec (pos fdp + len) MAX_FILE_SIZE) as [|Hmax].
  { intros Habs. exfalso. apply (f_equal (fun x => x.1.1)) in Habs.
    vm_compute in Habs. discriminate Habs. }
  destruct (Z.ltb_spec (pos fdp + len) len) as [|Hpos].
  { intros Habs. exfalso. apply (f_equal (fun x => x.1.1)) in Habs.
    vm_compute in Habs. discriminate Habs. }
  cbn [orb]. rewrite (u32_id (pos fdp)) by lia.
  destruct (Z.ltb_spec (length_ (info (meta fdp))) (pos fdp)) as [Hext | Hin].
  - destruct (ree_fs_ftruncate_internal fdp (pos fdp) w)
      as [[r f1] w1] eqn:Et.
    destruct (failed r) eqn:Hf; [intros [= -> _ _]; discriminate Hf|].
    apply failed_false in Hf. subst r.
    pose proof Et as Hpos1.
    apply ftruncate_success in Et as (Hok1 & _ & Hlen1 & _);
      [|exact Hok|lia].
    apply ftruncate_cursor in Hpos1. rewrite s32_id in Hpos1 by lia.
    assert (Hp1 : pos f1 = pos fdp) by (destruct Hpos1; assumption).
    destruct (out_of_place_write f1 buf len (meta f1) w1)
      as [[[r f2] nm2] w2] eqn:Eo.
    destruct (failed r) eqn:Hf; [intros [= -> _ _]; discriminate Hf|].
    apply failed_false in Hf. subst r.
    apply out_of_place_write_success in Eo; [|lia|lia|lia].
    destruct Eo as [Hp2 Hl2].
    intros Hcommit. pose proof (commit_meta_file_pos _ _ _ _ _ _ Hcommit) as Hp3.
    apply commit_meta_file_success in Hcommit as [-> _].
    cbn [meta info set_meta set_meta_counter set_counter] in *.
    unfold handle_ok in Hok. lia.
  - cbn [failed negb Z.eqb TEE_SUCCESS].
    destruct (out_of_place_write fdp buf len (meta fdp) w)
      as [[[r f2] nm2] w2] eqn:Eo.
    destruct (failed r) eqn:Hf; [intros [= -> _ _]; discriminate Hf|].
    apply failed_false in Hf. subst r.
    apply out_of_place_write_success in Eo; [|lia|lia|lia].
    destruct Eo as [Hp2 Hl2].
    intros Hcommit. pose proof (commit_meta_file_pos _ _ _ _ _ _ Hcommit) as Hp3.
    apply commit_meta_file_success in Hcommit as [-> _].
    cbn [meta info set_meta set_meta_counter set_counter] in *.
    unfold handle_ok in Hok. lia.
Qed.

Lemma write_advances_cursor_and_length_witness :
  RefKM.written.1.1 = TEE_SUCCESS
  /\ pos RefKM.written.1.2 = 3
  /\ length_ (info (meta RefKM.written.1.2)) = 3.
Proof.
  assert (E : @ree_fs_write RefKM.km RefKM.created_handle
                (Some [x01; x02; x03]) 3 RefKM.created_world
              = (TEE_SUCCESS, RefKM.written.1.2, RefKM.written.2))
    by (vm_compute; reflexivity).
  assert (Hok : @handle_ok RefKM.km RefKM.created_handle)
    by (vm_compute; split; discriminate).
  destruct (write_advances_cursor_and_length RefKM.km RefKM_contract
              RefKM.created_handle (Some [x01; x02; x03]) 3
              RefKM.created_world RefKM.written.1.2 RefKM.written.2
              Hok ltac:(lia) E) as (Hp & Hl & _).
  split; [vm_compute; reflexivity|]. split.
  - rewrite Hp. vm_compute. reflexivity.
  - rewrite Hl. vm_compute. reflexivity.
Defined.

(** ** Layout of the data blocks *)

(** X17: the two slots of a block and the slots of different blocks never
    overlap; every slot starts after the second meta slot and ends within
    the 31-bit range of the offsets. *)
Theorem block_slots_disjoint (KM : KeyManager) (OK : KeyManagerOk KM)
    (m : tee_fs_file_meta) (j k : Z) (a b : bool) :
  0 <= j < NUM_BLOCKS_PER_FILE -> 0 <= k < NUM_BLOCKS_PER_FILE ->
  j <> k \/ a <> b ->
  (block_pos_raw m j a + block_size_raw <= block_pos_raw m k b
   \/ block_pos_raw m k b + block_size_raw <= block_pos_raw m j a)
  /\ meta_slot_offset 1 + meta_size <= block_pos_raw m j a
  /\ block_pos_raw m j a + block_size_raw < 2 ^ 31.
Proof.
  intros Hj Hk Hne.
  pose proof (block_pos_raw_range m j a Hj) as [Hlo Hhi].
  pose proof container_fits as Hfit.
  pose proof block_size_raw_ge as Hs. rewrite BLOCK_SIZE_eq in Hs.
  split; [|split; [unfold meta_slot_offset; lia|lia]].
  rewrite !block_pos_raw_eq by assumption. unfold slot_bit.
  destruct (Z.eq_dec j k) as [-> | Hjk].
  - destruct Hne as [Hne | Hne]; [contradiction|].
    destruct a, b, (get_backup_version_of_block m k); cbn;
      try contradiction; lia.
  - destruct (Bool.eqb a _), (Bool.eqb b _); nia.
Qed.

Lemma block_slots_disjoint_witness :
  let m := meta RefKM.created_handle in
  (@block_pos_raw RefKM.km m 0 true + @block_size_raw RefKM.km
   <= @block_pos_raw RefKM.km m 1 false
   \/ @block_pos_raw RefKM.km m 1 false + @block_size_raw RefKM.km
      <= @block_pos_raw RefKM.km m 0 true)
  /\ @block_pos_raw RefKM.km m 0 true = 307.
Proof.
  cbv zeta. split; [|vm_compute; reflexivity].
  refine (proj1 (block_slots_disjoint RefKM.km RefKM_contract
                   (meta RefKM.created_handle) 0 1 true false _ _ _)).
  - vm_compute. split; [discriminate|reflexivity].
  - vm_compute. split; [discriminate|reflexivity].
  - left. discriminate.
Defined.

(** X18: flipping the backup bit of block [k] swaps the roles of its two
    slots -- the slot that was the shadow becomes the active one -- and
    leaves the slots of every other block where they were; flipping it
    twice gives the original meta back. *)
Theorem toggle_swaps_slots_of_one_block (KM : KeyManager)
    (OK : KeyManagerOk KM) (m : tee_fs_file_meta) (k : Z) :
  0 <= k < NUM_BLOCKS_PER_FILE ->
  length (backup_version_table (info m))
  = Z.to_nat (NUM_BLOCKS_PER_FILE / 32) ->
  let m' := toggle_backup_version_of_block m k in
  block_pos_raw m' k true = block_pos_raw m k false
  /\ block_pos_raw m' k false = block_pos_raw m k true
  /\ block_pos_raw m k true <> block_pos_raw m k false
  /\ (forall j a, 0 <= j < NUM_BLOCKS_PER_FILE -> j <> k ->
        block_pos_raw m' j a = block_pos_raw m j a)
  /\ toggle_backup_version_of_block m' k = m.
Proof.
  intros Hk Hlen m'.
  pose proof (toggle_same m k Hk Hlen) as Hsame. fold m' in Hsame.
  pose proof block_size_raw_ge as Hs. rewrite BLOCK_SIZE_eq in Hs.
  split; [|split; [|split; [|split]]].
  - rewrite !block_pos_raw_eq by assumption. unfold slot_bit.
    rewrite Hsame. destruct (get_backup_version_of_block m k); reflexivity.
  - rewrite !block_pos_raw_eq by assumption. unfold slot_bit.
    rewrite Hsame. destruct (get_backup_version_of_block m k); reflexivity.
  - rewrite !block_pos_raw_eq by assumption. unfold slot_bit.
    destruct (get_backup_version_of_block m k); cbn; lia.
  - intros j a Hj Hne. rewrite !block_pos_raw_eq by assumption.
    unfold slot_bit, m'. rewrite toggle_other by lia. reflexivity.
  - unfold m', toggle_backup_version_of_block, set_table. cbn.
    pose proof (word_index_lt k Hk) as Hi. rewrite <- Hlen in Hi.
    destruct m as [[len t] fek c]. cbn in *.
    rewrite list_lookup_total_insert_eq by exact Hi.
    rewrite list_insert_insert_eq.
    rewrite Z.lxor_assoc, Z.lxor_nilpotent, Z.lxor_0_r.
    rewrite list_insert_id; [reflexivity|].
    apply list_lookup_lookup_total_lt. exact Hi.
Qed.

Lemma toggle_swaps_slots_of_one_block_witness :
  @block_pos_raw RefKM.km
    (toggle_backup_version_of_block (meta RefKM.created_handle) 0)
    0 true
  = @block_pos_raw RefKM.km (meta RefKM.created_handle) 0 false.
Proof.
  refine (proj1 (toggle_swaps_slots_of_one_block RefKM.km RefKM_contract
                   (meta RefKM.created_handle) 0 _ _)).
  - vm_compute. split; [discriminate|reflexivity].
  - vm_compute. reflexivity.
Defined.

(** ** The primitives when no failure is injected *)

Lemma malloc_reliable n w : faults w = [] -> malloc n w = (true, w).
Proof. intros H. unfold malloc, next_fault. rewrite H. reflexivity. Qed.

Lemma backed_log_event e w d name f :
  backed w d name f -> backed (log_event e w) d name f.
Proof. intros [Hf Hfile]. split; [exact Hf|exact Hfile]. Qed.

Lemma backed_write w d name f f' e :
  backed w d name f ->
  backed (log_event e (set_files w (<[name := f']> (ree_files w)))) d name f'.
Proof.
  intros [Hf Hfile]. split; [exact Hf|].
  destruct (proj1 (file_of_inv w d name f) Hfile) as [H1 H2].
  apply (proj2 (file_of_inv _ d name f')). cbn.
  split; [exact H1|apply lookup_insert_eq].
Qed.

Lemma rpc_read_backed d len offs w name f :
  backed w d name f -> 0 <= offs ->
  exists w',
    tee_fs_rpc_read d len offs w = (TEE_SUCCESS, pread f offs len, w')
    /\ backed w' d name f /\ same_store w w'.
Proof.
  intros [Hf Hfile] Ho. eexists. split.
  - apply (rpc_read_reliable d len offs w name f); assumption.
  - split; [apply backed_log_event; split; assumption|repeat split].
Qed.

Lemma rpc_write_backed d data offs w name f :
  backed w d name f -> 0 <= offs ->
  exists w',
    tee_fs_rpc_write d data offs w = (TEE_SUCCESS, w')
    /\ backed w' d name (pwrite f offs data)
    /\ ree_fds w' = ree_fds w /\ ree_next_fd w' = ree_next_fd w
    /\ session_uuid w' = session_uuid w.
Proof.
  intros Hb Ho. pose proof Hb as [Hf Hfile]. eexists. split.
  - apply (rpc_write_reliable d data offs w name f); assumption.
  - split; [apply (backed_write w d name f); exact Hb|repeat split].
Qed.

Section ReliableIO.
Context {KM : KeyManager} {OK : KeyManagerOk KM}.

Lemma encrypt_and_write_file_backed fdp t offs data sz fek w name f ct :
  backed w (fd fdp) name f -> 0 <= offs ->
  tee_fs_encrypt_file t data fek = (TEE_SUCCESS, ct) ->
  exists w',
    encrypt_and_write_file fdp t offs data sz fek w = (TEE_SUCCESS, w')
    /\ backed w' (fd fdp) name (pwrite f offs ct)
    /\ ree_fds w' = ree_fds w /\ ree_next_fd w' = ree_next_fd w
    /\ session_uuid w' = session_uuid w.
Proof.
  intros Hb Ho Henc. unfold encrypt_and_write_file.
  rewrite malloc_reliable by apply Hb. cbn [negb]. rewrite Henc.
  cbn [failed negb Z.eqb TEE_SUCCESS].
  apply rpc_write_backed; assumption.
Qed.

Lemma overlay_full (a b : list byte) :
  (length b <= length a)%nat -> overlay a b = a.
Proof.
  intros H. unfold overlay. rewrite drop_ge by exact H. apply app_nil_r.
Qed.

(** What [read_and_decrypt_file] returns for the bytes found at [offs]. *)
Lemma read_and_decrypt_file_backed fdp t offs data_out sz fek w name f :
  backed w (fd fdp) name f -> 0 <= offs ->
  0 <= sz -> 0 <= tee_fs_get_header_size t ->
  sz + tee_fs_get_header_size t < 2 ^ 32 ->
  exists w',
    backed w' (fd fdp) name f /\ same_store w w'
    /\ read_and_decrypt_file fdp t offs data_out sz fek w
       = let ct := pread f offs (sz + tee_fs_get_header_size t) in
         if (length ct =? 0)%nat then (TEE_SUCCESS, data_out, fek, w')
         else
           let '(res, pt, fek') := tee_fs_decrypt_file t ct sz fek in
           ((if failed res then TEE_ERROR_CORRUPT_OBJECT else res),
            overlay (take (Z.to_nat sz) pt) data_out, fek', w').
Proof.
  intros Hb Ho Hsz Hh Hfit. unfold read_and_decrypt_file.
  rewrite malloc_reliable by apply Hb. cbn [negb].
  rewrite u32_id by lia.
  destruct (rpc_read_backed (fd fdp) (sz + tee_fs_get_header_size t) offs
              w name f Hb Ho) as (w' & Hr & Hb' & Hs).
  exists w'. split; [exact Hb'|]. split; [exact Hs|].
  rewrite Hr. cbn [failed negb Z.eqb TEE_SUCCESS]. reflexivity.
Qed.

End ReliableIO.

(** ** Opening a container *)

Lemma next_fault_reliable w : faults w = [] -> next_fault w = (TEE_SUCCESS, w).
Proof. intros H. unfold next_fault. rewrite H. reflexivity. Qed.

Lemma rpc_open_existing name w f :
  faults w = [] -> ree_files w !! name = Some f ->
  exists w',
    tee_fs_rpc_open name false w = (TEE_SUCCESS, Some (ree_next_fd w), w')
    /\ backed w' (ree_next_fd w) name f
    /\ ree_fds w' = <[ree_next_fd w := name]> (ree_fds w)
    /\ ree_files w' = ree_files w
    /\ ree_next_fd w' = ree_next_fd w + 1
    /\ session_uuid w' = session_uuid w.
Proof.
  intros Hf Hfile. unfold tee_fs_rpc_open.
  rewrite next_fault_reliable by exact Hf.
  cbn [failed negb Z.eqb TEE_SUCCESS]. rewrite Hfile. cbn [fst snd].
  eexists. split; [reflexivity|]. split; [|repeat split].
  split; [exact Hf|]. apply (proj2 (file_of_inv _ _ name f)). cbn.
  split; [apply lookup_insert_eq|exact Hfile].
Qed.

Lemma close_after_open (fds : gmap Z string) d name :
  fds !! d = None -> delete d (<[d := name]> fds) = fds.
Proof.
  intros H. rewrite delete_insert_eq. apply delete_id. exact H.
Qed.

Section Open.
Context {KM : KeyManager} {OK : KeyManagerOk KM}.

Lemma words_of_bytes_concat (t : list Z) (rest : list byte) :
  words_of_bytes (length t) (concat (le32_encode <$> t) ++ rest) = u32 <$> t.
Proof.
  induction t as [|x t IH]; [reflexivity|].
  cbn [length words_of_bytes fmap list_fmap concat].
  rewrite <- app_assoc.
  change (take 4 (le32_encode x ++ concat (le32_encode <$> t) ++ rest))
    with (le32_encode x).
  change (drop 4 (le32_encode x ++ concat (le32_encode <$> t) ++ rest))
    with (concat (le32_encode <$> t) ++ rest).
  rewrite le32_decode_encode. f_equal. exact IH.
Qed.

Lemma u32_fmap_id (t : list Z) :
  Forall (fun x => 0 <= x < 2 ^ 32) t -> u32 <$> t = t.
Proof.
  induction 1 as [|x t Hx _ IH]; [reflexivity|].
  cbn [fmap list_fmap]. rewrite u32_id by exact Hx. f_equal. exact IH.
Qed.

Lemma info_of_to_bytes i :
  info_wf i -> info_of_bytes (info_to_bytes i) = i.
Proof.
  intros (Hlen & Htab & Hw). destruct i as [len t].
  cbn [length_ backup_version_table] in Hlen, Htab, Hw.
  unfold info_of_bytes, info_to_bytes. cbn [length_ backup_version_table].
  change (take 4 (le32_encode len ++ concat (le32_encode <$> t)))
    with (le32_encode len).
  change (drop 4 (le32_encode len ++ concat (le32_encode <$> t)))
    with (concat (le32_encode <$> t)).
  rewrite le32_decode_encode, u32_id by exact Hlen.
  rewrite <- Htab, <- (app_nil_r (concat _)), words_of_bytes_concat.
  rewrite u32_fmap_id by exact Hw. reflexivity.
Qed.

End Open.

(** ** Images, blocks and patches *)

Lemma length_patch (b : list byte) o (c : list byte) :
  0 <= o -> o + Z.of_nat (length c) <= Z.of_nat (length b) ->
  length (patch b o c) = length b.
Proof.
  intros Ho H. unfold patch.
  rewrite !length_app, length_take, length_drop. lia.
Qed.

Lemma patch_patch (img : list byte) p (c1 c2 : list byte) :
  0 <= p -> p + Z.of_nat (length c1) <= Z.of_nat (length img) ->
  patch (patch img p c1) (p + Z.of_nat (length c1)) c2
  = patch img p (c1 ++ c2).
Proof.
  intros Hp Hin. unfold patch.
  assert (Hl : length (take (Z.to_nat p) img ++ c1)
               = Z.to_nat (p + Z.of_nat (length c1))).
  { rewrite length_app, length_take. lia. }
  rewrite (app_assoc (take (Z.to_nat p) img) c1).
  rewrite take_app_length' by (symmetry; exact Hl).
  rewrite drop_app_ge by lia.
  rewrite Hl, drop_drop, <- !app_assoc, length_app.
  do 3 f_equal. f_equal. lia.
Qed.

Lemma length_blk (img : list byte) k :
  0 <= k -> BLOCK_SIZE * (k + 1) <= Z.of_nat (length img) ->
  length (blk img k) = Z.to_nat BLOCK_SIZE.
Proof.
  intros Hk H. unfold blk. rewrite length_take, length_drop.
  rewrite BLOCK_SIZE_eq in *. lia.
Qed.

(** A patch inside block [k] is a patch of that block... *)
Lemma blk_patch_same (img : list byte) p (c : list byte) k :
  0 <= k -> BLOCK_SIZE * k <= p ->
  p + Z.of_nat (length c) <= BLOCK_SIZE * (k + 1) ->
  BLOCK_SIZE * (k + 1) <= Z.of_nat (length img) ->
  blk (patch img p c) k = patch (blk img k) (p - BLOCK_SIZE * k) c.
Proof.
  intros Hk Hlo Hhi Hin. unfold blk, patch. rewrite BLOCK_SIZE_eq in *.
  set (a := Z.to_nat (256 * k)). set (P := Z.to_nat p).
  remember (length c) as s eqn:Hs.
  replace (Z.to_nat (p - 256 * k)) with (P - a)%nat by lia.
  assert (Ha : (a <= P)%nat) by lia.
  assert (HP : (P + s <= a + 256)%nat) by lia.
  assert (Hi : (a + 256 <= length img)%nat) by lia.
  clearbody a P. change (Z.to_nat 256) with 256%nat. clear Hk Hlo Hhi Hin.
  rewrite drop_app_le by (rewrite length_take; lia).
  rewrite take_app_ge by (rewrite length_drop, length_take; lia).
  rewrite length_drop, length_take.
  rewrite take_app_ge by lia.
  rewrite take_take.
  replace (take (Nat.min (P - a) 256) (drop a img))
    with (drop a (take P img)).
  2:{ rewrite take_drop_commute. do 2 f_equal. lia. }
  do 2 f_equal.
  replace (drop (P - a + s) (take 256 (drop a img)))
    with (take (256 - (P - a + s)) (drop (P - a + s) (drop a img))).
  2:{ rewrite take_drop_commute. do 2 f_equal. lia. }
  rewrite drop_drop. f_equal; [lia|]. f_equal. lia.
Qed.

(** ...and leaves the other blocks alone. *)
Lemma blk_patch_other (img : list byte) p (c : list byte) k :
  0 <= k -> 0 <= p ->
  p + Z.of_nat (length c) <= Z.of_nat (length img) ->
  BLOCK_SIZE * (k + 1) <= p \/ p + Z.of_nat (length c) <= BLOCK_SIZE * k ->
  blk (patch img p c) k = blk img k.
Proof.
  intros Hk Hp Hin Hdis. unfold blk, patch. rewrite BLOCK_SIZE_eq in *.
  set (a := Z.to_nat (256 * k)). set (P := Z.to_nat p).
  remember (length c) as s eqn:Hs.
  assert (Hi : (P + s <= length img)%nat) by lia.
  assert (Hd : (a + 256 <= P \/ P + s <= a)%nat) by lia.
  clearbody a P. change (Z.to_nat 256) with 256%nat. clear Hk Hp Hin Hdis.
  destruct Hd as [Hd | Hd].
  - rewrite !take_drop_commute. f_equal.
    rewrite take_app_le by (rewrite length_take; lia).
    rewrite take_take. f_equal. lia.
  - f_equal. rewrite app_assoc, drop_app_ge
      by (rewrite length_app, length_take; lia).
    rewrite length_app, length_take, drop_drop. f_equal. lia.
Qed.

(** A range inside block [k], read from the block or from the image. *)
Lemma take_drop_blk (img : list byte) k o size :
  0 <= k -> 0 <= o -> 0 <= size -> o + size <= BLOCK_SIZE ->
  take (Z.to_nat size) (drop (Z.to_nat o) (blk img k))
  = take (Z.to_nat size) (drop (Z.to_nat (BLOCK_SIZE * k + o)) img).
Proof.
  intros Hk Ho Hs Hfit. unfold blk. rewrite BLOCK_SIZE_eq in *.
  replace (Z.to_nat (256 * k + o))
    with (Z.to_nat (256 * k) + Z.to_nat o)%nat by lia.
  rewrite <- drop_drop.
  generalize (drop (Z.to_nat (256 * k)) img). intros l.
  replace (drop (Z.to_nat o) (take (Z.to_nat 256) l))
    with (take (Z.to_nat 256 - Z.to_nat o) (drop (Z.to_nat o) l)).
  2:{ rewrite take_drop_commute. do 2 f_equal. lia. }
  rewrite take_take. f_equal. lia.
Qed.

Lemma take_split (l : list byte) (a b : nat) :
  take (a + b) l = take a l ++ take b (drop a l).
Proof.
  rewrite <- (take_drop a l) at 1.
  destruct (decide (a <= length l)%nat) as [H | H].
  - rewrite take_app_ge by (rewrite length_take; lia).
    rewrite length_take. f_equal. f_equal. lia.
  - rewrite (drop_ge l a) by lia. rewrite app_nil_r, take_nil, app_nil_r.
    rewrite take_take. f_equal. lia.
Qed.

Lemma blk_zeros k :
  0 <= k -> forall n, BLOCK_SIZE * (k + 1) <= n ->
  blk (zeros n) k = zeros BLOCK_SIZE.
Proof.
  intros Hk n Hn. unfold blk, zeros. rewrite BLOCK_SIZE_eq in *.
  rewrite drop_replicate, take_replicate. f_equal. lia.
Qed.

Lemma pread_full_inv (f : list byte) o n :
  0 <= o -> 0 < n -> Z.of_nat (length (pread f o n)) = n ->
  o + n <= Z.of_nat (length f).
Proof.
  intros Ho Hn. unfold pread. rewrite length_take, length_drop. lia.
Qed.

(** ** The block engine on a container that stores an image *)

Section Stored.
Context {KM : KeyManager} {OK : KeyManagerOk KM}.

Lemma blocks_bound : 0 < NUM_BLOCKS_PER_FILE < 2 ^ 23.
Proof.
  pose proof container_fits. pose proof km_blocks_pos.
  pose proof block_size_raw_ge. pose proof meta_size_ge.
  rewrite BLOCK_SIZE_eq in *. nia.
Qed.

Lemma block_size_raw_pos : 0 < block_size_raw.
Proof. pose proof block_size_raw_ge. rewrite BLOCK_SIZE_eq in *. lia. Qed.

Lemma block_pos_raw_s32 m k active :
  0 <= k < NUM_BLOCKS_PER_FILE ->
  s32 (block_pos_raw m k active) = block_pos_raw m k active
  /\ 0 <= block_pos_raw m k active.
Proof.
  intros Hk. pose proof (block_pos_raw_range m k active Hk).
  pose proof container_fits. pose proof meta_size_ge.
  pose proof block_size_raw_pos.
  split; [apply s32_id|]; lia.
Qed.

Lemma stores_blk_length f m img wm k :
  stores f m img wm -> 0 <= k < NUM_BLOCKS_PER_FILE ->
  length (blk img k) = 256%nat.
Proof.
  intros (Hl & _) Hk. rewrite length_blk; [reflexivity|lia|].
  rewrite Hl. unfold MAX_FILE_SIZE. rewrite BLOCK_SIZE_eq. lia.
Qed.

Lemma block_ciphertext_size (data fek ct : list byte) :
  tee_fs_encrypt_file BLOCK_FILE data fek = (TEE_SUCCESS, ct) ->
  length data = 256%nat ->
  Z.of_nat (length ct) = block_size_raw.
Proof.
  intros Henc Hd. apply km_encrypt_size in Henc.
  rewrite block_size_raw_eq, BLOCK_SIZE_eq. lia.
Qed.

Lemma slot_bit_cases m k active : slot_bit m k active = 0 \/ slot_bit m k active = 1.
Proof. unfold slot_bit. destruct (Bool.eqb _ _); auto. Qed.

(** A block read returns the block of the image, zeros for a block that
    was never written. *)
Lemma read_block_stored h k data w name f m img wm :
  backed w (fd h) name f -> stores f m img wm ->
  0 <= k < NUM_BLOCKS_PER_FILE ->
  get_backup_version_of_block (meta h) k = get_backup_version_of_block m k ->
  encrypted_fek (meta h) = encrypted_fek m ->
  (length data <= 256)%nat ->
  exists w',
    read_block h k data w = (TEE_SUCCESS, blk img k, w')
    /\ backed w' (fd h) name f /\ same_store w w'.
Proof.
  intros Hb Hst Hk Hbit Hfek Hd.
  pose proof (stores_blk_length _ _ _ _ k Hst Hk) as Hbl.
  destruct Hst as (Himg & Htab & Hrng & Hfl & Hwm & Hlen & Hlow & Hhigh).
  pose proof blocks_bound as HN. pose proof block_size_raw_pos as HS.
  unfold read_block. cbv zeta. rewrite malloc_reliable by apply Hb.
  cbn [negb]. rewrite (u32_id k) by lia.
  assert (Hpos : block_pos_raw (meta h) k true = block_pos_raw m k true).
  { rewrite !block_pos_raw_eq by exact Hk. unfold slot_bit.
    rewrite Hbit. reflexivity. }
  rewrite Hpos.
  destruct (block_pos_raw_s32 m k true Hk) as [-> Hnn].
  destruct (rpc_read_backed (fd h) block_size_raw (block_pos_raw m k true)
              w name f Hb Hnn) as (w' & Hr & Hb' & Hs).
  exists w'. split; [|split; assumption].
  rewrite Hr. cbn [failed negb Z.eqb TEE_SUCCESS].
  destruct (Z.lt_ge_cases k wm) as [Hlt | Hge].
  - destruct (Hlow k ltac:(lia)) as (ct & Henc & Hct). rewrite Hct.
    pose proof (block_ciphertext_size _ _ _ Henc Hbl) as Hcl.
    destruct (Nat.eqb_spec (length ct) 0) as [H0 | _]; [lia|].
    rewrite Hfek.
    rewrite (km_decrypt BLOCK_FILE (blk img k) (encrypted_fek m) ct
               BLOCK_SIZE (encrypted_fek m) Henc)
      by (rewrite ?Hbl, ?BLOCK_SIZE_eq; auto; lia).
    rewrite firstn_all2 by (rewrite Hbl, BLOCK_SIZE_eq; lia).
    rewrite overlay_full by lia. reflexivity.
  - destruct (Hhigh k ltac:(lia)) as [Hb1 Hz].
    rewrite pread_eof.
    + cbn [length Nat.eqb]. rewrite Hz. reflexivity.
    + rewrite block_pos_raw_eq by exact Hk. unfold slot_bit.
      rewrite Hb1. cbn [Bool.eqb]. unfold data_base in Hlen. nia.
Qed.

Lemma lxor_bit_range x i :
  0 <= x < 2 ^ 32 -> 0 <= i < 32 -> 0 <= Z.lxor x (2 ^ i) < 2 ^ 32.
Proof.
  intros Hx Hi. split.
  - apply Z.lxor_nonneg. split; intros _; [apply Z.pow_nonneg|]; lia.
  - destruct (Z.eq_dec (Z.lxor x (2 ^ i)) 0) as [-> | Hne]; [lia|].
    assert (0 <= Z.lxor x (2 ^ i)).
    { apply Z.lxor_nonneg. split; intros _; [apply Z.pow_nonneg|]; lia. }
    apply Z.log2_lt_pow2; [lia|].
    pose proof (Z.log2_lxor x (2 ^ i) ltac:(lia) ltac:(apply Z.pow_nonneg; lia))
      as Hl.
    rewrite Z.log2_pow2 in Hl by lia.
    destruct (Z.eq_dec x 0) as [-> | Hx0].
    + change (Z.log2 0) with 0 in Hl. lia.
    + assert (Z.log2 x < 32) by (apply Z.log2_lt_pow2; lia). lia.
Qed.

Lemma toggle_range m k :
  0 <= k ->
  Forall (fun x => 0 <= x < 2 ^ 32) (backup_version_table (info m)) ->
  Forall (fun x => 0 <= x < 2 ^ 32)
    (backup_version_table (info (toggle_backup_version_of_block m k))).
Proof.
  intros Hk Hr. unfold toggle_backup_version_of_block. cbn.
  pose proof (Z.mod_pos_bound k 32 ltac:(lia)) as Hm.
  rewrite block_mask_eq.
  destruct (decide (Z.to_nat (k / 32)
                    < length (backup_version_table (info m)))%nat) as [Hlt|Hge].
  - apply Forall_insert; [exact Hr|].
    apply lxor_bit_range; [|exact Hm].
    apply (Forall_lookup_1 _ _ (Z.to_nat (k / 32)) _ Hr).
    apply list_lookup_lookup_total_lt. exact Hlt.
  - rewrite list_insert_ge by lia. exact Hr.
Qed.

(** A block write stores the new block in the shadow slot and makes it
    the active one; the other blocks stay where they are. *)
Lemma write_block_stored h k data nm w name f img wm img' :
  backed w (fd h) name f -> stores f nm img wm ->
  0 <= k < NUM_BLOCKS_PER_FILE -> k <= wm ->
  Z.of_nat (length img') = MAX_FILE_SIZE ->
  blk img' k = data ->
  (forall j, 0 <= j < NUM_BLOCKS_PER_FILE -> j <> k ->
     blk img' j = blk img j) ->
  exists w' f',
    write_block h k data nm w
    = (TEE_SUCCESS, toggle_backup_version_of_block nm k, w')
    /\ backed w' (fd h) name f'
    /\ stores f' (toggle_backup_version_of_block nm k) img'
         (Z.max wm (k + 1))
    /\ ree_fds w' = ree_fds w /\ ree_next_fd w' = ree_next_fd w
    /\ session_uuid w' = session_uuid w.
Proof.
  intros Hb Hst Hk Hkw Himg' Hsame Hother.
  pose proof Hst as (Himg & Htab & Hrng & Hfl & Hwm & Hlen & Hlow & Hhigh).
  pose proof blocks_bound as HN. pose proof block_size_raw_pos as HS.
  assert (Hdl : length data = 256%nat).
  { rewrite <- Hsame. rewrite length_blk; [reflexivity|lia|].
    rewrite Himg'. unfold MAX_FILE_SIZE. rewrite BLOCK_SIZE_eq. lia. }
  destruct (km_encrypt_ok BLOCK_FILE data (encrypted_fek nm) Hfl)
    as [ct Henc].
  pose proof (block_ciphertext_size _ _ _ Henc Hdl) as Hcl.
  destruct (block_pos_raw_s32 nm k false Hk) as [_ Hnn].
  destruct (encrypt_and_write_file_backed h BLOCK_FILE
              (block_pos_raw nm k false) data BLOCK_SIZE (encrypted_fek nm)
              w name f ct Hb Hnn Henc)
    as (w' & Hw & Hb' & Hfds & Hnx & Hu).
  exists w', (pwrite f (block_pos_raw nm k false) ct).
  split.
  { unfold write_block. cbv zeta. rewrite Hw. reflexivity. }
  split; [exact Hb'|]. split; [|repeat split; assumption].
  set (o := block_pos_raw nm k false) in *.
  assert (Ho : o = data_base + (2 * k + slot_bit nm k false) * block_size_raw).
  { unfold o, data_base. apply block_pos_raw_eq. exact Hk. }
  pose proof (slot_bit_cases nm k false) as Hsb.
  split; [exact Himg'|].
  split; [rewrite toggle_table_length; exact Htab|].
  split; [apply toggle_range; [lia|exact Hrng]|].
  split; [exact Hfl|].
  split; [lia|].
  split.
  { rewrite length_pwrite by lia. nia. }
  split.
  - intros j Hj. destruct (Z.eq_dec j k) as [-> | Hne].
    + exists ct. rewrite Hsame. split; [exact Henc|].
      replace (block_pos_raw (toggle_backup_version_of_block nm k) k true)
        with o.
      * apply pread_pwrite_same. lia.
      * unfold o. rewrite !block_pos_raw_eq by exact Hk. unfold slot_bit.
        rewrite toggle_same by assumption.
        destruct (get_backup_version_of_block nm k); reflexivity.
    + assert (Hjw : 0 <= j < wm) by lia.
      assert (HjN : 0 <= j < NUM_BLOCKS_PER_FILE) by lia.
      destruct (Hlow j Hjw) as (ctj & Hencj & Hctj).
      exists ctj. rewrite (Hother j HjN Hne). split; [exact Hencj|].
      rewrite <- Hctj.
      pose proof (stores_blk_length _ _ _ _ j Hst HjN) as Hbl.
      pose proof (block_ciphertext_size _ _ _ Hencj Hbl) as Hclj.
      assert (Hpj : block_pos_raw (toggle_backup_version_of_block nm k) j true
                    = block_pos_raw nm j true).
      { rewrite !block_pos_raw_eq by exact HjN. unfold slot_bit.
        rewrite toggle_other by (try assumption; lia). reflexivity. }
      rewrite Hpj.
      pose proof (block_pos_raw_eq nm j true HjN) as Hoj.
      pose proof (slot_bit_cases nm j true) as Hsbj.
      fold data_base in Hoj.
      assert (Hin : block_pos_raw nm j true + block_size_raw
                    <= Z.of_nat (length f)).
      { apply pread_full_inv;
          [apply (block_pos_raw_s32 nm j true HjN)|lia|].
        rewrite Hctj. exact Hclj. }
      pose proof (proj2 (block_pos_raw_s32 nm j true HjN)).
      destruct (Z.lt_ge_cases j k).
      * apply pread_pwrite_below; nia.
      * apply pread_pwrite_above; nia.
  - intros j Hj.
    assert (HjN : 0 <= j < NUM_BLOCKS_PER_FILE) by lia.
    assert (Hne : j <> k) by lia.
    rewrite toggle_other by (try assumption; lia).
    rewrite (Hother j HjN Hne). apply Hhigh. lia.
Qed.

End Stored.

(** ** The range loops on a container that stores an image *)

Section StoredLoops.
Context {KM : KeyManager} {OK : KeyManagerOk KM}.

Lemma length_chunk_of buf dptr size :
  0 <= dptr -> 0 <= size -> chunk_ok buf dptr size ->
  Z.of_nat (length (chunk_of buf dptr size)) = size.
Proof.
  intros Hd Hs. destruct buf as [data|]; cbn [chunk_of chunk_ok].
  - intros Hok. rewrite length_take, length_drop. lia.
  - intros _. rewrite length_zeros. lia.
Qed.

Lemma chunk_of_app buf dptr s r :
  0 <= dptr -> 0 <= s <= r ->
  chunk_of buf dptr s ++ chunk_of buf (dptr + s) (r - s) = chunk_of buf dptr r.
Proof.
  intros Hd Hs. destruct buf as [data|]; cbn [chunk_of].
  - replace (Z.to_nat r) with (Z.to_nat s + Z.to_nat (r - s))%nat by lia.
    rewrite take_split, drop_drop. do 3 f_equal. lia.
  - unfold zeros. rewrite <- replicate_add. f_equal. lia.
Qed.

Lemma chunk_ok_le buf dptr s r :
  s <= r -> chunk_ok buf dptr r -> chunk_ok buf dptr s.
Proof. destruct buf; cbn; lia. Qed.

Lemma chunk_ok_next buf dptr s r :
  chunk_ok buf dptr r -> chunk_ok buf (dptr + s) (r - s).
Proof. destruct buf; cbn; lia. Qed.

Lemma set_pos_set_pos h a b : set_pos (set_pos h a) b = set_pos h b.
Proof. reflexivity. Qed.

Lemma block_of_pos p len :
  0 <= p -> 0 < len -> p + len <= MAX_FILE_SIZE ->
  0 <= p / 256 < NUM_BLOCKS_PER_FILE.
Proof.
  intros Hp Hl Hm. unfold MAX_FILE_SIZE in Hm. rewrite BLOCK_SIZE_eq in Hm.
  split; [apply Z.div_pos; lia|apply Z.div_lt_upper_bound; lia].
Qed.

Lemma ree_fs_read_loop_stored name f img wm n :
  forall h remain block out w,
    backed w (fd h) name f -> stores f (meta h) img wm ->
    0 <= pos h -> pos h + remain <= MAX_FILE_SIZE ->
    0 < remain ->
    Z.of_nat n = (pos h + remain - 1) / 256 - pos h / 256 + 1 ->
    (length block <= 256)%nat ->
    exists w',
      ree_fs_read_loop n h (pos h / 256) remain block out w
      = (TEE_SUCCESS,
         out ++ take (Z.to_nat remain) (drop (Z.to_nat (pos h)) img),
         set_pos h (pos h + remain), w')
      /\ backed w' (fd h) name f /\ same_store w w'.
Proof.
  induction n as [|n IH]; intros h remain block out w Hb Hst Hp Hmax Hr Hn Hbl.
  { exfalso. assert (pos h / 256 <= (pos h + remain - 1) / 256)
      by (apply Z.div_le_mono; lia). lia. }
  pose proof MAX_FILE_SIZE_bound as HM.
  cbn [ree_fs_read_loop]. cbv zeta.
  rewrite (read_chunk_size (pos h) remain Hp ltac:(lia)).
  rewrite (rem_block _ Hp).
  destruct (chunk_step (pos h) remain n Hp Hr Hn)
    as (Hsz & Hfit & _ & _ & Hnext).
  pose proof (block_of_pos _ _ Hp Hr Hmax) as Hk.
  pose proof (mod_block_range (pos h)) as Ho.
  set (size := chunk_size (pos h) remain) in *.
  set (k := pos h / 256) in *.
  destruct (read_block_stored h k block w name f (meta h) img wm
              Hb Hst Hk eq_refl eq_refl Hbl) as (w1 & Hrd & Hb1 & Hs1).
  rewrite Hrd. cbn [failed negb Z.eqb TEE_SUCCESS].
  rewrite (u32_id (remain - size)) by lia.
  rewrite (take_drop_blk img k (pos h mod BLOCK_SIZE) size)
    by (rewrite ?BLOCK_SIZE_eq in *; lia).
  replace (BLOCK_SIZE * k + pos h mod BLOCK_SIZE) with (pos h).
  2:{ unfold k. rewrite BLOCK_SIZE_eq. apply Z.div_mod. lia. }
  destruct Hnext as [[Hz ->] | (Hrem & Hk1 & _ & Hn1)].
  - exists w1. cbn [ree_fs_read_loop].
    replace size with remain by lia.
    split; [reflexivity|]. split; assumption.
  - destruct (IH (set_pos h (pos h + size)) (remain - size) (blk img k)
                (out ++ take (Z.to_nat size) (drop (Z.to_nat (pos h)) img))
                w1) as (w2 & Hloop & Hb2 & Hs2);
      cbn [pos set_pos meta fd]; try assumption; try lia.
    { rewrite (stores_blk_length _ _ _ _ k Hst Hk). lia. }
    exists w2. cbn [pos set_pos meta fd] in Hloop, Hb2.
    rewrite Hk1 in Hloop. rewrite Hloop.
    split; [|split; [exact Hb2|eapply same_store_trans; eassumption]].
    rewrite set_pos_set_pos, <- app_assoc.
    replace (pos h + size + (remain - size)) with (pos h + remain) by lia.
    replace (Z.to_nat remain)
      with (Z.to_nat size + Z.to_nat (remain - size))%nat by lia.
    rewrite take_split, drop_drop.
    replace (Z.to_nat (pos h) + Z.to_nat size)%nat
      with (Z.to_nat (pos h + size)) by lia.
    reflexivity.
Qed.

Lemma out_of_place_write_loop_stored name n :
  forall buf res h remain dptr block nm w f img wm,
    backed w (fd h) name f -> stores f nm img wm ->
    (forall j, pos h / 256 <= j < NUM_BLOCKS_PER_FILE ->
       get_backup_version_of_block (meta h) j
       = get_backup_version_of_block nm j) ->
    encrypted_fek (meta h) = encrypted_fek nm ->
    0 <= pos h -> pos h + remain <= MAX_FILE_SIZE -> pos h / 256 <= wm ->
    0 < remain ->
    Z.of_nat n = (pos h + remain - 1) / 256 - pos h / 256 + 1 ->
    (length block <= 256)%nat ->
    0 <= dptr -> chunk_ok buf dptr remain ->
    exists w' f' nm',
      out_of_place_write_loop n buf res h (pos h / 256) remain dptr block
        nm w
      = (true, TEE_SUCCESS, set_pos h (pos h + remain), nm', w')
      /\ backed w' (fd h) name f'
      /\ stores f' nm' (patch img (pos h) (chunk_of buf dptr remain))
           (Z.max wm ((pos h + remain - 1) / 256 + 1))
      /\ length_ (info nm') = length_ (info nm)
      /\ encrypted_fek nm' = encrypted_fek nm
      /\ ree_fds w' = ree_fds w /\ ree_next_fd w' = ree_next_fd w
      /\ session_uuid w' = session_uuid w.
Proof.
  induction n as [|n IH];
    intros buf res h remain dptr block nm w f img wm
      Hb Hst Hbits Hfek Hp Hmax Hkw Hr Hn Hbl Hd Hck.
  { exfalso. assert (pos h / 256 <= (pos h + remain - 1) / 256)
      by (apply Z.div_le_mono; lia). lia. }
  pose proof MAX_FILE_SIZE_bound as HM. pose proof blocks_bound as HN.
  cbn [out_of_place_write_loop]. cbv zeta.
  rewrite (write_chunk_size (pos h) remain Hp ltac:(lia)).
  rewrite (write_offset _ Hp).
  destruct (chunk_step (pos h) remain n Hp Hr Hn)
    as (Hsz & Hfit & _ & _ & Hnext).
  pose proof (block_of_pos _ _ Hp Hr Hmax) as Hk.
  pose proof (mod_block_range (pos h)) as Ho.
  set (size := chunk_size (pos h) remain) in *.
  set (k := pos h / 256) in *.
  assert (Hpk : pos h = 256 * k + pos h mod BLOCK_SIZE).
  { unfold k. rewrite BLOCK_SIZE_eq. apply Z.div_mod. lia. }
  destruct (read_block_stored h k block w name f nm img wm
              Hb Hst Hk (Hbits k ltac:(lia)) Hfek Hbl)
    as (w1 & Hrd & Hb1 & Hs1).
  rewrite Hrd.
  change (TEE_SUCCESS =? TEE_ERROR_ITEM_NOT_FOUND) with false.
  cbn [failed negb andb Z.eqb TEE_SUCCESS].
  rewrite (u32_id k) by lia.
  set (c1 := chunk_of buf dptr size).
  assert (Hc1 : Z.of_nat (length c1) = size).
  { apply length_chunk_of; [lia|lia|]. eapply chunk_ok_le; [|exact Hck]. lia. }
  pose proof Hst as (Himg & _).
  assert (HMk : BLOCK_SIZE * (k + 1) <= Z.of_nat (length img)).
  { rewrite Himg. unfold MAX_FILE_SIZE. rewrite BLOCK_SIZE_eq. lia. }
  destruct (write_block_stored h k
              (patch (blk img k) (pos h mod BLOCK_SIZE) c1) nm w1 name f img
              wm (patch img (pos h) c1) Hb1 Hst Hk Hkw)
    as (w2 & f2 & Hwr & Hb2 & Hst2 & Hfds & Hnx & Hu).
  { rewrite length_patch; [exact Himg|lia|].
    rewrite BLOCK_SIZE_eq in *. lia. }
  { rewrite blk_patch_same; rewrite ?BLOCK_SIZE_eq in *; try lia.
    f_equal. lia. }
  { intros j Hj Hne. apply blk_patch_other; rewrite ?BLOCK_SIZE_eq in *;
      try lia. }
  rewrite Hwr. cbn [failed negb Z.eqb TEE_SUCCESS].
  rewrite (u32_id (remain - size)) by lia.
  destruct Hs1 as (Hs1a & Hs1b & Hs1c & Hs1d).
  destruct Hnext as [[Hz ->] | (Hrem & Hk1 & _ & Hn1)].
  - exists w2, f2, (toggle_backup_version_of_block nm k).
    cbn [out_of_place_write_loop].
    assert (Hsr : size = remain) by lia.
    assert (Hlast : (pos h + remain - 1) / 256 = k).
    { assert (pos h / 256 <= (pos h + remain - 1) / 256)
        by (apply Z.div_le_mono; lia). fold k in H. lia. }
    split; [rewrite Hsr; reflexivity|]. split; [exact Hb2|].
    split.
    { rewrite Hlast. unfold c1 in Hst2. rewrite Hsr in Hst2. exact Hst2. }
    repeat split; congruence.
  - destruct (IH buf TEE_SUCCESS (set_pos h (pos h + size)) (remain - size)
                (dptr + size) (patch (blk img k) (pos h mod BLOCK_SIZE) c1)
                (toggle_backup_version_of_block nm k) w2 f2
                (patch img (pos h) c1) (Z.max wm (k + 1)))
      as (w3 & f3 & nm3 & Hloop & Hb3 & Hst3 & Hlen3 & Hfek3 & Hfds3 & Hnx3
          & Hu3);
      cbn [pos set_pos meta fd]; try assumption; try lia.
    { intros j Hj. rewrite Hk1 in Hj.
      rewrite toggle_other by lia. apply Hbits. lia. }
    { rewrite length_patch;
        [rewrite (stores_blk_length _ _ _ _ k Hst Hk); lia|lia|].
      rewrite (stores_blk_length _ _ _ _ k Hst Hk). lia. }
    { apply chunk_ok_next. exact Hck. }
    exists w3, f3, nm3. cbn [pos set_pos meta fd] in Hloop, Hb3, Hst3.
    rewrite Hk1 in Hloop. rewrite Hloop.
    split.
    { rewrite set_pos_set_pos.
      replace (pos h + size + (remain - size)) with (pos h + remain) by lia.
      reflexivity. }
    split; [exact Hb3|].
    split.
    { assert (Himg3 : patch (patch img (pos h) c1) (pos h + size)
                        (chunk_of buf (dptr + size) (remain - size))
                      = patch img (pos h) (chunk_of buf dptr remain)).
      { rewrite <- (chunk_of_app buf dptr size remain) by lia. fold c1.
        rewrite <- patch_patch by lia. rewrite Hc1. reflexivity. }
      rewrite Himg3 in Hst3.
      replace (Z.max wm ((pos h + remain - 1) / 256 + 1))
        with (Z.max (Z.max wm (k + 1))
                ((pos h + size + (remain - size) - 1) / 256 + 1)).
      - exact Hst3.
      - replace (pos h + size + (remain - size) - 1)
          with (pos h + remain - 1) by lia.
        assert (k <= (pos h + remain - 1) / 256)
          by (apply Z.div_le_mono; lia).
        lia. }
    change (length_ (info (toggle_backup_version_of_block nm k)))
      with (length_ (info nm)) in Hlen3.
    change (encrypted_fek (toggle_backup_version_of_block nm k))
      with (encrypted_fek nm) in Hfek3.
    repeat split; congruence.
Qed.

End StoredLoops.

(** ** Reads, commits, creation and reopening of a stored image *)

Lemma rpc_open_create name w :
  faults w = [] ->
  exists w',
    tee_fs_rpc_open name true w = (TEE_SUCCESS, Some (ree_next_fd w), w')
    /\ backed w' (ree_next_fd w) name []
    /\ ree_fds w' = <[ree_next_fd w := name]> (ree_fds w)
    /\ ree_files w' = <[name := []]> (ree_files w)
    /\ ree_next_fd w' = ree_next_fd w + 1
    /\ session_uuid w' = session_uuid w.
Proof.
  intros Hf. unfold tee_fs_rpc_open.
  rewrite next_fault_reliable by exact Hf.
  cbn [failed negb Z.eqb TEE_SUCCESS fst snd].
  eexists. split; [reflexivity|]. split; [|repeat split].
  split; [exact Hf|]. apply (proj2 (file_of_inv _ _ name [])). cbn.
  split; apply lookup_insert_eq.
Qed.

Lemma backed_inj w d name f name' f' :
  backed w d name f -> backed w d name' f' -> name' = name /\ f' = f.
Proof.
  intros [_ H] [_ H']. rewrite H in H'. injection H' as <- <-. auto.
Qed.

Lemma set_pos_id h : set_pos h (pos h) = h.
Proof. destruct h. reflexivity. Qed.

Section StoredMeta.
Context {KM : KeyManager} {OK : KeyManagerOk KM}.

Lemma stores_info_wf f m img wm :
  stores f m img wm -> 0 <= length_ (info m) <= BLOCK_SIZE * wm ->
  info_wf (info m).
Proof.
  intros (_ & Htab & Hrng & _ & Hwm & _) Hl.
  pose proof blocks_bound. rewrite BLOCK_SIZE_eq in Hl.
  split; [lia|]. split; assumption.
Qed.

Lemma stores_length_bound f m img wm :
  stores f m img wm -> 0 <= length_ (info m) <= BLOCK_SIZE * wm ->
  0 <= length_ (info m) <= MAX_FILE_SIZE.
Proof.
  intros (_ & _ & _ & _ & Hwm & _) Hl. unfold MAX_FILE_SIZE.
  rewrite BLOCK_SIZE_eq in *. lia.
Qed.

(** The bytes a read returns and the cursor it leaves. *)
Lemma ree_fs_read_stored h len w name f img wm :
  backed w (fd h) name f -> stores f (meta h) img wm ->
  0 <= length_ (info (meta h)) <= BLOCK_SIZE * wm ->
  0 <= pos h -> 0 <= len < 2 ^ 32 ->
  let out := take (Z.to_nat len) (drop (Z.to_nat (pos h)) (contents h img)) in
  exists w',
    ree_fs_read h len w
    = (TEE_SUCCESS, out, Z.of_nat (length out),
       set_pos h (pos h + Z.of_nat (length out)), w')
    /\ backed w' (fd h) name f /\ same_store w w'.
Proof.
  intros Hb Hst Hl Hp Hlen out.
  pose proof (stores_length_bound _ _ _ _ Hst Hl) as HL.
  pose proof MAX_FILE_SIZE_bound as HM.
  pose proof Hst as (Himg & _).
  set (L := length_ (info (meta h))) in *.
  set (eff := if pos h >? L then 0 else Z.min len (L - pos h)).
  assert (Hout : out = take (Z.to_nat eff) (drop (Z.to_nat (pos h)) img)).
  { unfold out, contents, eff. fold L.
    destruct (Z.gtb_spec (pos h) L).
    - rewrite drop_ge by (rewrite length_take; lia). rewrite take_nil.
      reflexivity.
    - replace (drop (Z.to_nat (pos h)) (take (Z.to_nat L) img))
        with (take (Z.to_nat L - Z.to_nat (pos h))
                (drop (Z.to_nat (pos h)) img)).
      2:{ rewrite take_drop_commute. do 2 f_equal. lia. }
      rewrite take_take. f_equal. lia. }
  assert (Heff : Z.of_nat (length out) = eff).
  { rewrite Hout, length_take, length_drop. unfold eff.
    destruct (Z.gtb_spec (pos h) L); lia. }
  rewrite Heff. clearbody out. subst out.
  unfold ree_fs_read. cbv zeta. fold L.
  assert (Hcode : (if (pos h + len <? len) || (pos h >? L) then 0
                   else if pos h + len >? L then u32 (L - pos h) else len)
                  = eff).
  { unfold eff. destruct (Z.ltb_spec (pos h + len) len); [lia|].
    cbn [orb]. destruct (Z.gtb_spec (pos h) L); [reflexivity|].
    destruct (Z.gtb_spec (pos h + len) L).
    - rewrite u32_id by lia. lia.
    - lia. }
  rewrite !Hcode.
  assert (Heffr : 0 <= eff /\ (eff <> 0 -> pos h + eff <= L)).
  { unfold eff. destruct (Z.gtb_spec (pos h) L); lia. }
  clear Hcode. clearbody eff.
  destruct (Z.eqb_spec eff 0) as [Hz | Hnz].
  - exists w. rewrite Hz, Z.add_0_r, set_pos_id. cbn [Z.to_nat take].
    split; [reflexivity|]. split; [exact Hb|apply same_store_refl].
  - assert (Hrange : 0 < eff /\ pos h + eff <= L) by lia.
    assert (Hfits : pos h + eff <= MAX_FILE_SIZE) by lia.
    destruct (range_blocks (pos h) eff Hp ltac:(lia) Hfits)
      as (Hs & Hla & Hr & Hlt).
    cbv zeta in Hs, Hla. rewrite Hs, Hla.
    destruct (ree_fs_read_loop_stored name f img wm
                (Z.to_nat ((pos h + eff - 1) / 256 - pos h / 256 + 1))
                h eff (uninitialised BLOCK_SIZE w) [] w Hb Hst Hp)
      as (w' & Hloop & Hb' & Hs'); try lia.
    { rewrite length_uninitialised, BLOCK_SIZE_eq. lia. }
    exists w'. rewrite Hloop. cbn [app].
    split; [reflexivity|]. split; assumption.
Qed.

Lemma land_1_succ c : Z.land (u32 (c + 1)) 1 = 1 - Z.land c 1.
Proof.
  assert (H : forall x, Z.land x 1 = x mod 2)
    by (intros x; exact (Z.land_ones x 1 ltac:(lia))).
  rewrite !H. unfold u32. change (2 ^ 32) with 4294967296.
  Z.to_euclidean_division_equations. lia.
Qed.

Lemma stores_set_counter f m img wm c :
  stores f m img wm -> stores f (set_counter m c) img wm.
Proof. intros H. exact H. Qed.

Lemma stores_set_length f m img wm l :
  stores f m img wm -> stores f (set_length m l) img wm.
Proof. intros H. exact H. Qed.

Lemma meta_ciphertext_size (i : tee_fs_file_info) (fek ct : list byte) :
  length (backup_version_table i) = Z.to_nat (NUM_BLOCKS_PER_FILE / 32) ->
  tee_fs_encrypt_file META_FILE (info_to_bytes i) fek = (TEE_SUCCESS, ct) ->
  Z.of_nat (length ct) = sizeof_file_info + tee_fs_get_header_size META_FILE.
Proof.
  intros Ht Henc. apply km_encrypt_size in Henc.
  rewrite length_info_to_bytes in Henc by exact Ht. lia.
Qed.

(** A commit keeps the stored image and leaves a container that a reopen
    reads back. *)
Lemma commit_meta_file_stored h nm w name f img wm :
  backed w (fd h) name f -> stores f nm img wm ->
  let c' := u32 (meta_counter h + 1) in
  let h' := set_meta_counter (set_meta h (set_counter nm c')) c' in
  exists w' f',
    commit_meta_file h nm w = (TEE_SUCCESS, h', w')
    /\ backed w' (fd h) name f'
    /\ stores f' (meta h') img wm
    /\ committed f' h'
    /\ ree_fds w' = ree_fds w /\ ree_next_fd w' = ree_next_fd w
    /\ session_uuid w' = session_uuid w.
Proof.
  intros Hb Hst c' h'.
  pose proof Hst as (Himg & Htab & Hrng & Hfl & Hwm & Hlen & Hlow & Hhigh).
  pose proof meta_size_ge as Hms. pose proof meta_ciphertext_fits as Hfit.
  pose proof (km_header_size META_FILE) as Hhd.
  pose proof sizeof_file_info_ge as Hsi.
  pose proof block_size_raw_pos as HS.
  destruct (km_encrypt_ok META_FILE (info_to_bytes (info nm))
              (encrypted_fek nm) Hfl) as [ct Henc].
  pose proof (meta_ciphertext_size _ _ _ Htab Henc) as Hcl.
  set (s := meta_pos_raw h false).
  assert (Hs : s = 4 \/ s = 4 + meta_size).
  { unfold s. rewrite meta_pos_raw_eq. destruct (_ =? _); auto. }
  destruct (encrypt_and_write_file_backed h META_FILE s
              (info_to_bytes (info nm)) sizeof_file_info (encrypted_fek nm)
              w name f ct Hb ltac:(lia) Henc)
    as (w1 & Hw1 & Hb1 & Hfds1 & Hnx1 & Hu1).
  destruct (rpc_write_backed (fd h) (le32_encode c') 0 w1 name
              (pwrite f s ct) Hb1 ltac:(lia))
    as (w2 & Hw2 & Hb2 & Hfds2 & Hnx2 & Hu2).
  exists w2, (pwrite (pwrite f s ct) 0 (le32_encode c')).
  split.
  { rewrite commit_meta_file_eq. cbv zeta. unfold write_meta_file.
    fold s. fold c'.
    change (info (set_counter nm c')) with (info nm).
    change (encrypted_fek (set_counter nm c')) with (encrypted_fek nm).
    rewrite Hw1. cbn [failed negb Z.eqb TEE_SUCCESS].
    unfold write_meta_counter. fold h'.
    change (fd h') with (fd h). change (meta_counter h') with c'.
    rewrite Hw2. reflexivity. }
  split; [exact Hb2|].
  split.
  { change (meta h') with (set_counter nm c'). apply stores_set_counter.
    split; [exact Himg|]. split; [exact Htab|]. split; [exact Hrng|].
    split; [exact Hfl|]. split; [exact Hwm|].
    split.
    { rewrite !length_pwrite by lia. cbn [length le32_encode].
      unfold data_base in *. nia. }
    split; [|exact Hhigh].
    intros k Hk. destruct (Hlow k Hk) as (ctk & Henck & Hctk).
    exists ctk. split; [exact Henck|]. rewrite <- Hctk.
    assert (HkN : 0 <= k < NUM_BLOCKS_PER_FILE) by lia.
    pose proof (block_pos_raw_range nm k true HkN) as [Hlo _].
    rewrite pread_pwrite_above by (cbn [length le32_encode]; lia).
    apply pread_pwrite_above; lia. }
  split.
  { split.
    { rewrite length_pwrite by lia. cbn [length le32_encode]. lia. }
    split.
    { change (take 4 (pwrite (pwrite f s ct) 0 (le32_encode c')))
        with (pread (pwrite (pwrite f s ct) 0 (le32_encode c')) 0 4).
      rewrite pread_pwrite_same by reflexivity.
      rewrite le32_decode_encode. unfold c', u32.
      rewrite Z.mod_mod by lia. reflexivity. }
    exists ct. split; [exact Henc|].
    assert (Hact : meta_pos_raw h' true = s).
    { unfold s. rewrite meta_pos_raw_active, meta_pos_raw_shadow.
      change (meta_counter h') with c'. unfold c'.
      rewrite land_1_succ. reflexivity. }
    rewrite Hact.
    rewrite pread_pwrite_above by (cbn [length le32_encode]; lia).
    apply pread_pwrite_same. lia. }
  repeat split; congruence.
Qed.

(** Creation leaves a consistent, empty container. *)
Lemma create_stored name w fek :
  faults w = [] ->
  Z.of_nat (String.length name) + 1 <= TEE_FS_NAME_MAX ->
  tee_fs_generate_fek (session_uuid w) = (TEE_SUCCESS, fek) ->
  exists h w' f,
    ree_fs_create (Some name) w = (TEE_SUCCESS, Some h, w')
    /\ backed w' (fd h) name f
    /\ stores f (meta h) (zeros MAX_FILE_SIZE) 0
    /\ length_ (info (meta h)) = 0 /\ pos h = 0 /\ meta_counter h = 0
    /\ fd h = ree_next_fd w
    /\ ree_fds w' = <[ree_next_fd w := name]> (ree_fds w)
    /\ ree_next_fd w' = ree_next_fd w + 1
    /\ session_uuid w' = session_uuid w.
Proof.
  intros Hf Hname Hgen.
  pose proof meta_size_ge as Hms. pose proof meta_ciphertext_fits as Hfit.
  pose proof (km_header_size META_FILE) as Hhd.
  pose proof sizeof_file_info_ge as Hsi.
  pose proof MAX_FILE_SIZE_bound as HM. pose proof blocks_bound as HN.
  pose proof (km_generate_fek _ _ Hgen) as Hfl.
  set (ones := replicate (Z.to_nat (NUM_BLOCKS_PER_FILE / 32)) 0xffffffff).
  set (m := {| info := {| length_ := 0; backup_version_table := ones |};
               encrypted_fek := fek; counter := 0 |}).
  assert (Htab : length (backup_version_table (info m))
                 = Z.to_nat (NUM_BLOCKS_PER_FILE / 32))
    by apply length_replicate.
  destruct (rpc_open_create name w Hf)
    as (w1 & Ho & Hb1 & Hfds1 & Hfiles1 & Hnx1 & Hu1).
  set (d := ree_next_fd w) in *.
  set (h := {| meta_counter := 0; meta := m; pos := 0; flags := 0;
               is_new_file := false; fd := d |}).
  destruct (km_encrypt_ok META_FILE (info_to_bytes (info m)) fek Hfl)
    as [ct Henc].
  pose proof (meta_ciphertext_size _ _ _ Htab Henc) as Hcl.
  assert (Hs : meta_pos_raw h false = 4 + meta_size).
  { rewrite meta_pos_raw_eq. reflexivity. }
  assert (Hs0 : 0 <= 4 + meta_size) by lia.
  destruct (encrypt_and_write_file_backed h META_FILE (4 + meta_size)
              (info_to_bytes (info m)) sizeof_file_info fek
              w1 name [] ct Hb1 Hs0 Henc)
    as (w2 & Hw2 & Hb2 & Hfds2 & Hnx2 & Hu2).
  destruct (rpc_write_backed d (le32_encode 0) 0 w2 name
              (pwrite [] (4 + meta_size) ct) Hb2 ltac:(lia))
    as (w3 & Hw3 & Hb3 & Hfds3 & Hnx3 & Hu3).
  exists h, w3, (pwrite (pwrite [] (4 + meta_size) ct) 0 (le32_encode 0)).
  split.
  { unfold ree_fs_create, open_internal.
    destruct (Z.gtb_spec (Z.of_nat (String.length name) + 1) TEE_FS_NAME_MAX);
      [lia|].
    rewrite malloc_reliable by exact Hf. cbn [negb].
    unfold create_meta. rewrite Hgen.
    cbn [failed negb Z.eqb TEE_SUCCESS]. rewrite Ho.
    cbn [failed negb Z.eqb TEE_SUCCESS].
    cbn [meta set_meta set_fd set_length set_table set_counter zero_handle
         info backup_version_table counter meta_counter encrypted_fek
         length_ pos flags is_new_file fd].
    rewrite length_replicate. fold ones.
    repeat match goal with
           | |- context [write_meta_file ?hh ?mm _] =>
               progress (change hh with h; change mm with m)
           | |- context [write_meta_counter ?hh _] =>
               progress change hh with h
           end.
    unfold write_meta_file. rewrite Hs. change (info m) with (info m).
    change (encrypted_fek m) with fek. rewrite Hw2.
    cbn [failed negb Z.eqb TEE_SUCCESS].
    unfold write_meta_counter. change (fd h) with d.
    change (meta_counter h) with 0. rewrite Hw3. reflexivity. }
  split; [exact Hb3|].
  split.
  { split; [rewrite length_zeros; lia|]. split; [exact Htab|].
    split; [apply Forall_replicate; lia|]. split; [exact Hfl|].
    split; [lia|].
    split.
    { rewrite !length_pwrite by lia. cbn [length le32_encode].
      unfold data_base. lia. }
    split; [intros k Hk; lia|].
    intros k Hk. split; [apply all_ones_bit; [reflexivity|lia]|].
    apply blk_zeros; [lia|]. unfold MAX_FILE_SIZE.
    rewrite BLOCK_SIZE_eq. lia. }
  repeat split; congruence.
Qed.

(** Opening a committed container recovers the counter, the meta info and
    the FEK of the handle that committed it. *)
Lemma open_committed name w f h0 :
  faults w = [] -> ree_files w !! name = Some f ->
  Z.of_nat (String.length name) + 1 <= TEE_FS_NAME_MAX ->
  committed f h0 -> info_wf (info (meta h0)) ->
  let h' := {| meta_counter := meta_counter h0;
               meta := set_counter (meta h0) 0;
               pos := 0; flags := 0; is_new_file := false;
               fd := ree_next_fd w |} in
  exists w',
    ree_fs_open (Some name) w = (TEE_SUCCESS, Some h', w')
    /\ backed w' (ree_next_fd w) name f
    /\ ree_fds w' = <[ree_next_fd w := name]> (ree_fds w)
    /\ ree_files w' = ree_files w
    /\ ree_next_fd w' = ree_next_fd w + 1
    /\ session_uuid w' = session_uuid w.
Proof.
  intros Hf Hfile Hname (Hlen4 & Hcnt & ct & Henc & Hct) Hwf h'.
  pose proof Hwf as (Hl & Htab & Hrng).
  pose proof (km_header_size META_FILE) as Hhd.
  pose proof sizeof_file_info_ge as Hsi.
  pose proof meta_size_ge as Hms. pose proof meta_ciphertext_fits as Hfit.
  pose proof container_fits as Hcf. pose proof block_size_raw_pos as HS.
  pose proof blocks_bound as HN.
  pose proof (meta_ciphertext_size _ _ _ Htab Henc) as Hcl.
  destruct (rpc_open_existing name w f Hf Hfile)
    as (w1 & Ho & Hb1 & Hfds1 & Hfiles1 & Hnx1 & Hu1).
  set (d := ree_next_fd w) in *.
  destruct (rpc_read_backed d 4 0 w1 name f Hb1 ltac:(lia))
    as (w2 & Hr2 & Hb2 & Hs2).
  set (h1 := set_meta_counter (set_fd zero_handle d) (meta_counter h0)).
  assert (Hpos : meta_pos_raw h1 true = meta_pos_raw h0 true) by reflexivity.
  destruct (read_and_decrypt_file_backed h1 META_FILE (meta_pos_raw h0 true)
              (info_to_bytes (info (meta h1))) sizeof_file_info
              (encrypted_fek (meta h1)) w2 name f Hb2)
    as (w3 & Hb3 & Hs3 & Hrd); try lia.
  { rewrite meta_pos_raw_eq. destruct (_ =? _); lia. }
  exists w3. split.
  { unfold ree_fs_open, open_internal.
    destruct (Z.gtb_spec (Z.of_nat (String.length name) + 1) TEE_FS_NAME_MAX);
      [lia|].
    rewrite malloc_reliable by exact Hf. cbn [negb].
    unfold read_meta. rewrite Ho. cbn [failed negb Z.eqb TEE_SUCCESS].
    unfold read_meta_counter.
    cbn [fd set_fd]. rewrite Hr2. cbn [failed negb Z.eqb TEE_SUCCESS].
    assert (Hl4 : length (pread f 0 4) = 4%nat)
      by (rewrite length_pread; lia).
    rewrite Hl4. cbn [Nat.eqb negb].
    change (pread f 0 4) with (take 4 f). rewrite Hcnt.
    cbn [failed negb Z.eqb TEE_SUCCESS].
    change (set_meta_counter (set_fd (set_fd zero_handle (-1)) d)
              (meta_counter h0)) with h1.
    unfold read_meta_file. rewrite Hpos, Hrd. cbv zeta.
    rewrite Hct.
    destruct (Nat.eqb_spec (length ct) 0) as [H0 | _]; [lia|].
    rewrite (km_decrypt META_FILE (info_to_bytes (info (meta h0)))
               (encrypted_fek (meta h0)) ct sizeof_file_info
               (encrypted_fek (meta h1)) Henc)
      by (rewrite ?length_info_to_bytes by exact Htab; try lia;
          discriminate).
    cbn [failed negb Z.eqb TEE_SUCCESS].
    rewrite firstn_all2
      by (pose proof (length_info_to_bytes _ Htab); lia).
    rewrite overlay_full.
    2:{ pose proof (length_info_to_bytes _ Htab) as Ha.
        pose proof (length_info_to_bytes (info (meta h1))
                      ltac:(apply length_replicate)) as Hb'. lia. }
    rewrite info_of_to_bytes by exact Hwf. reflexivity. }
  split; [|repeat split; try congruence].
  - destruct Hb3 as [Hf3 Hfile3]. split; [exact Hf3|exact Hfile3].
  - destruct Hs2 as (? & ? & ? & ?). destruct Hs3 as (? & ? & ? & ?).
    congruence.
  - destruct Hs2 as (? & ? & ? & ?). destruct Hs3 as (? & ? & ? & ?).
    congruence.
  - destruct Hs2 as (? & ? & ? & ?). destruct Hs3 as (? & ? & ? & ?).
    congruence.
  - destruct Hs2 as (? & ? & ? & ?). destruct Hs3 as (? & ? & ? & ?).
    congruence.
Qed.

End StoredMeta.

(** ** Writes and truncations of a stored image *)

Section StoredFile.
Context {KM : KeyManager} {OK : KeyManagerOk KM}.

Lemma out_of_place_write_stored h buf len nm w name f img wm :
  backed w (fd h) name f -> stores f nm img wm ->
  (forall j, pos h / 256 <= j < NUM_BLOCKS_PER_FILE ->
     get_backup_version_of_block (meta h) j
     = get_backup_version_of_block nm j) ->
  encrypted_fek (meta h) = encrypted_fek nm ->
  0 <= pos h -> 0 < len -> pos h + len <= MAX_FILE_SIZE ->
  pos h / 256 <= wm -> chunk_ok buf 0 len ->
  exists w' f' nm',
    out_of_place_write h buf len nm w
    = (TEE_SUCCESS, set_pos h (pos h + len), nm', w')
    /\ backed w' (fd h) name f'
    /\ stores f' nm' (patch img (pos h) (chunk_of buf 0 len))
         (Z.max wm ((pos h + len - 1) / 256 + 1))
    /\ length_ (info nm') = Z.max (length_ (info nm)) (pos h + len)
    /\ encrypted_fek nm' = encrypted_fek nm
    /\ ree_fds w' = ree_fds w /\ ree_next_fd w' = ree_next_fd w
    /\ session_uuid w' = session_uuid w.
Proof.
  intros Hb Hst Hbits Hfek Hp Hlen Hmax Hkw Hck.
  pose proof MAX_FILE_SIZE_bound as HM.
  destruct (range_blocks (pos h) len Hp Hlen Hmax) as (Hs & Hla & Hr & Hlt).
  cbv zeta in Hs, Hla.
  destruct (out_of_place_write_loop_stored name
              (Z.to_nat ((pos h + len - 1) / 256 - pos h / 256 + 1))
              buf TEE_ERROR_GENERIC h len 0 (uninitialised BLOCK_SIZE w) nm w f img wm
              Hb Hst Hbits Hfek Hp Hmax Hkw Hlen)
    as (w' & f' & nm' & Hloop & Hb' & Hst' & Hlen' & Hfek' & Hrest);
    try lia; try assumption.
  { rewrite length_uninitialised, BLOCK_SIZE_eq. lia. }
  unfold out_of_place_write. cbv zeta. rewrite Hs, Hla, Hloop.
  cbn [andb pos set_pos failed negb Z.eqb TEE_SUCCESS].
  destruct (Z.gtb_spec (pos h + len) (length_ (info nm'))) as [Hgt | Hle].
  - exists w', f', (set_length nm' (u32 (pos h + len))).
    split; [reflexivity|]. split; [exact Hb'|].
    split; [apply stores_set_length; exact Hst'|].
    split; [cbn; rewrite u32_id by lia; lia|].
    split; [exact Hfek'|exact Hrest].
  - exists w', f', nm'.
    split; [reflexivity|]. split; [exact Hb'|]. split; [exact Hst'|].
    split; [lia|]. split; [exact Hfek'|exact Hrest].
Qed.

(** The image and the watermark after a range write that starts inside
    the file. *)
Lemma write_pass_bounds p len L wm :
  0 <= p <= L -> L <= 256 * wm -> 0 < len ->
  p / 256 <= wm
  /\ Z.max L (p + len) <= 256 * Z.max wm ((p + len - 1) / 256 + 1).
Proof.
  intros Hp HL Hlen. split.
  - apply Z.div_le_upper_bound; lia.
  - assert (p + len <= 256 * ((p + len - 1) / 256 + 1))
      by (Z.to_euclidean_division_equations; lia).
    lia.
Qed.

Lemma ftruncate_stored h n w name f img wm :
  backed w (fd h) name f -> stores f (meta h) img wm ->
  0 <= length_ (info (meta h)) <= BLOCK_SIZE * wm ->
  0 <= n <= MAX_FILE_SIZE ->
  let L := length_ (info (meta h)) in
  exists h' w' f' wm',
    ree_fs_ftruncate_internal h n w = (TEE_SUCCESS, h', w')
    /\ backed w' (fd h') name f'
    /\ stores f' (meta h')
         (if L <? n then patch img L (zeros (n - L)) else img) wm'
    /\ committed f' h'
    /\ length_ (info (meta h')) = n /\ n <= BLOCK_SIZE * wm'
    /\ pos h' = (if L <? n then s32 (pos h) else pos h)
    /\ fd h' = fd h
    /\ ree_fds w' = ree_fds w /\ ree_next_fd w' = ree_next_fd w
    /\ session_uuid w' = session_uuid w.
Proof.
  intros Hb Hst HL Hn L. fold L in HL.
  pose proof MAX_FILE_SIZE_bound as HM. rewrite BLOCK_SIZE_eq in *.
  unfold ree_fs_ftruncate_internal. fold L.
  destruct (Z.gtb_spec n MAX_FILE_SIZE); [lia|].
  rewrite (u32_id n) by lia.
  destruct (Z.gtb_spec n L) as [Hext | Hshr].
  - destruct (Z.ltb_spec L n); [|lia].
    rewrite (u32_id (n - L)) by lia.
    destruct (write_pass_bounds L (n - L) L wm ltac:(lia) ltac:(lia)
                ltac:(lia)) as [Hkw Hwm'].
    destruct (out_of_place_write_stored (set_pos h L) None (n - L)
                (set_length (meta h) n) w name f img wm Hb
                (stores_set_length _ _ _ _ n Hst))
      as (w1 & f1 & nm1 & Hw & Hb1 & Hst1 & Hlen1 & Hfek1 & Hfds1 & Hnx1
          & Hu1); cbn [pos set_pos meta chunk_ok]; try lia; auto.
    cbn [pos set_pos meta fd chunk_of] in Hw, Hb1, Hst1, Hlen1.
    rewrite Hw. cbn [failed negb Z.eqb TEE_SUCCESS].
    destruct (commit_meta_file_stored
                (set_pos (set_pos h (L + (n - L))) (s32 (pos h))) nm1 w1
                name f1 _ _ Hb1 Hst1)
      as (w2 & f2 & Hc & Hb2 & Hst2 & Hcm2 & Hfds2 & Hnx2 & Hu2).
    cbv zeta in Hc, Hst2, Hcm2.
    eexists _, w2, f2, _. split; [exact Hc|].
    split; [exact Hb2|]. split; [exact Hst2|]. split; [exact Hcm2|].
    cbn [meta set_meta set_meta_counter set_counter info length_ pos set_pos
         fd]. rewrite Hlen1. cbn [set_length info length_].
    replace (L + (n - L) - 1) with (n - 1) in * by lia.
    replace (L + (n - L)) with n in * by lia.
    split; [lia|]. split; [lia|].
    repeat split; congruence.
  - destruct (Z.ltb_spec L n); [lia|].
    destruct (commit_meta_file_stored h (set_length (meta h) n) w
                name f img wm Hb (stores_set_length _ _ _ _ n Hst))
      as (w2 & f2 & Hc & Hb2 & Hst2 & Hcm2 & Hfds2 & Hnx2 & Hu2).
    cbv zeta in Hc, Hst2, Hcm2.
    eexists _, w2, f2, wm. split; [exact Hc|].
    split; [exact Hb2|]. split; [exact Hst2|]. split; [exact Hcm2|].
    cbn [meta set_meta set_meta_counter set_counter set_length info length_
         pos fd].
    split; [reflexivity|]. split; [lia|].
    repeat split; congruence.
Qed.

(** The range write and the commit of a write that starts at or before
    the end of the file. *)
Lemma write_commit_stored h buf len w name f img wm :
  backed w (fd h) name f -> stores f (meta h) img wm ->
  0 <= length_ (info (meta h)) <= BLOCK_SIZE * wm ->
  0 <= pos h <= length_ (info (meta h)) ->
  0 < len -> pos h + len <= MAX_FILE_SIZE -> chunk_ok buf 0 len ->
  exists h' w' f' wm',
    (let '(res, fdp, new_meta, w1) :=
       out_of_place_write h buf len (meta h) w in
     if failed res then (res, fdp, w1)
     else commit_meta_file fdp new_meta w1) = (TEE_SUCCESS, h', w')
    /\ backed w' (fd h') name f'
    /\ stores f' (meta h') (patch img (pos h) (chunk_of buf 0 len)) wm'
    /\ committed f' h'
    /\ length_ (info (meta h'))
       = Z.max (length_ (info (meta h))) (pos h + len)
    /\ length_ (info (meta h')) <= BLOCK_SIZE * wm'
    /\ pos h' = pos h + len
    /\ fd h' = fd h
    /\ ree_fds w' = ree_fds w /\ ree_next_fd w' = ree_next_fd w
    /\ session_uuid w' = session_uuid w.
Proof.
  intros Hb Hst HL Hp Hlen Hmax Hck.
  pose proof MAX_FILE_SIZE_bound as HM. rewrite BLOCK_SIZE_eq in *.
  destruct (write_pass_bounds (pos h) len _ wm Hp ltac:(lia) Hlen)
    as [Hkw Hwm'].
  destruct (out_of_place_write_stored h buf len (meta h) w name f img wm
              Hb Hst (fun _ _ => eq_refl) eq_refl ltac:(lia) Hlen Hmax Hkw
              Hck)
    as (w1 & f1 & nm1 & Hw & Hb1 & Hst1 & Hlen1 & Hfek1 & Hfds1 & Hnx1
        & Hu1).
  rewrite Hw. cbn [failed negb Z.eqb TEE_SUCCESS].
  destruct (commit_meta_file_stored (set_pos h (pos h + len)) nm1 w1
              name f1 _ _ Hb1 Hst1)
    as (w2 & f2 & Hc & Hb2 & Hst2 & Hcm2 & Hfds2 & Hnx2 & Hu2).
  cbv zeta in Hc, Hst2, Hcm2.
  eexists _, w2, f2, _. split; [exact Hc|].
  split; [exact Hb2|]. split; [exact Hst2|]. split; [exact Hcm2|].
  cbn [meta set_meta set_meta_counter set_counter info length_ pos set_pos
       fd].
  split; [exact Hlen1|]. split; [lia|].
  repeat split; congruence.
Qed.

(** The image after a write: the gap between the end of the file and the
    cursor, if any, is filled with zeros. *)
Lemma ree_fs_write_stored h buf len w name f img wm :
  backed w (fd h) name f -> stores f (meta h) img wm ->
  0 <= length_ (info (meta h)) <= BLOCK_SIZE * wm ->
  0 <= pos h -> 0 < len -> pos h + len <= MAX_FILE_SIZE ->
  chunk_ok buf 0 len ->
  let L := length_ (info (meta h)) in
  let p0 := Z.min (pos h) L in
  exists h' w' f' wm',
    ree_fs_write h buf len w = (TEE_SUCCESS, h', w')
    /\ backed w' (fd h') name f'
    /\ stores f' (meta h')
         (patch img p0 (zeros (pos h - p0) ++ chunk_of buf 0 len)) wm'
    /\ committed f' h'
    /\ length_ (info (meta h')) = Z.max L (pos h + len)
    /\ length_ (info (meta h')) <= BLOCK_SIZE * wm'
    /\ pos h' = pos h + len
    /\ fd h' = fd h
    /\ ree_fds w' = ree_fds w /\ ree_next_fd w' = ree_next_fd w
    /\ session_uuid w' = session_uuid w.
Proof.
  intros Hb Hst HL Hp Hlen Hmax Hck L p0. fold L in HL.
  pose proof MAX_FILE_SIZE_bound as HM.
  pose proof Hst as (Himg & _).
  unfold ree_fs_write. fold L.
  destruct (Z.eqb_spec len 0); [lia|].
  destruct (Z.gtb_spec (pos h + len) MAX_FILE_SIZE); [lia|].
  destruct (Z.ltb_spec (pos h + len) len); [lia|].
  cbn [orb]. rewrite (u32_id (pos h)) by lia.
  destruct (Z.ltb_spec L (pos h)) as [Hext | Hin].
  - destruct (ftruncate_stored h (pos h) w name f img wm Hb Hst HL
                ltac:(lia))
      as (h1 & w1 & f1 & wm1 & Ht & Hb1 & Hst1 & _ & Hlen1 & Hwm1 & Hpos1
          & Hfd1 & Hfds1 & Hnx1 & Hu1).
    cbv zeta in Hst1, Hpos1. fold L in Hst1, Hpos1.
    destruct (Z.ltb_spec L (pos h)) as [_ | ?]; [|lia].
    rewrite s32_id in Hpos1 by lia.
    rewrite Ht. cbn [failed negb Z.eqb TEE_SUCCESS].
    destruct (write_commit_stored h1 buf len w1 name f1 _ wm1 Hb1 Hst1)
      as (h2 & w2 & f2 & wm2 & Hw & Hb2 & Hst2 & Hcm2 & Hlen2 & Hwm2
          & Hpos2 & Hfd2 & Hfds2 & Hnx2 & Hu2); try lia; try assumption.
    exists h2, w2, f2, wm2. split; [exact Hw|].
    split; [exact Hb2|].
    split.
    { unfold p0. rewrite Z.min_r by lia.
      rewrite <- patch_patch; rewrite ?length_zeros; try lia.
      replace (L + Z.of_nat (Z.to_nat (pos h - L))) with (pos h1) by lia.
      exact Hst2. }
    split; [exact Hcm2|]. split; [lia|]. split; [exact Hwm2|].
    split; [lia|]. repeat split; congruence.
  - cbn [failed negb Z.eqb TEE_SUCCESS].
    destruct (write_commit_stored h buf len w name f img wm Hb Hst HL)
      as (h2 & w2 & f2 & wm2 & Hw & Hb2 & Hst2 & Hrest);
      try lia; try assumption.
    exists h2, w2, f2, wm2. split; [exact Hw|].
    split; [exact Hb2|].
    split; [|exact Hrest].
    unfold p0. rewrite Z.min_l by lia.
    replace (pos h - pos h) with 0 by lia. exact Hst2.
Qed.

(** The contents of the file after a write, as a positional write on the
    contents before. *)
Lemma contents_after_write (img c : list byte) (p L : Z) :
  0 <= p -> 0 <= L <= Z.of_nat (length img) ->
  p + Z.of_nat (length c) <= Z.of_nat (length img) ->
  let p0 := Z.min p L in
  take (Z.to_nat (Z.max L (p + Z.of_nat (length c))))
    (patch img p0 (zeros (p - p0) ++ c))
  = pwrite (take (Z.to_nat L) img) p c.
Proof.
  intros Hp HL Hfit p0. unfold patch, pwrite.
  rewrite length_app, length_zeros, length_take.
  replace (Z.to_nat p0 + (Z.to_nat (p - p0) + length c))%nat
    with (Z.to_nat p + length c)%nat by lia.
  assert (Hhead : take (Z.to_nat p0) img ++ zeros (p - p0)
                  = take (Z.to_nat p)
                      (take (Z.to_nat L) img
                       ++ replicate
                            (Z.to_nat p - Nat.min (Z.to_nat L) (length img))
                            x00)).
  { unfold p0, zeros. destruct (Z.le_gt_cases p L).
    - rewrite Z.min_l by lia. replace (p - p) with 0 by lia.
      rewrite take_app_le by (rewrite length_take; lia).
      rewrite take_take, app_nil_r. f_equal. lia.
    - rewrite Z.min_r by lia.
      rewrite take_app_ge by (rewrite length_take; lia).
      rewrite length_take, take_replicate.
      do 2 f_equal. lia. }
  rewrite <- Hhead, <- !app_assoc.
  assert (Hl : length (take (Z.to_nat p0) img ++ zeros (p - p0))
               = Z.to_nat p).
  { rewrite length_app, length_take, length_zeros. unfold p0. lia. }
  rewrite (app_assoc (take (Z.to_nat p0) img)), (app_assoc _ c).
  rewrite take_app_ge by (rewrite length_app, Hl; lia).
  rewrite length_app, Hl, <- !app_assoc. do 3 f_equal.
  replace (drop (Z.to_nat p + length c) (take (Z.to_nat L) img))
    with (take (Z.to_nat L - (Z.to_nat p + length c))
            (drop (Z.to_nat p + length c) img)).
  2:{ destruct (decide (Z.to_nat p + length c <= Z.to_nat L)%nat).
      - rewrite take_drop_commute. do 2 f_equal. lia.
      - rewrite (drop_ge (take _ _)) by (rewrite length_take; lia).
        replace (Z.to_nat L - (Z.to_nat p + length c))%nat with 0%nat by lia.
        reflexivity. }
  f_equal. lia.
Qed.

End StoredFile.

(** ** The file behind a handle *)

Section Contents.
Context {KM : KeyManager} {OK : KeyManagerOk KM}.

Lemma durable_intro h w name f img wm :
  backed w (fd h) name f -> stores f (meta h) img wm ->
  0 <= length_ (info (meta h)) <= BLOCK_SIZE * wm ->
  committed f h -> durable h w name img.
Proof.
  intros Hb Hst Hl Hc. split; [exists f, wm; auto|exists f; auto].
Qed.

Lemma chunk_of_whole (data : list byte) :
  chunk_of (Some data) 0 (Z.of_nat (length data)) = data.
Proof.
  cbn [chunk_of]. rewrite Nat2Z.id. cbn [Z.to_nat drop].
  apply firstn_all.
Qed.

Lemma contents_after_truncate (img : list byte) (L n : Z) :
  0 <= L <= Z.of_nat (length img) -> 0 <= n <= Z.of_nat (length img) ->
  take (Z.to_nat n) (if L <? n then patch img L (zeros (n - L)) else img)
  = take (Z.to_nat n) (take (Z.to_nat L) img ++ zeros (n - L)).
Proof.
  intros HL Hn. destruct (Z.ltb_spec L n).
  - unfold patch. rewrite app_assoc.
    rewrite take_app_length'
      by (rewrite length_app, length_take, length_zeros; lia).
    symmetry. apply firstn_all2.
    rewrite length_app, length_take, length_zeros. lia.
  - unfold zeros. replace (Z.to_nat (n - L)) with 0%nat by lia.
    cbn [replicate]. rewrite app_nil_r, take_take. f_equal. lia.
Qed.

Lemma reopen_stored h w name f img wm :
  backed w (fd h) name f -> stores f (meta h) img wm ->
  0 <= length_ (info (meta h)) <= BLOCK_SIZE * wm -> committed f h ->
  Z.of_nat (String.length name) + 1 <= TEE_FS_NAME_MAX ->
  let h' := {| meta_counter := meta_counter h;
               meta := set_counter (meta h) 0;
               pos := 0; flags := 0; is_new_file := false;
               fd := ree_next_fd w |} in
  exists w',
    ree_fs_open (Some name) (ree_fs_close (Some h) w).2
    = (TEE_SUCCESS, Some h', w')
    /\ backed w' (fd h') name f
    /\ stores f (meta h') img wm
    /\ committed f h'.
Proof.
  intros Hb Hst Hl Hc Hname h'. destruct Hb as [Hf Hfile].
  apply file_of_inv in Hfile as [_ Hfile].
  destruct (open_committed name (tee_fs_rpc_close (fd h) w) f h
              Hf Hfile Hname Hc (stores_info_wf _ _ _ _ Hst Hl))
    as (w' & Ho & Hb' & _).
  exists w'. split; [exact Ho|]. split; [exact Hb'|].
  split; [exact Hst|exact Hc].
Qed.

End Contents.

(** The reference scenario: the created container is consistent, and after
    the write of three bytes it is durable with those bytes as contents. *)
Lemma RefKM_created_consistent :
  @consistent RefKM.km RefKM.created_handle RefKM.created_world
    "/obj/a"%string (zeros (@MAX_FILE_SIZE RefKM.km)).
Proof.
  destruct (@create_stored RefKM.km RefKM_contract "/obj/a"%string
              RefKM.empty_world [x01; x02; x03; x04])
    as (h & w' & f & Hc & Hb & Hst & Hlen & _).
  - reflexivity.
  - vm_compute. discriminate.
  - reflexivity.
  - assert (E : @ree_fs_create RefKM.km (Some "/obj/a"%string)
                  RefKM.empty_world
                = (TEE_SUCCESS, Some RefKM.created_handle,
                   RefKM.created_world)) by (vm_compute; reflexivity).
    revert E. generalize RefKM.created_handle, RefKM.created_world.
    intros hc wc E. rewrite E in Hc. injection Hc as -> ->. clear E.
    exists f, 0. split; [exact Hb|]. split; [exact Hst|].
    rewrite Hlen. lia.
Qed.

Lemma RefKM_written_durable :
  exists img,
    @durable RefKM.km RefKM.written.1.2 RefKM.written.2 "/obj/a"%string img
    /\ contents RefKM.written.1.2 img = [x01; x02; x03].
Proof.
  destruct RefKM_created_consistent as (f & wm & Hb & Hst & Hl).
  assert (Hp : 0 <= pos RefKM.created_handle) by (vm_compute; discriminate).
  assert (Hlen : 0 < 3) by lia.
  assert (Hmax : pos RefKM.created_handle + 3 <= @MAX_FILE_SIZE RefKM.km)
    by (vm_compute; discriminate).
  assert (Hck : chunk_ok (Some [x01; x02; x03]) 0 3) by (cbn; lia).
  destruct (@ree_fs_write_stored RefKM.km RefKM_contract RefKM.created_handle
              (Some [x01; x02; x03]) 3 RefKM.created_world "/obj/a"%string
              f _ wm Hb Hst Hl Hp Hlen Hmax Hck)
    as (h' & w' & f' & wm' & Hw & Hb' & Hst' & Hcm & Hlen' & Hwm' & _).
  assert (E : @ree_fs_write RefKM.km RefKM.created_handle
                (Some [x01; x02; x03]) 3 RefKM.created_world
              = (TEE_SUCCESS, RefKM.written.1.2, RefKM.written.2))
    by (vm_compute; reflexivity).
  revert E. generalize RefKM.written.1.2, RefKM.written.2. intros hw ww E.
  rewrite E in Hw. injection Hw as -> ->. clear E.
  eexists. split.
  - apply (@durable_intro RefKM.km h' w' "/obj/a"%string f'
             _ wm' Hb' Hst'); [|exact Hcm].
    split; [|exact Hwm']. rewrite Hlen'. vm_compute. discriminate.
  - unfold contents. rewrite Hlen'. vm_compute. reflexivity.
Qed.



(** X6: in an environment without injected failures, creating a container
    under a name of admissible length succeeds when the key manager hands
    out a FEK; the new handle is consistent with an all-zero image, the
    file is empty, the cursor and the counter are 0, and the descriptor is
    the one the transport handed out. *)
Theorem create_gives_empty_file (KM : KeyManager) (OK : KeyManagerOk KM)
    (name : string) (w : world) (fek : list byte) :
  faults w = [] ->
  Z.of_nat (String.length name) + 1 <= TEE_FS_NAME_MAX ->
  tee_fs_generate_fek (session_uuid w) = (TEE_SUCCESS, fek) ->
  exists h w',
    ree_fs_create (Some name) w = (TEE_SUCCESS, Some h, w')
    /\ consistent h w' name (zeros MAX_FILE_SIZE)
    /\ contents h (zeros MAX_FILE_SIZE) = []
    /\ pos h = 0 /\ meta_counter h = 0
    /\ fd h = ree_next_fd w
    /\ ree_fds w' = <[ree_next_fd w := name]> (ree_fds w).
Proof.
  intros Hf Hname Hgen.
  destruct (create_stored name w fek Hf Hname Hgen)
    as (h & w' & f & Hc & Hb & Hst & Hlen & Hpos & Hcnt & Hfd & Hfds & _).
  exists h, w'. split; [exact Hc|].
  split.
  { exists f, 0. split; [exact Hb|]. split; [exact Hst|].
    rewrite Hlen. lia. }
  split; [unfold contents; rewrite Hlen; reflexivity|].
  repeat split; assumption.
Qed.

Lemma create_gives_empty_file_witness :
  exists h w',
    @ree_fs_create RefKM.km (Some "/obj/a"%string) RefKM.empty_world
    = (TEE_SUCCESS, Some h, w')
    /\ contents h (zeros (@MAX_FILE_SIZE RefKM.km)) = []
    /\ fd h = 3.
Proof.
  destruct (create_gives_empty_file RefKM.km RefKM_contract "/obj/a"%string
              RefKM.empty_world [x01; x02; x03; x04])
    as (h & w' & Hc & _ & Hcont & _ & _ & Hfd & _).
  - reflexivity.
  - vm_compute. discriminate.
  - reflexivity.
  - exists h, w'. split; [exact Hc|]. split; [exact Hcont|exact Hfd].
Defined.





(** X4: a truncation through a consistent handle to a length within the
    maximal file size succeeds: a shorter file keeps its first bytes, a
    longer one is extended with zeros, and the handle is durable.  The
    cursor stays where it was when the file is not extended, and whenever
    it fits an [int]; an extension saves the cursor in an [int], so a
    cursor of [2^31] or more comes back wrapped into the range of
    [int]. *)
Theorem truncate_updates_contents (KM : KeyManager) (OK : KeyManagerOk KM)
    (h : tee_fs_fd) (n : Z) (w : world) (name : string) (img : list byte) :
  consistent h w name img -> 0 <= n <= MAX_FILE_SIZE ->
  exists h' w' img',
    ree_fs_truncate h n w = (TEE_SUCCESS, h', w')
    /\ durable h' w' name img'
    /\ contents h' img'
       = take (Z.to_nat n)
           (contents h img ++ zeros (n - length_ (info (meta h))))
    /\ pos h' = (if length_ (info (meta h)) <? n then s32 (pos h)
                 else pos h)
    /\ (n <= length_ (info (meta h)) \/ - 2 ^ 31 <= pos h < 2 ^ 31 ->
        pos h' = pos h)
    /\ fd h' = fd h /\ ree_fds w' = ree_fds w.
Proof.
  intros (f & wm & Hb & Hst & Hl) Hn.
  pose proof (stores_length_bound _ _ _ _ Hst Hl) as HL.
  pose proof Hst as (Himg & _).
  destruct (ftruncate_stored h n w name f img wm Hb Hst Hl Hn)
    as (h' & w' & f' & wm' & Ht & Hb' & Hst' & Hcm & Hlen' & Hwm' & Hpos'
        & Hfd' & Hfds' & _).
  cbv zeta in Hst', Hpos'.
  eexists h', w', _. split; [exact Ht|].
  split; [eapply durable_intro; try eassumption; lia|].
  split.
  { unfold contents. rewrite Hlen'. apply contents_after_truncate; lia. }
  split; [exact Hpos'|]. split; [|split; assumption].
  intros Hkeep. rewrite Hpos'.
  destruct (Z.ltb_spec (length_ (info (meta h))) n); [|reflexivity].
  apply s32_id. lia.
Qed.

(** The written container, three bytes long, truncated to five bytes with
    the cursor at 3. *)
Lemma truncate_updates_contents_witness :
  exists h' w' img',
    @ree_fs_truncate RefKM.km RefKM.written.1.2 5 RefKM.written.2
    = (TEE_SUCCESS, h', w')
    /\ contents h' img' = [x01; x02; x03; x00; x00]
    /\ pos h' = 3.
Proof.
  destruct RefKM_written_durable as (img & [Hc _] & Hcont).
  assert (Hn : 0 <= 5 <= @MAX_FILE_SIZE RefKM.km)
    by (vm_compute; split; discriminate).
  assert (Hp : pos RefKM.written.1.2 = 3) by (vm_compute; reflexivity).
  assert (Hl : length_ (info (meta RefKM.written.1.2)) = 3)
    by (vm_compute; reflexivity).
  generalize dependent RefKM.written.1.2. intros h Hc Hcont Hp Hl.
  destruct (truncate_updates_contents RefKM.km RefKM_contract
              h 5 RefKM.written.2 "/obj/a"%string img
              Hc Hn) as (h' & w' & img' & Ht & _ & Hcont' & _ & Hpos & _).
  exists h', w', img'. split; [exact Ht|]. split.
  - rewrite Hcont', Hcont, Hl. vm_compute. reflexivity.
  - rewrite Hpos by lia. exact Hp.
Defined.

(** X5: closing a durable handle and opening the container again succeeds and
    gives a durable handle on the same contents, with the same counter and
    the cursor at 0. *)
Theorem reopen_preserves_contents (KM : KeyManager) (OK : KeyManagerOk KM)
    (h : tee_fs_fd) (w : world) (name : string) (img : list byte) :
  durable h w name img ->
  Z.of_nat (String.length name) + 1 <= TEE_FS_NAME_MAX ->
  exists h' w',
    ree_fs_open (Some name) (ree_fs_close (Some h) w).2
    = (TEE_SUCCESS, Some h', w')
    /\ durable h' w' name img
    /\ contents h' img = contents h img
    /\ pos h' = 0 /\ meta_counter h' = meta_counter h.
Proof.
  intros [(f & wm & Hb & Hst & Hl) (f' & Hb' & Hcm)] Hname.
  destruct (backed_inj _ _ _ _ _ _ Hb Hb') as [_ ->].
  destruct (reopen_stored h w name f img wm Hb Hst Hl Hcm Hname)
    as (w' & Ho & Hb2 & Hst2 & Hcm2).
  cbv zeta in Ho, Hb2, Hst2, Hcm2.
  eexists _, w'. split; [exact Ho|].
  split; [eapply durable_intro; try eassumption; exact Hl|].
  repeat split.
Qed.

Lemma reopen_preserves_contents_witness :
  exists h' w' img,
    @ree_fs_open RefKM.km (Some "/obj/a"%string)
      (ree_fs_close (Some RefKM.written.1.2) RefKM.written.2).2
    = (TEE_SUCCESS, Some h', w')
    /\ contents h' img = [x01; x02; x03]
    /\ meta_counter h' = 1.
Proof.
  destruct RefKM_written_durable as (img & Hd & Hcont).
  assert (Hname : Z.of_nat (String.length "/obj/a") + 1
                  <= @TEE_FS_NAME_MAX RefKM.km) by (vm_compute; discriminate).
  assert (Hc1 : meta_counter RefKM.written.1.2 = 1)
    by (vm_compute; reflexivity).
  generalize dependent RefKM.written.1.2. intros h Hd Hcont Hc1.
  destruct (reopen_preserves_contents RefKM.km RefKM_contract
              h RefKM.written.2 "/obj/a"%string img
              Hd Hname) as (h' & w' & Ho & _ & Hcont' & _ & Hcnt).
  exists h', w', img. split; [exact Ho|]. split.
  - rewrite Hcont'. exact Hcont.
  - rewrite Hcnt. exact Hc1.
Defined.

(** X1: the round trip through the REE: in an environment without injected
    failures, a container that is created, written with a non-empty buffer
    of at most the maximal file size, closed and opened again reads back
    exactly the buffer. *)
Theorem create_write_reopen_read (KM : KeyManager) (OK : KeyManagerOk KM)
    (name : string) (data : list byte) (w : world) (fek : list byte) :
  faults w = [] ->
  Z.of_nat (String.length name) + 1 <= TEE_FS_NAME_MAX ->
  tee_fs_generate_fek (session_uuid w) = (TEE_SUCCESS, fek) ->
  data <> [] -> Z.of_nat (length data) <= MAX_FILE_SIZE ->
  exists h1 w1 h2 w2 h3 w3 h4 w4,
    ree_fs_create (Some name) w = (TEE_SUCCESS, Some h1, w1)
    /\ ree_fs_write h1 (Some data) (Z.of_nat (length data)) w1
       = (TEE_SUCCESS, h2, w2)
    /\ ree_fs_open (Some name) (ree_fs_close (Some h2) w2).2
       = (TEE_SUCCESS, Some h3, w3)
    /\ ree_fs_read h3 (Z.of_nat (length data)) w3
       = (TEE_SUCCESS, data, Z.of_nat (length data), h4, w4).
Proof.
  intros Hf Hname Hgen Hne Hmax.
  pose proof MAX_FILE_SIZE_bound as HM.
  assert (Hlen : 0 < Z.of_nat (length data)) by (destruct data; cbn; [congruence|lia]).
  destruct (create_stored name w fek Hf Hname Hgen)
    as (h1 & w1 & f1 & Hc & Hb1 & Hst1 & Hlen1 & Hpos1 & _).
  pose proof Hst1 as (Himg & _).
  destruct (ree_fs_write_stored h1 (Some data) (Z.of_nat (length data)) w1
              name f1 _ 0 Hb1 Hst1)
    as (h2 & w2 & f2 & wm2 & Hw & Hb2 & Hst2 & Hcm2 & Hlen2 & Hwm2 & Hpos2
        & _); try (rewrite ?Hlen1, ?Hpos1; cbn; lia).
  cbv zeta in Hst2. rewrite chunk_of_whole in Hst2.
  rewrite Hlen1, Hpos1 in *.
  change (Z.min 0 0) with 0 in Hst2. change (0 - 0) with 0 in Hst2.
  assert (Hl2 : 0 <= length_ (info (meta h2)) <= BLOCK_SIZE * wm2) by lia.
  destruct (reopen_stored h2 w2 name f2 _ wm2 Hb2 Hst2 Hl2 Hcm2 Hname)
    as (w3 & Ho & Hb3 & Hst3 & _).
  cbv zeta in Ho, Hb3, Hst3.
  match type of Ho with _ = (_, Some ?hh, _) => set (h3 := hh) in * end.
  destruct (ree_fs_read_stored h3 (Z.of_nat (length data)) w3 name f2 _ wm2
              Hb3 Hst3 Hl2)
    as (w4 & Hr & _); [cbn; lia|lia|].
  cbv zeta in Hr.
  assert (Hout : take (Z.to_nat (Z.of_nat (length data)))
                   (drop (Z.to_nat (pos h3))
                      (contents h3 (patch (zeros MAX_FILE_SIZE) 0
                                      (zeros 0 ++ data))))
                 = data).
  { unfold contents. change (length_ (info (meta h3)))
      with (length_ (info (meta h2))).
    rewrite Hlen2. change (pos h3) with 0.
    assert (H0 : 0 <= 0 <= Z.of_nat (length (zeros MAX_FILE_SIZE))) by lia.
    assert (H1 : 0 + Z.of_nat (length data)
                 <= Z.of_nat (length (zeros MAX_FILE_SIZE))) by lia.
    pose proof (contents_after_write (zeros MAX_FILE_SIZE) data 0 0
                  ltac:(lia) H0 H1) as Hcw.
    cbv zeta in Hcw. change (Z.min 0 0) with 0 in Hcw.
    change (0 - 0) with 0 in Hcw. rewrite Hcw.
    unfold pwrite. change (Z.to_nat 0) with 0%nat.
    rewrite !take_0, drop_0, drop_nil, app_nil_r, Nat2Z.id.
    apply firstn_all. }
  rewrite Hout in Hr.
  exists h1, w1, h2, w2, h3, w3. eexists _, w4.
  split; [exact Hc|]. split; [exact Hw|]. split; [exact Ho|exact Hr].
Qed.

Lemma create_write_reopen_read_witness :
  exists h1 w1 h2 w2 h3 w3 h4 w4,
    @ree_fs_create RefKM.km (Some "/obj/a"%string) RefKM.empty_world
    = (TEE_SUCCESS, Some h1, w1)
    /\ @ree_fs_write RefKM.km h1 (Some [x01; x02; x03]) 3 w1
       = (TEE_SUCCESS, h2, w2)
    /\ @ree_fs_open RefKM.km (Some "/obj/a"%string)
         (ree_fs_close (Some h2) w2).2
       = (TEE_SUCCESS, Some h3, w3)
    /\ @ree_fs_read RefKM.km h3 3 w3
       = (TEE_SUCCESS, [x01; x02; x03], 3, h4, w4).
Proof.
  assert (Hname : Z.of_nat (String.length "/obj/a") + 1
                  <= @TEE_FS_NAME_MAX RefKM.km) by (vm_compute; discriminate).
  assert (Hne : [x01; x02; x03] <> []) by discriminate.
  assert (Hmax : Z.of_nat (length [x01; x02; x03])
                 <= @MAX_FILE_SIZE RefKM.km) by (vm_compute; discriminate).
  exact (create_write_reopen_read RefKM.km RefKM_contract "/obj/a"%string
           [x01; x02; x03] RefKM.empty_world [x01; x02; x03; x04]
           eq_refl Hname eq_refl Hne Hmax).
Defined.

(** ** What a read leaves alone *)

Section ReadOnly.
Context {KM : KeyManager}.

Lemma read_block_events fdp bnum data w res data' w' :
  read_block fdp bnum data w = (res, data', w') ->
  exists evs,
    rpc_log w' = rpc_log w ++ evs /\ Forall (read_event (fd fdp)) evs.
Proof.
  intros H. apply read_block_spec in H as (_ & [Hl | [r Hl]]).
  - exists []. rewrite app_nil_r. split; [exact Hl|constructor].
  - eexists. split; [exact Hl|]. constructor; [reflexivity|constructor].
Qed.

Lemma ree_fs_read_loop_events n :
  forall fdp start remain block out w res out' fdp' w',
    ree_fs_read_loop n fdp start remain block out w = (res, out', fdp', w') ->
    exists evs,
      rpc_log w' = rpc_log w ++ evs /\ Forall (read_event (fd fdp)) evs.
Proof.
  induction n as [|n IH]; intros fdp start remain block out w res out' fdp' w'.
  - cbn. intros [= _ _ _ <-]. exists []. rewrite app_nil_r.
    split; [reflexivity|constructor].
  - cbn [ree_fs_read_loop]. cbv zeta.
    destruct (read_block fdp start block w) as [[r b] w1] eqn:Er.
    apply read_block_events in Er as (evs1 & Hl1 & Hf1).
    destruct (failed r).
    + intros [= _ _ _ <-]. exists evs1. split; assumption.
    + intros Hloop. apply IH in Hloop as (evs2 & Hl2 & Hf2).
      cbn [fd set_pos] in Hf2.
      exists (evs1 ++ evs2). split.
      * rewrite Hl2, Hl1, app_assoc. reflexivity.
      * apply Forall_app. split; assumption.
Qed.

End ReadOnly.

(** X10: a read, whatever its outcome and whatever failures the environment
    injects, is read-only: it leaves the files, the descriptors, the meta,
    the counter and the descriptor of the handle as they were, every RPC it
    issues is a read on the descriptor of the handle, and it never reports
    [TEE_ERROR_MAC_INVALID]. *)
Theorem read_is_read_only (KM : KeyManager)
    (fdp : tee_fs_fd) (len : Z) (w : world)
    (res : TEE_Result) (out : list byte) (len' : Z) (fdp' : tee_fs_fd)
    (w' : world) :
  ree_fs_read fdp len w = (res, out, len', fdp', w') ->
  same_store w w'
  /\ Forall (read_event (fd fdp)) (new_events w w')
  /\ meta fdp' = meta fdp /\ meta_counter fdp' = meta_counter fdp
  /\ fd fdp' = fd fdp
  /\ res <> TEE_ERROR_MAC_INVALID.
Proof.
  intros H. pose proof (ree_fs_read_frame _ _ _ _ _ _ _ _ H)
    as (Hm & Hc & Hd & Hs & Hr).
  split; [exact Hs|]. split; [|auto].
  unfold ree_fs_read in H. cbv zeta in H.
  match type of H with context [if ?c =? 0 then _ else _] =>
    destruct (c =? 0) end.
  - injection H as _ _ _ _ <-. unfold new_events. rewrite drop_all.
    constructor.
  - destruct (ree_fs_read_loop _ _ _ _ _ _ _) as [[[r o] f] w1] eqn:E.
    injection H as _ _ _ _ <-.
    apply ree_fs_read_loop_events in E as (evs & Hl & Hf).
    rewrite (new_events_app _ _ _ Hl). exact Hf.
Qed.

Lemma read_is_read_only_witness :
  exists res out len' fdp' w',
    @ree_fs_read RefKM.km RefKM.rewound_handle 3 RefKM.written.2
    = (res, out, len', fdp', w')
    /\ ree_files w' = ree_files RefKM.written.2
    /\ meta fdp' = meta RefKM.rewound_handle.
Proof.
  destruct (@ree_fs_read RefKM.km RefKM.rewound_handle 3 RefKM.written.2)
    as [[[[res out] len'] fdp'] w'] eqn:E.
  destruct (read_is_read_only RefKM.km RefKM.rewound_handle 3
              RefKM.written.2 res out len' fdp' w' E)
    as ((Hfiles & _) & _ & Hm & _).
  exists res, out, len', fdp', w'.
  split; [reflexivity|]. split; [exact Hfiles|exact Hm].
Defined.

(** ** Out-of-place writes spare the live data *)

Section Shadow.
Context {KM : KeyManager} {OK : KeyManagerOk KM}.

Lemma spared_refl m f : spared m f f.
Proof. split; [lia|]. split; intros; reflexivity. Qed.

Lemma read_block_short fdp bnum data w res data' w' :
  read_block fdp bnum data w = (res, data', w') ->
  (length data <= 256)%nat -> (length data' <= 256)%nat.
Proof.
  unfold read_block. cbv zeta.
  destruct (malloc block_size_raw w) as [p w1].
  destruct p; cbn [negb]; [|intros [= _ <- _]; trivial].
  destruct (tee_fs_rpc_read _ _ _ w1) as [[r ct] w2].
  destruct (failed r); [intros [= _ <- _]; trivial|].
  destruct (length ct =? 0)%nat.
  { intros [= _ <- _] _. rewrite length_zeros, BLOCK_SIZE_eq. lia. }
  destruct (tee_fs_decrypt_file _ _ _ _) as [[r' pt] fk].
  intros [= _ <- _] H. rewrite length_overlay, length_take.
  rewrite BLOCK_SIZE_eq. lia.
Qed.

Lemma length_chunk_of_le buf dptr size :
  0 <= size -> Z.of_nat (length (chunk_of buf dptr size)) <= size.
Proof.
  intros Hs. destruct buf as [data|]; cbn [chunk_of].
  - rewrite length_take. lia.
  - rewrite length_zeros. lia.
Qed.

Lemma length_patch_le (b : list byte) o (c : list byte) :
  0 <= o -> (length b <= 256)%nat -> o + Z.of_nat (length c) <= 256 ->
  (length (patch b o c) <= 256)%nat.
Proof.
  intros Ho Hb Hc. unfold patch.
  rewrite !length_app, length_take, length_drop. lia.
Qed.

(** One successful block write keeps what is spared. *)
Lemma spared_write_block m nm f fc k (ct : list byte) :
  spared m f fc -> 0 <= k < NUM_BLOCKS_PER_FILE ->
  get_backup_version_of_block nm k = get_backup_version_of_block m k ->
  Z.of_nat (length ct) <= block_size_raw ->
  spared m f (pwrite fc (block_pos_raw nm k false) ct).
Proof.
  intros (Hlen & Hlow & Hact) Hk Hbit Hct.
  pose proof block_size_raw_pos as HS. pose proof meta_size_ge as Hms.
  pose proof (block_pos_raw_eq nm k false Hk) as Ho.
  pose proof (slot_bit_cases nm k false) as Hsb.
  fold data_base in Ho.
  set (o := block_pos_raw nm k false) in *.
  assert (Ho0 : data_base <= o) by (unfold data_base in *; nia).
  assert (Hdb : 0 <= data_base) by (unfold data_base; lia).
  split; [rewrite length_pwrite by lia; lia|]. split.
  - intros o' n Ho' Hn Hb Hin.
    rewrite pread_pwrite_below by lia. apply Hlow; assumption.
  - intros j Hj Hin.
    pose proof (block_pos_raw_eq m j true Hj) as Hoj.
    pose proof (slot_bit_cases m j true) as Hsbj.
    fold data_base in Hoj.
    rewrite <- (Hact j Hj Hin).
    assert (Hdis : block_pos_raw m j true + block_size_raw <= o
                   \/ o + block_size_raw <= block_pos_raw m j true).
    { destruct (Z.lt_trichotomy j k) as [Hlt | [-> | Hgt]].
      - left. nia.
      - unfold slot_bit in Ho, Hoj. rewrite Hbit in Ho.
        destruct (get_backup_version_of_block m k); cbn in Ho, Hoj;
          [right|left]; lia.
      - right. nia. }
    destruct Hdis as [Hd | Hd].
    + apply pread_pwrite_below; lia.
    + apply pread_pwrite_above; lia.
Qed.

Lemma out_of_place_write_loop_spared name f m n :
  forall buf res h remain dptr block nm w fc completed res' h' nm' w',
    file_of w (fd h) = Some (name, fc) -> spared m f fc ->
    (forall j, pos h / 256 <= j < NUM_BLOCKS_PER_FILE ->
       get_backup_version_of_block nm j = get_backup_version_of_block m j) ->
    0 <= pos h -> pos h + remain <= MAX_FILE_SIZE -> 0 < remain ->
    Z.of_nat n = (pos h + remain - 1) / 256 - pos h / 256 + 1 ->
    (length block <= 256)%nat ->
    out_of_place_write_loop n buf res h (pos h / 256) remain dptr block nm w
    = (completed, res', h', nm', w') ->
    exists f', file_of w' (fd h) = Some (name, f') /\ spared m f f'.
Proof.
  induction n as [|n IH];
    intros buf res h remain dptr block nm w fc completed res' h' nm' w'
      Hfile Hsp Hbits Hp Hmax Hr Hn Hbl.
  { exfalso. assert (pos h / 256 <= (pos h + remain - 1) / 256)
      by (apply Z.div_le_mono; lia). lia. }
  pose proof MAX_FILE_SIZE_bound as HM. pose proof blocks_bound as HN.
  cbn [out_of_place_write_loop]. cbv zeta.
  rewrite (write_chunk_size (pos h) remain Hp ltac:(lia)).
  rewrite (write_offset _ Hp).
  destruct (chunk_step (pos h) remain n Hp Hr Hn)
    as (Hsz & Hfit & _ & _ & Hnext).
  pose proof (block_of_pos _ _ Hp Hr Hmax) as Hk.
  pose proof (mod_block_range (pos h)) as Ho.
  set (size := chunk_size (pos h) remain) in *.
  set (k := pos h / 256) in *.
  destruct (read_block h k block w) as [[r b] w1] eqn:Er.
  pose proof (read_block_short _ _ _ _ _ _ _ Er Hbl) as Hb1.
  apply read_block_spec in Er as (Hs1 & _).
  assert (Hfile1 : file_of w1 (fd h) = Some (name, fc))
    by (rewrite (same_store_file_of _ _ _ Hs1); exact Hfile).
  destruct (negb (r =? TEE_ERROR_ITEM_NOT_FOUND) && failed r).
  { intros [= _ _ _ _ <-]. exists fc. split; assumption. }
  rewrite (u32_id k) by lia.
  match goal with
  | |- context [write_block h k ?blk nm w1] => set (b' := blk)
  end.
  assert (Hb' : (length b' <= 256)%nat).
  { unfold b'. apply length_patch_le; [lia| |].
    - destruct (r =? TEE_ERROR_ITEM_NOT_FOUND); [|exact Hb1].
      rewrite length_zeros, BLOCK_SIZE_eq. lia.
    - pose proof (length_chunk_of_le buf dptr size ltac:(lia)). lia. }
  destruct (write_block h k b' nm w1) as [[r2 nm2] w2] eqn:Ew.
  apply write_block_spec in Ew. cbv zeta in Ew.
  destruct Ew as (Hfds2 & _ & _ & Hfail & Hok).
  destruct (failed r2) eqn:Hf2.
  { intros [= _ _ _ _ <-]. apply failed_true in Hf2.
    destruct (Hfail Hf2) as (_ & Hfiles & _).
    exists fc. split; [|exact Hsp].
    rewrite (file_of_same w1 w2) by assumption. exact Hfile1. }
  apply failed_false in Hf2.
  destruct (Hok Hf2) as (Hnm2 & ct & name' & f1 & Henc & Hfile' & Hfiles & _).
  rewrite Hfile1 in Hfile'. injection Hfile' as <- <-.
  assert (Hfile2 : file_of w2 (fd h)
                   = Some (name, pwrite fc (block_pos_raw nm k false) ct))
    by (eapply file_of_update; eassumption).
  assert (Hsp2 : spared m f (pwrite fc (block_pos_raw nm k false) ct)).
  { apply spared_write_block; try assumption.
    - apply Hbits. lia.
    - apply km_encrypt_size in Henc. rewrite block_size_raw_eq, BLOCK_SIZE_eq.
      lia. }
  rewrite (u32_id (remain - size)) by lia.
  destruct Hnext as [[Hz ->] | (Hrem & Hk1 & _ & Hn1)].
  - cbn [out_of_place_write_loop]. intros [= _ _ _ _ <-].
    eexists. split; [exact Hfile2|exact Hsp2].
  - intros Hloop. rewrite <- Hk1 in Hloop.
    eapply (IH buf r2 (set_pos h (pos h + size))) in Hloop;
      cbn [pos set_pos fd]; try eassumption; try lia.
    intros j Hj. rewrite Hk1 in Hj. rewrite Hnm2.
    rewrite toggle_other by lia. apply Hbits. lia.
Qed.

Lemma out_of_place_write_spared h buf len nm w name f res h' nm' w' :
  file_of w (fd h) = Some (name, f) ->
  0 <= pos h -> 0 < len -> pos h + len <= MAX_FILE_SIZE ->
  out_of_place_write h buf len nm w = (res, h', nm', w') ->
  exists f', file_of w' (fd h) = Some (name, f') /\ spared nm f f'.
Proof.
  intros Hfile Hp Hlen Hmax. unfold out_of_place_write. cbv zeta.
  destruct (range_blocks (pos h) len Hp Hlen Hmax) as (Hs & Hla & Hr & Hlt).
  cbv zeta in Hs, Hla. rewrite Hs, Hla.
  destruct (out_of_place_write_loop _ _ _ _ _ _ _ _ _ _)
    as [[[[completed r] h1] nm1] w1] eqn:Eloop.
  intros [= _ _ _ <-].
  eapply (out_of_place_write_loop_spared name f nm) in Eloop;
    try eassumption; try lia.
  - apply spared_refl.
  - intros j _. reflexivity.
  - rewrite length_uninitialised, BLOCK_SIZE_eq. lia.
Qed.

Lemma committed_spared m f f' h :
  spared m f f' -> committed f h ->
  length (backup_version_table (info (meta h)))
  = Z.to_nat (NUM_BLOCKS_PER_FILE / 32) ->
  committed f' h.
Proof.
  intros (Hlen & Hlow & _) (H4 & Hcnt & ct & Henc & Hct) Htab.
  pose proof (meta_ciphertext_size _ _ _ Htab Henc) as Hcl.
  pose proof meta_ciphertext_fits as Hfit. pose proof meta_size_ge as Hms.
  pose proof (km_header_size META_FILE) as Hhd.
  pose proof sizeof_file_info_ge as Hsi.
  assert (Ha : meta_pos_raw h true = 4 \/ meta_pos_raw h true = 4 + meta_size).
  { rewrite meta_pos_raw_eq. destruct (_ =? _); auto. }
  assert (Hin : meta_pos_raw h true
                + (sizeof_file_info + tee_fs_get_header_size META_FILE)
                <= Z.of_nat (length f)).
  { apply pread_full_inv; [lia|lia|]. rewrite Hct. exact Hcl. }
  split; [lia|]. split.
  - change (take 4 f') with (pread f' 0 4).
    rewrite Hlow by (unfold data_base; lia). exact Hcnt.
  - exists ct. split; [exact Henc|].
    rewrite Hlow by (unfold data_base; lia). exact Hct.
Qed.

End Shadow.

(** X9: the range writer is out of place: whatever failures the environment
    injects and whether the write succeeds or not, the container afterwards
    is at least as long as before, and the bytes before the first block
    slot -- the counter and the two meta slots -- and the active slot of
    every block under the bitmap the write started from are what they were,
    as far as they lay within the file. *)
Theorem range_write_spares_live_data (KM : KeyManager) (OK : KeyManagerOk KM)
    (h : tee_fs_fd) (buf : option (list byte)) (len : Z)
    (nm : tee_fs_file_meta) (w : world) (name : string) (f : list byte)
    (res : TEE_Result) (h' : tee_fs_fd) (nm' : tee_fs_file_meta)
    (w' : world) :
  file_of w (fd h) = Some (name, f) ->
  0 <= pos h -> 0 < len -> pos h + len <= MAX_FILE_SIZE ->
  out_of_place_write h buf len nm w = (res, h', nm', w') ->
  exists f', file_of w' (fd h) = Some (name, f') /\ spared nm f f'.
Proof. apply out_of_place_write_spared. Qed.

Lemma range_write_spares_live_data_witness :
  exists res h' nm' w' f',
    @out_of_place_write RefKM.km RefKM.written.1.2 (Some [x07]) 1
      (meta RefKM.written.1.2) RefKM.written.2 = (res, h', nm', w')
    /\ file_of w' 3 = Some ("/obj/a"%string, f')
    /\ pread f' 0 4 = [x01; x00; x00; x00].
Proof.
  destruct (@out_of_place_write RefKM.km RefKM.written.1.2 (Some [x07]) 1
              (meta RefKM.written.1.2) RefKM.written.2)
    as [[[res h'] nm'] w'] eqn:E.
  assert (Hfile : exists f,
             file_of RefKM.written.2 (fd RefKM.written.1.2)
             = Some ("/obj/a"%string, f)
             /\ pread f 0 4 = [x01; x00; x00; x00]
             /\ 4 <= Z.of_nat (length f)).
  { eexists. split; [vm_compute; reflexivity|].
    split; [vm_compute; reflexivity|vm_compute; discriminate]. }
  destruct Hfile as (f & Hfile & Hcnt & Hl4).
  assert (Hp : 0 <= pos RefKM.written.1.2) by (vm_compute; discriminate).
  assert (Hmax : pos RefKM.written.1.2 + 1 <= @MAX_FILE_SIZE RefKM.km)
    by (vm_compute; discriminate).
  assert (Hfd : fd RefKM.written.1.2 = 3) by (vm_compute; reflexivity).
  assert (Hbase : 0 + 4 <= @data_base RefKM.km) by (vm_compute; discriminate).
  revert E Hfile Hp Hmax Hfd.
  generalize RefKM.written.1.2, RefKM.written.2. intros h w E Hfile Hp Hmax Hfd.
  destruct (range_write_spares_live_data RefKM.km RefKM_contract h
              (Some [x07]) 1 (meta h) w "/obj/a"%string f res h' nm' w'
              Hfile Hp ltac:(lia) Hmax E) as (f' & Hfile' & _ & Hlow & _).
  exists res, h', nm', w', f'. split; [reflexivity|].
  rewrite <- Hfd. split; [exact Hfile'|].
  rewrite (Hlow 0 4) by lia. exact Hcnt.
Defined.

(** ** Opening and creating: outcomes and cleanup *)

Lemma rpc_open_store name create w res d w' :
  tee_fs_rpc_open name create w = (res, d, w') ->
  (res = TEE_SUCCESS ->
   d = Some (ree_next_fd w)
   /\ ree_fds w' = <[ree_next_fd w := name]> (ree_fds w)
   /\ ree_next_fd w' = ree_next_fd w + 1
   /\ (create = false -> ree_files w' = ree_files w))
  /\ (res <> TEE_SUCCESS ->
      d = None /\ ree_fds w' = ree_fds w /\ ree_files w' = ree_files w
      /\ ree_next_fd w' = ree_next_fd w).
Proof.
  unfold tee_fs_rpc_open. destruct (next_fault w) as [r w1] eqn:E.
  apply next_fault_spec in E as ((Hfi & Hfd & Hnx & _) & _ & _).
  destruct (failed r) eqn:Hr.
  { intros [= <- <- <-]. cbn. apply failed_true in Hr.
    split; [intros; contradiction|]. intros _. auto. }
  destruct create.
  - intros [= <- <- <-]. cbn. rewrite Hfd, Hnx.
    split; [intros _; repeat split; discriminate|].
    intros Hne. exfalso. apply Hne. reflexivity.
  - destruct (ree_files w1 !! name).
    + intros [= <- <- <-]. cbn. rewrite Hfd, Hnx, Hfi.
      split; [intros _; repeat split|].
      intros Hne. exfalso. apply Hne. reflexivity.
    + intros [= <- <- <-]. cbn.
      split; [intros Habs; vm_compute in Habs; discriminate Habs|].
      intros _. auto.
Qed.

Lemma rpc_remove_fds name w res w' :
  tee_fs_rpc_remove name w = (res, w') ->
  ree_fds w' = ree_fds w /\ ree_next_fd w' = ree_next_fd w.
Proof.
  unfold tee_fs_rpc_remove. destruct (next_fault w) as [r w1] eqn:E.
  apply next_fault_spec in E as ((Hfi & Hfd & Hnx & _) & _ & _).
  destruct (failed r); [intros [= _ <-]; cbn; auto|].
  destruct (ree_files w1 !! name); intros [= _ <-]; cbn; auto.
Qed.

Section OpenOutcome.
Context {KM : KeyManager}.

Lemma read_meta_counter_frame fdp w res fdp' w' :
  read_meta_counter fdp w = (res, fdp', w') ->
  same_store w w' /\ fd fdp' = fd fdp /\ pos fdp' = pos fdp.
Proof.
  unfold read_meta_counter.
  destruct (tee_fs_rpc_read _ _ _ w) as [[r data] w1] eqn:Er.
  apply rpc_read_spec in Er as (Hs & _).
  destruct (failed r); [intros [= _ <- <-]; auto|].
  destruct (negb _); intros [= _ <- <-]; auto.
Qed.

Lemma read_meta_file_frame fdp m w res m' w' :
  read_meta_file fdp m w = (res, m', w') -> same_store w w'.
Proof.
  unfold read_meta_file, read_and_decrypt_file. cbv zeta.
  destruct (malloc _ w) as [p w1] eqn:Em.
  apply malloc_spec in Em as (Hs1 & _).
  destruct p; cbn [negb]; [|intros [= _ _ <-]; exact Hs1].
  destruct (tee_fs_rpc_read _ _ _ w1) as [[r ct] w2] eqn:Er.
  apply rpc_read_spec in Er as (Hs2 & _).
  assert (Hs : same_store w w2) by (eapply same_store_trans; eassumption).
  destruct (failed r); [intros [= _ _ <-]; exact Hs|].
  destruct (length ct =? 0)%nat; [intros [= _ _ <-]; exact Hs|].
  destruct (tee_fs_decrypt_file _ _ _ _) as [[r' pt] fk].
  intros [= _ _ <-]. exact Hs.
Qed.

(** After [read_meta], either the RPC open failed and nothing changed, or
    the descriptor the transport handed out is in the handle and in the
    table of open descriptors. *)
Lemma read_meta_store fdp name w res fdp' w' :
  read_meta fdp name w = (res, fdp', w') ->
  ree_files w' = ree_files w /\ pos fdp' = pos fdp
  /\ ((res <> TEE_SUCCESS /\ fd fdp' = fd fdp /\ ree_fds w' = ree_fds w)
      \/ (fd fdp' = ree_next_fd w
          /\ ree_fds w' = <[ree_next_fd w := name]> (ree_fds w))).
Proof.
  unfold read_meta.
  destruct (tee_fs_rpc_open name false w) as [[r d] w1] eqn:Eo.
  apply rpc_open_store in Eo as [Hok Hfail].
  destruct (failed r) eqn:Hr.
  { apply failed_true in Hr. destruct (Hfail Hr) as (-> & Hfds & Hfiles & _).
    intros [= <- <- <-]. split; [exact Hfiles|]. split; [reflexivity|].
    left. auto. }
  apply failed_false in Hr.
  destruct (Hok Hr) as (-> & Hfds & _ & Hfiles). specialize (Hfiles eq_refl).
  destruct (read_meta_counter _ w1) as [[r2 fdp2] w2] eqn:Ec.
  apply read_meta_counter_frame in Ec
    as ((Hfi2 & Hfd2 & _) & Hd2 & Hp2).
  cbn [fd set_fd pos] in Hd2, Hp2.
  destruct (failed r2).
  { intros [= _ <- <-]. rewrite Hfi2, Hfd2. split; [exact Hfiles|].
    split; [exact Hp2|]. right. auto. }
  destruct (read_meta_file fdp2 (meta fdp2) w2) as [[r3 m3] w3] eqn:Ef.
  apply read_meta_file_frame in Ef as (Hfi3 & Hfd3 & _).
  intros [= _ <- <-]. cbn [fd set_meta pos].
  rewrite Hfi3, Hfd3, Hfi2, Hfd2. split; [exact Hfiles|].
  split; [exact Hp2|]. right. auto.
Qed.

Lemma create_meta_store fdp name w res fdp' w' :
  create_meta fdp name w = (res, fdp', w') ->
  pos fdp' = pos fdp
  /\ ((res <> TEE_SUCCESS /\ fd fdp' = fd fdp /\ ree_fds w' = ree_fds w)
      \/ (fd fdp' = ree_next_fd w
          /\ ree_fds w' = <[ree_next_fd w := name]> (ree_fds w))).
Proof.
  unfold create_meta.
  destruct (tee_fs_generate_fek (session_uuid w)) as [r fek].
  destruct (failed r) eqn:Hr.
  { apply failed_true in Hr. intros [= <- <- <-].
    split; [reflexivity|]. left. auto. }
  destruct (tee_fs_rpc_open name true w) as [[r1 d] w1] eqn:Eo.
  apply rpc_open_store in Eo as [Hok Hfail].
  destruct (failed r1) eqn:Hr1.
  { apply failed_true in Hr1. destruct (Hfail Hr1) as (-> & Hfds & _).
    intros [= <- <- <-]. split; [reflexivity|]. left. auto. }
  apply failed_false in Hr1.
  destruct (Hok Hr1) as (-> & Hfds & _). cbv beta iota.
  match goal with
  | |- context [write_meta_file ?h _ w1] => set (h0 := h)
  end.
  destruct (write_meta_file h0 (meta h0) w1) as [r2 w2] eqn:Ew.
  unfold write_meta_file in Ew.
  apply encrypt_and_write_file_spec in Ew as (Hfds2 & _).
  destruct (failed r2).
  { intros [= _ <- <-]. split; [reflexivity|]. right.
    split; [reflexivity|congruence]. }
  destruct (write_meta_counter h0 w2) as [r3 w3] eqn:Ewc.
  apply write_meta_counter_spec in Ewc as (Hfds3 & _).
  intros [= _ <- <-]. split; [reflexivity|]. right.
  split; [reflexivity|congruence].
Qed.

End OpenOutcome.

(** X11: opening or creating a container either succeeds with a handle whose
    cursor is 0 and whose descriptor is the fresh one the transport handed
    out, now in the table of open descriptors, or fails without a handle
    and with the table of open descriptors as it was -- a descriptor
    obtained on the way is closed again -- whatever failures the
    environment injects.  A failed open leaves the files untouched as
    well; a missing or overlong name fails with [TEE_ERROR_BAD_PARAMETERS]
    before anything else happens. *)
Theorem open_outcome (KM : KeyManager) (file : option string)
    (create : bool) (w : world) (res : TEE_Result)
    (oh : option tee_fs_fd) (w' : world) :
  fds_fresh w ->
  open_internal file create w = (res, oh, w') ->
  (res = TEE_SUCCESS ->
   exists h name,
     file = Some name /\ oh = Some h
     /\ Z.of_nat (String.length name) + 1 <= TEE_FS_NAME_MAX
     /\ pos h = 0 /\ fd h = ree_next_fd w
     /\ ree_fds w' = <[ree_next_fd w := name]> (ree_fds w))
  /\ (res <> TEE_SUCCESS ->
      oh = None /\ ree_fds w' = ree_fds w
      /\ (create = false -> ree_files w' = ree_files w))
  /\ (file = None
      \/ (exists name, file = Some name
          /\ TEE_FS_NAME_MAX < Z.of_nat (String.length name) + 1) ->
      res = TEE_ERROR_BAD_PARAMETERS /\ w' = w).
Proof.
  intros [Hnn Hfresh]. unfold open_internal.
  assert (Hbad : TEE_ERROR_BAD_PARAMETERS <> TEE_SUCCESS) by discriminate.
  assert (Hoom : TEE_ERROR_OUT_OF_MEMORY <> TEE_SUCCESS) by discriminate.
  destruct file as [name|].
  2:{ intros [= <- <- <-]. split; [intros; contradiction|].
      split; [auto|]. auto. }
  destruct (Z.gtb_spec (Z.of_nat (String.length name) + 1) TEE_FS_NAME_MAX)
    as [Hlong | Hshort].
  { intros [= <- <- <-]. split; [intros; contradiction|].
    split; [auto|]. auto. }
  assert (Hnobad : Some name = None
                   \/ (exists n, Some name = Some n
                       /\ TEE_FS_NAME_MAX < Z.of_nat (String.length n) + 1)
                   -> False).
  { intros [[=] | (n & [= <-] & Hn)]. lia. }
  destruct (malloc 0 w) as [p w0] eqn:Em.
  apply malloc_spec in Em as ((Hfi0 & Hfd0 & Hnx0 & _) & _ & _).
  destruct p; cbn [negb].
  2:{ intros [= <- <- <-]. split; [intros; contradiction|].
      split; [auto|]. intros H. destruct (Hnobad H). }
  assert (Hclose : forall w1 fdp1,
             fd fdp1 = ree_next_fd w0 ->
             ree_fds w1 = <[ree_next_fd w0 := name]> (ree_fds w0) ->
             ree_fds (if negb (fd fdp1 =? -1)
                      then tee_fs_rpc_close (fd fdp1) w1 else w1)
             = ree_fds w
             /\ ree_files (if negb (fd fdp1 =? -1)
                           then tee_fs_rpc_close (fd fdp1) w1 else w1)
                = ree_files w1).
  { intros w1 fdp1 Hd Hfds. rewrite Hd.
    destruct (Z.eqb_spec (ree_next_fd w0) (-1)) as [He | _]; [lia|].
    cbn. rewrite Hfds, Hfd0, Hnx0. split; [|reflexivity].
    apply close_after_open. apply Hfresh. lia. }
  destruct create.
  - destruct (create_meta _ name w0) as [[r fdp1] w1] eqn:Ec.
    apply create_meta_store in Ec as (Hp1 & Hcase).
    destruct (Z.eqb_spec r TEE_SUCCESS) as [-> | Hne].
    + intros [= <- <- <-]. split.
      * intros _. exists fdp1, name.
        destruct Hcase as [(Habs & _) | (Hd & Hfds)]; [contradiction|].
        rewrite Hd, Hfds, Hfd0, Hnx0. repeat split; try lia. exact Hp1.
      * split; [intros; contradiction|]. intros H. destruct (Hnobad H).
    + intros [= <- <- <-]. split; [intros; contradiction|]. split.
      * intros _. split; [reflexivity|]. split; [|discriminate].
        match goal with
        | |- ree_fds (tee_fs_rpc_remove name ?ww).2 = _ =>
            destruct (tee_fs_rpc_remove name ww) as [rr wr] eqn:Er;
            apply rpc_remove_fds in Er as [Er _]; cbn [snd]; rewrite Er
        end.
        destruct Hcase as [(_ & Hd & Hfds) | (Hd & Hfds)].
        -- rewrite Hd. cbn. rewrite Hfds. exact Hfd0.
        -- apply (Hclose w1 fdp1 Hd Hfds).
      * intros H. destruct (Hnobad H).
  - destruct (read_meta _ name w0) as [[r fdp1] w1] eqn:Ec.
    apply read_meta_store in Ec as (Hfiles1 & Hp1 & Hcase).
    destruct (Z.eqb_spec r TEE_SUCCESS) as [-> | Hne].
    + intros [= <- <- <-]. split.
      * intros _. exists fdp1, name.
        destruct Hcase as [(Habs & _) | (Hd & Hfds)]; [contradiction|].
        rewrite Hd, Hfds, Hfd0, Hnx0. repeat split; try lia. exact Hp1.
      * split; [intros; contradiction|]. intros H. destruct (Hnobad H).
    + intros [= <- <- <-]. split; [intros; contradiction|]. split.
      * intros _. split; [reflexivity|].
        destruct Hcase as [(_ & Hd & Hfds) | (Hd & Hfds)].
        -- rewrite Hd. cbn. rewrite Hfds, Hfiles1. auto.
        -- destruct (Hclose w1 fdp1 Hd Hfds) as [Ha Hb].
           split; [exact Ha|]. intros _. rewrite Hb, Hfiles1. exact Hfi0.
      * intros H. destruct (Hnobad H).
Qed.

Lemma open_outcome_witness :
  exists w',
    @ree_fs_open RefKM.km (Some "/obj/missing"%string) RefKM.empty_world
    = (TEE_ERROR_ITEM_NOT_FOUND, None, w')
    /\ ree_fds w' = ree_fds RefKM.empty_world
    /\ ree_files w' = ree_files RefKM.empty_world.
Proof.
  destruct (@ree_fs_open RefKM.km (Some "/obj/missing"%string)
              RefKM.empty_world) as [[res oh] w'] eqn:E.
  assert (Hres : res = TEE_ERROR_ITEM_NOT_FOUND).
  { change res with (res, oh, w').1.1. rewrite <- E. vm_compute.
    reflexivity. }
  assert (Hfresh : fds_fresh RefKM.empty_world).
  { split; [vm_compute; discriminate|]. intros d _. apply lookup_empty. }
  destruct (open_outcome RefKM.km (Some "/obj/missing"%string) false
              RefKM.empty_world res oh w' Hfresh E) as (_ & Hfail & _).
  destruct Hfail as (-> & Hfds & Hfiles).
  { rewrite Hres. discriminate. }
  exists w'. rewrite Hres. split; [reflexivity|].
  split; [exact Hfds|exact (Hfiles eq_refl)].
Defined.

(** X12: a create that fails removes the REE file of that name: when the key
    manager refuses to hand out a FEK, nothing has been opened or written
    yet, and still a container that existed under the name is gone
    afterwards. *)
Theorem failed_create_removes_file (KM : KeyManager) (name : string)
    (w : world) (r : TEE_Result) (fek : list byte) :
  faults w = [] ->
  Z.of_nat (String.length name) + 1 <= TEE_FS_NAME_MAX ->
  tee_fs_generate_fek (session_uuid w) = (r, fek) -> r <> TEE_SUCCESS ->
  exists w',
    ree_fs_create (Some name) w = (r, None, w')
    /\ ree_files w' = delete name (ree_files w)
    /\ ree_fds w' = ree_fds w
    /\ new_events w w'
       = [RpcRemove name
            (if bool_decide (is_Some (ree_files w !! name))
             then TEE_SUCCESS else TEE_ERROR_ITEM_NOT_FOUND)].
Proof.
  intros Hf Hname Hgen Hr.
  unfold ree_fs_create, open_internal.
  destruct (Z.gtb_spec (Z.of_nat (String.length name) + 1) TEE_FS_NAME_MAX);
    [lia|].
  rewrite malloc_reliable by exact Hf. cbn [negb].
  unfold create_meta. rewrite Hgen.
  apply failed_true in Hr as Hfr. rewrite Hfr.
  destruct (Z.eqb_spec r TEE_SUCCESS) as [|_]; [contradiction|].
  cbn [fd set_meta set_fd zero_handle]. cbn [Z.eqb negb].
  unfold tee_fs_rpc_remove. rewrite next_fault_reliable by exact Hf.
  cbn [failed negb Z.eqb TEE_SUCCESS].
  destruct (ree_files w !! name) as [f|] eqn:Hfile.
  - eexists. split; [reflexivity|]. cbn. rewrite Hfile. cbn.
    split; [reflexivity|]. split; [reflexivity|].
    unfold new_events. cbn. rewrite drop_app_length.
    reflexivity.
  - eexists. split; [reflexivity|]. cbn. rewrite Hfile. cbn.
    split; [symmetry; apply delete_id; exact Hfile|].
    split; [reflexivity|].
    unfold new_events. cbn. rewrite drop_app_length.
    reflexivity.
Qed.

Lemma failed_create_removes_file_witness :
  exists w',
    @ree_fs_create RefKM.locked_km (Some "/obj/a"%string) RefKM.created_world
    = (TEE_ERROR_GENERIC, None, w')
    /\ ree_files w' = delete "/obj/a"%string (ree_files RefKM.created_world)
    /\ ree_files w' !! "/obj/a"%string = None.
Proof.
  assert (Hf : faults RefKM.created_world = []) by (vm_compute; reflexivity).
  assert (Hname : Z.of_nat (String.length "/obj/a") + 1
                  <= @TEE_FS_NAME_MAX RefKM.locked_km)
    by (vm_compute; discriminate).
  assert (Hr : TEE_ERROR_GENERIC <> TEE_SUCCESS) by discriminate.
  revert Hf. generalize RefKM.created_world. intros w Hf.
  destruct (failed_create_removes_file RefKM.locked_km "/obj/a"%string
              w TEE_ERROR_GENERIC [] Hf Hname eq_refl Hr)
    as (w' & Hc & Hfiles & _).
  exists w'. split; [exact Hc|]. split; [exact Hfiles|].
  rewrite Hfiles. apply lookup_delete_eq.
Defined.

(** X21: what opening a damaged container does, in an environment without
    injected failures.  A container that is shorter than its 4-byte
    counter, and a container whose meta slot selected by the counter holds
    at least one byte and is not accepted by the key manager, fail to open
    with [TEE_ERROR_CORRUPT_OBJECT], whatever error the key manager
    reported: no handle is returned, the descriptor is closed again and the
    files are untouched.  A container that ends at or before the meta slot
    its counter selects is not detected: the read of the slot yields no
    byte, the open succeeds, and the handle has the counter found on disk
    and the all-zero meta it was allocated with (length 0, an all-zero
    bitmap and an all-zero FEK). *)
Theorem open_of_damaged_container (KM : KeyManager)
    (OK : KeyManagerOk KM) (name : string) (w : world) (f : list byte) :
  faults w = [] -> fds_fresh w -> ree_files w !! name = Some f ->
  Z.of_nat (String.length name) + 1 <= TEE_FS_NAME_MAX ->
  let c := le32_decode (take 4 f) in
  let slot := meta_slot_offset (Z.land c 1) in
  let ct := pread f slot
              (sizeof_file_info + tee_fs_get_header_size META_FILE) in
  ((length f < 4)%nat
   \/ ((4 <= length f)%nat /\ slot < Z.of_nat (length f)
       /\ (tee_fs_decrypt_file META_FILE ct sizeof_file_info
             (zeros TEE_FS_KM_FEK_SIZE)).1.1 <> TEE_SUCCESS) ->
   exists w',
     ree_fs_open (Some name) w = (TEE_ERROR_CORRUPT_OBJECT, None, w')
     /\ ree_fds w' = ree_fds w /\ ree_files w' = ree_files w)
  /\ ((4 <= length f)%nat /\ Z.of_nat (length f) <= slot ->
      exists h w',
        ree_fs_open (Some name) w = (TEE_SUCCESS, Some h, w')
        /\ meta_counter h = c
        /\ info (meta h) = info (meta zero_handle)
        /\ length_ (info (meta h)) = 0
        /\ encrypted_fek (meta h) = zeros TEE_FS_KM_FEK_SIZE
        /\ fd h = ree_next_fd w
        /\ ree_files w' = ree_files w).
Proof.
  intros Hf [Hnn Hfresh] Hfile Hname c slot ct.
  pose proof meta_ciphertext_fits as Hfit.
  pose proof (km_header_size META_FILE) as Hhd.
  pose proof sizeof_file_info_ge as Hsi.
  pose proof meta_size_ge as Hms. pose proof container_fits as Hcf.
  pose proof block_size_raw_pos as HS. pose proof blocks_bound as HN.
  destruct (rpc_open_existing name w f Hf Hfile)
    as (w1 & Ho & Hb1 & Hfds1 & Hfiles1 & Hnx1 & Hu1).
  set (d := ree_next_fd w) in *.
  destruct (rpc_read_backed d 4 0 w1 name f Hb1 ltac:(lia))
    as (w2 & Hr2 & Hb2 & (Hfi2 & Hfd2 & _)).
  assert (Hdne : (d =? -1) = false) by (apply Z.eqb_neq; lia).
  assert (Hclosed : forall w3, ree_fds w3 = ree_fds w2 ->
            ree_files w3 = ree_files w2 ->
            ree_fds (tee_fs_rpc_close d w3) = ree_fds w
            /\ ree_files (tee_fs_rpc_close d w3) = ree_files w).
  { intros w3 Hfd3 Hfi3. cbn. rewrite Hfd3, Hfd2, Hfds1, Hfi3, Hfi2, Hfiles1.
    split; [|reflexivity]. apply close_after_open. apply Hfresh.
    unfold d. lia. }
  assert (Hslot : 4 <= slot <= 4 + meta_size).
  { unfold slot, meta_slot_offset.
    destruct (land_1_cases c) as [-> | ->]; lia. }
  set (h1 := set_meta_counter (set_fd (set_fd zero_handle (-1)) d) c).
  assert (Hpos : meta_pos_raw h1 true = slot) by apply meta_pos_raw_active.
  (* the counter and the meta slot, once the container has four bytes *)
  assert (Hlong : (4 <= length f)%nat ->
            exists w3,
              ree_fds w3 = ree_fds w2 /\ ree_files w3 = ree_files w2
              /\ ree_fs_open (Some name) w
                 = let '(res, m, w) :=
                     (let '(res, data_out, fek, w) :=
                        (if (length ct =? 0)%nat
                         then (TEE_SUCCESS,
                               info_to_bytes (info (meta h1)),
                               encrypted_fek (meta h1), w3)
                         else
                           let '(res, pt, fek') :=
                             tee_fs_decrypt_file META_FILE ct
                               sizeof_file_info (encrypted_fek (meta h1)) in
                           ((if failed res then TEE_ERROR_CORRUPT_OBJECT
                             else res),
                            overlay (take (Z.to_nat sizeof_file_info) pt)
                              (info_to_bytes (info (meta h1))), fek', w3)) in
                      (res,
                       {| info := info_of_bytes data_out;
                          encrypted_fek := fek;
                          counter := counter (meta h1) |}, w)) in
                   if res =? TEE_SUCCESS then (res, Some (set_meta h1 m), w)
                   else (res, None, tee_fs_rpc_close d w)).
  { intros Hl4.
    assert (Hl : length (pread f 0 4) = 4%nat)
      by (rewrite length_pread; lia).
    destruct (read_and_decrypt_file_backed h1 META_FILE
                (meta_pos_raw h1 true) (info_to_bytes (info (meta h1)))
                sizeof_file_info (encrypted_fek (meta h1)) w2 name f Hb2)
      as (w3 & Hb3 & (Hfi3 & Hfd3 & _) & Hrd); try lia.
    exists w3. split; [exact Hfd3|]. split; [exact Hfi3|].
    unfold ree_fs_open, open_internal.
    destruct (Z.gtb_spec (Z.of_nat (String.length name) + 1)
                TEE_FS_NAME_MAX); [lia|].
    rewrite malloc_reliable by exact Hf. cbn [negb].
    unfold read_meta. rewrite Ho. cbn [failed negb Z.eqb TEE_SUCCESS].
    unfold read_meta_counter. cbn [fd set_fd]. rewrite Hr2.
    cbn [failed negb Z.eqb TEE_SUCCESS]. rewrite Hl. cbn [Nat.eqb negb].
    change (pread f 0 4) with (take 4 f). fold c. fold h1.
    cbn [failed negb Z.eqb TEE_SUCCESS].
    unfold read_meta_file. rewrite Hrd. cbv zeta. rewrite Hpos. fold ct.
    destruct (length ct =? 0)%nat.
    - cbn [Z.eqb TEE_SUCCESS]. reflexivity.
    - destruct (tee_fs_decrypt_file META_FILE ct sizeof_file_info
                  (encrypted_fek (meta h1))) as [[r pt] fk].
      destruct (failed r) eqn:Hr.
      + change (TEE_ERROR_CORRUPT_OBJECT =? TEE_SUCCESS) with false.
        cbv iota. cbn [fd set_fd set_meta set_meta_counter h1].
        rewrite Hdne. reflexivity.
      + apply failed_false in Hr. subst r. reflexivity. }
  split.
  - intros [Hshort | (Hl4 & Hin & Hrej)].
    + unfold ree_fs_open, open_internal.
      destruct (Z.gtb_spec (Z.of_nat (String.length name) + 1)
                  TEE_FS_NAME_MAX); [lia|].
      rewrite malloc_reliable by exact Hf. cbn [negb].
      unfold read_meta. rewrite Ho. cbn [failed negb Z.eqb TEE_SUCCESS].
      unfold read_meta_counter. cbn [fd set_fd]. rewrite Hr2.
      cbn [failed negb Z.eqb TEE_SUCCESS].
      assert (Hl : (length (pread f 0 4) =? 4)%nat = false).
      { apply Nat.eqb_neq. unfold pread. rewrite length_take, length_drop.
        lia. }
      rewrite Hl. cbn [negb].
      change (failed TEE_ERROR_CORRUPT_OBJECT) with true. cbv iota.
      change (TEE_ERROR_CORRUPT_OBJECT =? TEE_SUCCESS) with false. cbv iota.
      cbn [fd set_fd]. rewrite Hdne. cbn [negb].
      eexists. split; [reflexivity|]. apply Hclosed; reflexivity.
    + destruct (Hlong Hl4) as (w3 & Hfd3 & Hfi3 & ->).
      assert (Hne : (length ct =? 0)%nat = false).
      { apply Nat.eqb_neq. unfold ct, pread.
        rewrite length_take, length_drop. lia. }
      rewrite Hne.
      change (encrypted_fek (meta h1)) with (zeros TEE_FS_KM_FEK_SIZE).
      destruct (tee_fs_decrypt_file META_FILE ct sizeof_file_info
                  (zeros TEE_FS_KM_FEK_SIZE)) as [[r pt] fk].
      cbn [fst] in Hrej. apply failed_true in Hrej. rewrite Hrej.
      change (TEE_ERROR_CORRUPT_OBJECT =? TEE_SUCCESS) with false. cbv iota.
      eexists. split; [reflexivity|]. apply Hclosed; assumption.
  - intros (Hl4 & Hcut).
    destruct (Hlong Hl4) as (w3 & Hfd3 & Hfi3 & ->).
    assert (He : (length ct =? 0)%nat = true).
    { apply Nat.eqb_eq. unfold ct. rewrite pread_eof by lia. reflexivity. }
    rewrite He. cbn [Z.eqb TEE_SUCCESS].
    assert (Hwf : info_wf (info (meta h1))).
    { cbn. unfold info_wf. cbn [length_ backup_version_table].
      split; [lia|]. split; [apply length_replicate|].
      apply Forall_replicate. lia. }
    rewrite (info_of_to_bytes _ Hwf).
    eexists _, w3. split; [reflexivity|].
    cbn [meta_counter meta info length_ encrypted_fek fd set_meta h1
         set_meta_counter set_fd zero_handle].
    repeat split. rewrite Hfi3, Hfi2, Hfiles1. reflexivity.
Qed.

(** The written container with the first byte of its live meta overwritten
    does not open; cut off behind its counter it opens, with length 0
    where 3 bytes were committed. *)
Lemma open_of_damaged_container_witness :
  (exists w',
     @ree_fs_open RefKM.km (Some "/obj/a"%string) RefKM.garbled_world
     = (TEE_ERROR_CORRUPT_OBJECT, None, w'))
  /\ exists h w',
       @ree_fs_open RefKM.km (Some "/obj/a"%string) RefKM.cut_world
       = (TEE_SUCCESS, Some h, w')
       /\ meta_counter h = 1 /\ length_ (info (meta h)) = 0.
Proof.
  assert (Hname : Z.of_nat (String.length "/obj/a") + 1
                  <= @TEE_FS_NAME_MAX RefKM.km) by (vm_compute; discriminate).
  split.
  - assert (Hf : faults RefKM.garbled_world = [])
      by (vm_compute; reflexivity).
    assert (Hfresh : fds_fresh RefKM.garbled_world).
    { split; [vm_compute; discriminate|]. intros d _.
      assert (E : ree_fds RefKM.garbled_world = ∅)
        by (vm_compute; reflexivity).
      rewrite E. apply lookup_empty. }
    destruct (ree_files RefKM.garbled_world !! "/obj/a"%string)
      as [f|] eqn:Hfile; [|vm_compute in Hfile; discriminate Hfile].
    assert (Hdam : (4 <= length f)%nat
              /\ @meta_slot_offset RefKM.km (Z.land (le32_decode (take 4 f)) 1)
                 < Z.of_nat (length f)
              /\ (@tee_fs_decrypt_file RefKM.km META_FILE
                    (pread f
                       (@meta_slot_offset RefKM.km
                          (Z.land (le32_decode (take 4 f)) 1))
                       (@sizeof_file_info RefKM.km
                        + @tee_fs_get_header_size RefKM.km META_FILE))
                    (@sizeof_file_info RefKM.km)
                    (zeros (@TEE_FS_KM_FEK_SIZE RefKM.km))).1.1
                 <> TEE_SUCCESS).
    { vm_compute in Hfile. injection Hfile as <-.
      split; [vm_compute; repeat constructor|].
      split; [vm_compute; reflexivity|vm_compute; discriminate]. }
    revert Hf Hfresh Hfile Hdam. generalize RefKM.garbled_world.
    intros w Hf Hfresh Hfile Hdam.
    destruct (open_of_damaged_container RefKM.km RefKM_contract
                "/obj/a"%string w f Hf Hfresh Hfile Hname) as [Hrej _].
    destruct (Hrej (or_intror Hdam)) as (w' & Ho & _).
    exists w'. exact Ho.
  - assert (Hf : faults RefKM.cut_world = []) by (vm_compute; reflexivity).
    assert (Hfresh : fds_fresh RefKM.cut_world).
    { split; [vm_compute; discriminate|]. intros d _.
      assert (E : ree_fds RefKM.cut_world = ∅) by (vm_compute; reflexivity).
      rewrite E. apply lookup_empty. }
    assert (Hfile : ree_files RefKM.cut_world !! "/obj/a"%string
                    = Some [x01; x00; x00; x00])
      by (vm_compute; reflexivity).
    revert Hf Hfresh Hfile. generalize RefKM.cut_world.
    intros w Hf Hfresh Hfile.
    destruct (open_of_damaged_container RefKM.km RefKM_contract
                "/obj/a"%string w [x01; x00; x00; x00] Hf Hfresh Hfile Hname)
      as [_ Hcut].
    destruct Hcut as (h & w' & Ho & Hc & _ & Hlen & _).
    { split; [cbn; lia|vm_compute; discriminate]. }
    exists h, w'. split; [exact Ho|]. split; [exact Hc|exact Hlen].
Defined.

(** ** A failed write leaves the committed state in place *)

Section Atomic.
Context {KM : KeyManager} {OK : KeyManagerOk KM}.

(** A commit that fails -- at the shadow meta or at the counter -- leaves
    the counter, the active meta slot and every block slot as they
    were. *)
Lemma failed_commit_keeps_committed h0 h nm w name f res h' w' :
  file_of w (fd h) = Some (name, f) ->
  committed f h0 -> meta_counter h = meta_counter h0 ->
  length (backup_version_table (info (meta h0)))
  = Z.to_nat (NUM_BLOCKS_PER_FILE / 32) ->
  length (backup_version_table (info nm))
  = Z.to_nat (NUM_BLOCKS_PER_FILE / 32) ->
  commit_meta_file h nm w = (res, h', w') -> res <> TEE_SUCCESS ->
  exists f',
    file_of w' (fd h) = Some (name, f') /\ committed f' h0
    /\ (length f <= length f')%nat
    /\ forall o n, data_base <= o -> pread f' o n = pread f o n.
Proof.
  intros Hfile Hcm Hc Htab0 Htab Hcommit Hres.
  pose proof meta_ciphertext_fits as Hfit. pose proof meta_size_ge as Hms.
  pose proof (km_header_size META_FILE) as Hhd.
  pose proof sizeof_file_info_ge as Hsi.
  rewrite commit_meta_file_eq in Hcommit. cbv zeta in Hcommit.
  destruct (write_meta_file _ _ w) as [r1 w1] eqn:E1.
  unfold write_meta_file in E1.
  apply encrypt_and_write_file_spec in E1 as (Hfds1 & _ & _ & Hfail1 & Hok1).
  destruct (failed r1) eqn:Hf1.
  { injection Hcommit as <- _ <-. apply failed_true in Hf1.
    destruct (Hfail1 Hf1) as (Hfiles & _).
    exists f. rewrite (file_of_same w w1) by assumption.
    split; [exact Hfile|]. split; [exact Hcm|]. split; [lia|]. reflexivity. }
  apply failed_false in Hf1.
  destruct (Hok1 Hf1) as (Hs0 & ct' & name' & f0 & Henc' & Hfile' & Hfiles1 & _).
  rewrite Hfile in Hfile'. injection Hfile' as <- <-.
  change (info (set_counter nm (u32 (meta_counter h + 1)))) with (info nm)
    in Henc'.
  pose proof (meta_ciphertext_size _ _ _ Htab Henc') as Hcl'.
  set (s := meta_pos_raw h false) in *.
  assert (Hfile1 : file_of w1 (fd h) = Some (name, pwrite f s ct'))
    by (eapply file_of_update; eassumption).
  destruct (write_meta_counter _ w1) as [r2 w2] eqn:E2.
  apply write_meta_counter_spec in E2 as (Hfds2 & _ & _ & _ & Hfail2 & _).
  injection Hcommit as <- _ <-.
  cbn [fd set_meta set_meta_counter] in *.
  exists (pwrite f s ct').
  rewrite (file_of_same w1 w2) by (try assumption; apply (Hfail2 Hres)).
  split; [exact Hfile1|].
  destruct Hcm as (H4 & Hcnt & ct & Henc & Hct).
  pose proof (meta_ciphertext_size _ _ _ Htab0 Henc) as Hcl.
  assert (Hs : s = meta_slot_offset (1 - Z.land (meta_counter h0) 1)).
  { unfold s. rewrite meta_pos_raw_shadow, Hc. reflexivity. }
  pose proof (meta_pos_raw_active h0) as Ha.
  assert (Hin : meta_pos_raw h0 true
                + (sizeof_file_info + tee_fs_get_header_size META_FILE)
                <= Z.of_nat (length f)).
  { apply pread_full_inv; [rewrite Ha; unfold meta_slot_offset;
                           destruct (land_1_cases (meta_counter h0)) as [-> | ->];
                           lia|lia|].
    rewrite Hct. exact Hcl. }
  unfold meta_slot_offset in Hs, Ha.
  split; [|split].
  - split; [rewrite length_pwrite by lia; lia|]. split.
    + change (take 4 (pwrite f s ct')) with (pread (pwrite f s ct') 0 4).
      rewrite pread_pwrite_below
        by (destruct (land_1_cases (meta_counter h0)) as [Hl | Hl];
            rewrite Hl in Hs; lia).
      exact Hcnt.
    + exists ct. split; [exact Henc|]. rewrite <- Hct.
      destruct (land_1_cases (meta_counter h0)) as [Hl | Hl];
        rewrite Hl in Hs, Ha.
      * apply pread_pwrite_below; lia.
      * apply pread_pwrite_above; lia.
  - rewrite length_pwrite by lia. lia.
  - intros o n Ho. apply pread_pwrite_above; [lia|].
    unfold data_base in Ho.
    destruct (land_1_cases (meta_counter h0)) as [Hl | Hl];
      rewrite Hl in Hs; lia.
Qed.

End Atomic.

(** X8: what a failed write leaves in place, whatever failures the
    environment injects.  The handle holds the committed counter and meta
    of its container and the write starts within the file.  If the write
    fails -- in a block read, in a block write, in the write of the shadow
    meta or in the write of the counter -- the container still has the
    counter of the handle the write started from, the meta slot that
    counter selects still holds that handle's meta, the container is at
    least as long as before, and the active slot of every block that lay
    within the container before the write holds the bytes it held before.
    Nothing is said about a block that was never written and whose active
    slot lay beyond the end of the container: the failed write may have
    grown the container across that slot. *)
Theorem failed_write_keeps_committed_state (KM : KeyManager)
    (OK : KeyManagerOk KM) (h : tee_fs_fd) (buf : option (list byte))
    (len : Z) (w : world) (name : string) (f : list byte)
    (res : TEE_Result) (h' : tee_fs_fd) (w' : world) :
  file_of w (fd h) = Some (name, f) -> committed f h ->
  length (backup_version_table (info (meta h)))
  = Z.to_nat (NUM_BLOCKS_PER_FILE / 32) ->
  0 <= pos h <= length_ (info (meta h)) ->
  0 < len -> pos h + len <= MAX_FILE_SIZE ->
  ree_fs_write h buf len w = (res, h', w') -> res <> TEE_SUCCESS ->
  exists f',
    file_of w' (fd h) = Some (name, f') /\ committed f' h
    /\ (length f <= length f')%nat
    /\ forall j, 0 <= j < NUM_BLOCKS_PER_FILE ->
         block_pos_raw (meta h) j true + block_size_raw
         <= Z.of_nat (length f) ->
         pread f' (block_pos_raw (meta h) j true) block_size_raw
         = pread f (block_pos_raw (meta h) j true) block_size_raw.
Proof.
  intros Hfile Hcm Htab Hp Hlen Hmax Hw Hres.
  pose proof MAX_FILE_SIZE_bound as HM.
  unfold ree_fs_write in Hw.
  destruct (Z.eqb_spec len 0); [lia|].
  destruct (Z.gtb_spec (pos h + len) MAX_FILE_SIZE); [lia|].
  destruct (Z.ltb_spec (pos h + len) len); [lia|].
  cbn [orb] in Hw. rewrite (u32_id (pos h)) in Hw by lia.
  destruct (Z.ltb_spec (length_ (info (meta h))) (pos h)); [lia|].
  cbn [failed negb Z.eqb TEE_SUCCESS] in Hw.
  destruct (out_of_place_write h buf len (meta h) w)
    as [[[r h1] nm1] w1] eqn:Eo.
  pose proof (out_of_place_write_spared _ _ _ _ _ _ _ _ _ _ _ Hfile
                ltac:(lia) Hlen Hmax Eo) as (f1 & Hfile1 & Hsp).
  apply out_of_place_write_spec in Eo; [|lia|lia|lia].
  destruct Eo as (Hm1 & Hc1 & Hd1 & _ & _ & _ & _ & _ & _ & Htab1 & _).
  pose proof (committed_spared _ _ _ _ Hsp Hcm Htab) as Hcm1.
  destruct (failed r) eqn:Hfr.
  { injection Hw as <- _ <-. exists f1. split; [exact Hfile1|].
    split; [exact Hcm1|]. split; [apply Hsp|]. apply Hsp. }
  rewrite <- Hd1 in Hfile1.
  destruct (failed_commit_keeps_committed h h1 nm1 w1 name f1 res h' w'
              Hfile1 Hcm1 Hc1 Htab ltac:(congruence) Hw Hres)
    as (f2 & Hfile2 & Hcm2 & Hlen2 & Hblk).
  exists f2. rewrite <- Hd1. split; [exact Hfile2|].
  split; [exact Hcm2|]. destruct Hsp as (Hl1 & _ & Hact).
  split; [lia|]. intros j Hj Hin.
  rewrite Hblk by (pose proof (block_pos_raw_range (meta h) j true Hj);
                   unfold data_base; lia).
  apply Hact; assumption.
Qed.

Lemma failed_write_keeps_committed_state_witness :
  exists f',
    RefKM.flaky_write.1.1 = TEE_ERROR_GENERIC
    /\ file_of RefKM.flaky_write.2 (fd RefKM.written.1.2)
       = Some ("/obj/a"%string, f')
    /\ le32_decode (take 4 f') = 1.
Proof.
  destruct RefKM_written_durable as (img & [(f & wm & Hb0 & Hst & _)
                                            (f1 & Hb & Hcm)] & _).
  destruct (backed_inj _ _ _ _ _ _ Hb0 Hb) as [_ ->].
  destruct Hst as (_ & Htab & _). destruct Hb as [_ Hfile]. clear Hb0.
  assert (E : @ree_fs_write RefKM.km RefKM.written.1.2 (Some [x07]) 1
                RefKM.flaky_world
              = (RefKM.flaky_write.1.1, RefKM.flaky_write.1.2,
                 RefKM.flaky_write.2)) by (vm_compute; reflexivity).
  assert (Hres : RefKM.flaky_write.1.1 = TEE_ERROR_GENERIC)
    by (vm_compute; reflexivity).
  assert (Hp : 0 <= pos RefKM.written.1.2
               <= length_ (info (meta RefKM.written.1.2)))
    by (vm_compute; split; discriminate).
  assert (Hmax : pos RefKM.written.1.2 + 1 <= @MAX_FILE_SIZE RefKM.km)
    by (vm_compute; discriminate).
  assert (Hc1 : meta_counter RefKM.written.1.2 = 1)
    by (vm_compute; reflexivity).
  assert (Hfile' : file_of RefKM.flaky_world (fd RefKM.written.1.2)
                   = file_of RefKM.written.2 (fd RefKM.written.1.2))
    by reflexivity.
  rewrite <- Hfile' in Hfile. clear Hfile'.
  revert E Hres. generalize RefKM.flaky_write.1.1, RefKM.flaky_write.1.2,
    RefKM.flaky_write.2. intros res h' w' E Hres.
  revert Hfile Hcm Htab Hp Hmax Hc1 E.
  generalize RefKM.flaky_world, RefKM.written.1.2.
  intros w h Hfile Hcm Htab Hp Hmax Hc1 E.
  destruct (failed_write_keeps_committed_state RefKM.km RefKM_contract h
              (Some [x07]) 1 w "/obj/a"%string f res h' w'
              Hfile Hcm Htab Hp ltac:(lia) Hmax E)
    as (f' & Hfile2 & (_ & Hcnt & _) & _).
  { rewrite Hres. discriminate. }
  exists f'. split; [exact Hres|]. split; [exact Hfile2|].
  rewrite Hcnt. exact Hc1.
Defined.

(** X19: what a failed truncation leaves in place, whatever failures the
    environment injects.  The handle holds the committed counter and meta
    of its container.  If a truncation to a length within the maximal file
    size fails -- while the file is extended or in the commit -- the
    container still has the counter of the handle, the meta slot that
    counter selects still holds the handle's meta, the container is at
    least as long as before, and the active slot of every block that lay
    within the container before the truncation holds the bytes it held
    before.  Nothing is said about a block that was never written and
    whose active slot lay beyond the end of the container: the failed
    extension may have grown the container across that slot. *)
Theorem failed_truncate_keeps_committed_state (KM : KeyManager)
    (OK : KeyManagerOk KM) (h : tee_fs_fd) (n : Z) (w : world)
    (name : string) (f : list byte)
    (res : TEE_Result) (h' : tee_fs_fd) (w' : world) :
  file_of w (fd h) = Some (name, f) -> committed f h ->
  length (backup_version_table (info (meta h)))
  = Z.to_nat (NUM_BLOCKS_PER_FILE / 32) ->
  0 <= length_ (info (meta h)) -> 0 <= n <= MAX_FILE_SIZE ->
  ree_fs_truncate h n w = (res, h', w') -> res <> TEE_SUCCESS ->
  exists f',
    file_of w' (fd h) = Some (name, f') /\ committed f' h
    /\ (length f <= length f')%nat
    /\ forall j, 0 <= j < NUM_BLOCKS_PER_FILE ->
         block_pos_raw (meta h) j true + block_size_raw
         <= Z.of_nat (length f) ->
         pread f' (block_pos_raw (meta h) j true) block_size_raw
         = pread f (block_pos_raw (meta h) j true) block_size_raw.
Proof.
  intros Hfile Hcm Htab HL Hn Ht Hres.
  pose proof MAX_FILE_SIZE_bound as HM.
  unfold ree_fs_truncate, ree_fs_ftruncate_internal in Ht.
  destruct (Z.gtb_spec n MAX_FILE_SIZE); [lia|].
  rewrite (u32_id n) in Ht by lia.
  assert (Hblocks : forall f1 f2,
             spared (meta h) f f1 -> (length f1 <= length f2)%nat ->
             (forall o k, data_base <= o -> pread f2 o k = pread f1 o k) ->
             (length f <= length f2)%nat
             /\ forall j, 0 <= j < NUM_BLOCKS_PER_FILE ->
                  block_pos_raw (meta h) j true + block_size_raw
                  <= Z.of_nat (length f) ->
                  pread f2 (block_pos_raw (meta h) j true) block_size_raw
                  = pread f (block_pos_raw (meta h) j true) block_size_raw).
  { intros f1 f2 (Hl1 & _ & Hact) Hl2 Hblk. split; [lia|].
    intros j Hj Hin.
    rewrite Hblk by (pose proof (block_pos_raw_range (meta h) j true Hj);
                     unfold data_base; lia).
    apply Hact; assumption. }
  destruct (Z.gtb_spec n (length_ (info (meta h)))) as [Hext | Hshr].
  - rewrite (u32_id (n - _)) in Ht by lia.
    destruct (out_of_place_write _ _ _ _ w) as [[[r h1] nm1] w1] eqn:Eo.
    assert (Hp0 : 0 <= pos (set_pos h (length_ (info (meta h)))))
      by (cbn; lia).
    assert (Hx0 : 0 < n - length_ (info (meta h))) by lia.
    assert (Hm0 : pos (set_pos h (length_ (info (meta h))))
                  + (n - length_ (info (meta h))) <= MAX_FILE_SIZE)
      by (cbn; lia).
    pose proof (out_of_place_write_spared (set_pos h (length_ (info (meta h))))
                  None _ (set_length (meta h) n) w name f r h1 nm1 w1
                  Hfile Hp0 Hx0 Hm0 Eo)
      as (f1 & Hfile1 & Hsp).
    change (spared (set_length (meta h) n) f f1)
      with (spared (meta h) f f1) in Hsp.
    apply out_of_place_write_spec in Eo; cbn [pos set_pos]; [|lia|lia|lia].
    cbn [pos set_pos meta meta_counter fd] in Eo, Hfile1.
    destruct Eo as (Hm1 & Hc1 & Hd1 & _ & _ & _ & _ & _ & _ & Htab1 & _).
    cbn [set_length info backup_version_table] in Htab1.
    pose proof (committed_spared _ _ _ _ Hsp Hcm Htab) as Hcm1.
    destruct (failed r) eqn:Hfr.
    { injection Ht as <- _ <-. exists f1. split; [exact Hfile1|].
      split; [exact Hcm1|]. split; [apply Hsp|]. apply Hsp. }
    destruct (failed_commit_keeps_committed h (set_pos h1 (s32 (pos h))) nm1
                w1 name f1 res h' w')
      as (f2 & Hfile2 & Hcm2 & Hlen2 & Hblk);
      cbn [fd meta_counter set_pos]; try assumption; try congruence.
    cbn [fd set_pos] in Hfile2. rewrite Hd1 in Hfile2.
    exists f2. split; [exact Hfile2|]. split; [exact Hcm2|].
    apply (Hblocks f1 f2 Hsp Hlen2 Hblk).
  - destruct (failed_commit_keeps_committed h h (set_length (meta h) n)
                w name f res h' w' Hfile Hcm eq_refl Htab Htab Ht Hres)
      as (f2 & Hfile2 & Hcm2 & Hlen2 & Hblk).
    exists f2. split; [exact Hfile2|]. split; [exact Hcm2|].
    apply (Hblocks f f2 (spared_refl _ _) Hlen2 Hblk).
Qed.

Lemma failed_truncate_keeps_committed_state_witness :
  exists f',
    RefKM.starved_truncate.1.1 = TEE_ERROR_OUT_OF_MEMORY
    /\ file_of RefKM.starved_truncate.2 (fd RefKM.written.1.2)
       = Some ("/obj/a"%string, f')
    /\ le32_decode (take 4 f') = 1.
Proof.
  destruct RefKM_written_durable as (img & [(f & wm & Hb0 & Hst & _)
                                            (f1 & Hb & Hcm)] & _).
  destruct (backed_inj _ _ _ _ _ _ Hb0 Hb) as [_ ->].
  destruct Hst as (_ & Htab & _). destruct Hb as [_ Hfile]. clear Hb0.
  assert (E : @ree_fs_truncate RefKM.km RefKM.written.1.2 0
                RefKM.starved_world
              = (RefKM.starved_truncate.1.1, RefKM.starved_truncate.1.2,
                 RefKM.starved_truncate.2)) by (vm_compute; reflexivity).
  assert (Hres : RefKM.starved_truncate.1.1 = TEE_ERROR_OUT_OF_MEMORY)
    by (vm_compute; reflexivity).
  assert (HL : 0 <= length_ (info (meta RefKM.written.1.2)))
    by (vm_compute; discriminate).
  assert (Hn : 0 <= 0 <= @MAX_FILE_SIZE RefKM.km)
    by (vm_compute; split; discriminate).
  assert (Hc1 : meta_counter RefKM.written.1.2 = 1)
    by (vm_compute; reflexivity).
  assert (Hfile' : file_of RefKM.starved_world (fd RefKM.written.1.2)
                   = file_of RefKM.written.2 (fd RefKM.written.1.2))
    by reflexivity.
  rewrite <- Hfile' in Hfile. clear Hfile'.
  revert E Hres. generalize RefKM.starved_truncate.1.1,
    RefKM.starved_truncate.1.2, RefKM.starved_truncate.2.
  intros res h' w' E Hres.
  revert Hfile Hcm Htab HL Hc1 E.
  generalize RefKM.starved_world, RefKM.written.1.2.
  intros w h Hfile Hcm Htab HL Hc1 E.
  destruct (failed_truncate_keeps_committed_state RefKM.km RefKM_contract h
              0 w "/obj/a"%string f res h' w' Hfile Hcm Htab HL Hn E)
    as (f' & Hfile2 & (_ & Hcnt & _) & _).
  { rewrite Hres. discriminate. }
  exists f'. split; [exact Hres|]. split; [exact Hfile2|].
  rewrite Hcnt. exact Hc1.
Defined.

(** ** Writing and reading back within a session *)

(** X7: what is written can be read back through the same handle: after a
    write of a non-empty buffer through a consistent handle, a seek back to
    where the write started and a read of as many bytes succeed and return
    the buffer, wherever in the file the write took place -- inside it, at
    its end or beyond its end. *)
Theorem write_seek_read_back (KM : KeyManager) (OK : KeyManagerOk KM)
    (h : tee_fs_fd) (data : list byte) (w : world) (name : string)
    (img : list byte) :
  consistent h w name img -> 0 <= pos h -> data <> [] ->
  pos h + Z.of_nat (length data) <= MAX_FILE_SIZE ->
  exists h1 w1 h2 h3 w2,
    ree_fs_write h (Some data) (Z.of_nat (length data)) w
    = (TEE_SUCCESS, h1, w1)
    /\ ree_fs_seek h1 (pos h) TEE_DATA_SEEK_SET
       = (TEE_SUCCESS, h2, Some (pos h))
    /\ ree_fs_read h2 (Z.of_nat (length data)) w1
       = (TEE_SUCCESS, data, Z.of_nat (length data), h3, w2)
    /\ pos h3 = pos h + Z.of_nat (length data).
Proof.
  intros (f & wm & Hb & Hst & Hl) Hp Hne Hmax.
  pose proof MAX_FILE_SIZE_bound as HM.
  assert (Hlen : 0 < Z.of_nat (length data))
    by (destruct data; cbn; [congruence|lia]).
  pose proof (stores_length_bound _ _ _ _ Hst Hl) as HL.
  pose proof Hst as (Himg & _).
  destruct (ree_fs_write_stored h (Some data) (Z.of_nat (length data)) w
              name f img wm Hb Hst Hl Hp Hlen Hmax)
    as (h1 & w1 & f1 & wm1 & Hw & Hb1 & Hst1 & _ & Hlen1 & Hwm1 & Hpos1
        & _).
  { cbn. lia. }
  cbv zeta in Hst1. rewrite chunk_of_whole in Hst1.
  set (img1 := patch img _ _) in Hst1.
  assert (Hcont : contents h1 img1 = pwrite (contents h img) (pos h) data).
  { unfold contents, img1. rewrite Hlen1. apply contents_after_write; lia. }
  set (h2 := set_pos h1 (pos h)).
  assert (Hl2 : 0 <= length_ (info (meta h2)) <= BLOCK_SIZE * wm1)
    by (cbn [meta h2 set_pos]; lia).
  destruct (ree_fs_read_stored h2 (Z.of_nat (length data)) w1 name f1 img1
              wm1 Hb1 Hst1 Hl2)
    as (w2 & Hr & _); [cbn; lia|lia|].
  cbv zeta in Hr.
  change (contents h2 img1) with (contents h1 img1) in Hr.
  change (pos h2) with (pos h) in Hr. rewrite Hcont in Hr.
  change (take (Z.to_nat (Z.of_nat (length data)))
            (drop (Z.to_nat (pos h))
               (pwrite (contents h img) (pos h) data)))
    with (pread (pwrite (contents h img) (pos h) data) (pos h)
            (Z.of_nat (length data))) in Hr.
  rewrite pread_pwrite_same in Hr by reflexivity.
  exists h1, w1, h2. eexists _, w2.
  split; [exact Hw|]. split; [|split; [exact Hr|reflexivity]].
  unfold ree_fs_seek. cbn [Z.eqb TEE_DATA_SEEK_SET].
  destruct (Z.ltb_spec (pos h) 0); [lia|].
  unfold TEE_DATA_MAX_POSITION.
  destruct (Z.gtb_spec (pos h) 4294967295); [lia|].
  rewrite s32_id by lia. reflexivity.
Qed.

Lemma write_seek_read_back_witness :
  exists h1 w1 h2 h3 w2,
    @ree_fs_write RefKM.km RefKM.created_handle (Some [x01; x02; x03]) 3
      RefKM.created_world = (TEE_SUCCESS, h1, w1)
    /\ ree_fs_seek h1 0 TEE_DATA_SEEK_SET = (TEE_SUCCESS, h2, Some 0)
    /\ @ree_fs_read RefKM.km h2 3 w1
       = (TEE_SUCCESS, [x01; x02; x03], 3, h3, w2).
Proof.
  assert (Hp0 : pos RefKM.created_handle = 0) by (vm_compute; reflexivity).
  assert (Hne : [x01; x02; x03] <> []) by discriminate.
  assert (Hmax : 0 + Z.of_nat (length [x01; x02; x03])
                 <= @MAX_FILE_SIZE RefKM.km) by (vm_compute; discriminate).
  pose proof RefKM_created_consistent as Hc.
  revert Hp0 Hc. generalize RefKM.created_handle, RefKM.created_world.
  intros h w Hp0 Hc. rewrite <- Hp0 in Hmax.
  destruct (write_seek_read_back RefKM.km RefKM_contract h [x01; x02; x03]
              w "/obj/a"%string _ Hc ltac:(lia) Hne Hmax)
    as (h1 & w1 & h2 & h3 & w2 & Hw & Hs & Hr & _).
  rewrite Hp0 in Hs.
  exists h1, w1, h2, h3, w2. split; [exact Hw|]. split; [exact Hs|exact Hr].
Defined.

(** ** Operations on a handle stay within its container *)

Lemma touches_only_refl name w : touches_only name w w.
Proof. repeat split. Qed.

Lemma touches_only_trans name w1 w2 w3 :
  touches_only name w1 w2 -> touches_only name w2 w3 ->
  touches_only name w1 w3.
Proof.
  intros (a & b & c & d) (a' & b' & c' & d').
  repeat split; try congruence.
  intros other Hne. rewrite (d' other Hne). apply d. exact Hne.
Qed.

Lemma same_store_touches_only name w w' :
  same_store w w' -> touches_only name w w'.
Proof.
  intros (a & b & c & d). repeat split; try assumption.
  intros other _. rewrite a. reflexivity.
Qed.

Lemma touches_only_update name w w' f f0 d :
  ree_fds w !! d = Some name -> file_of w d = Some (f0, f) ->
  ree_fds w' = ree_fds w -> ree_next_fd w' = ree_next_fd w ->
  session_uuid w' = session_uuid w ->
  (forall g, ree_files w' = <[f0 := g]> (ree_files w)
             \/ ree_files w' = ree_files w -> touches_only name w w').
Proof.
  intros Hd Hfile Hfds Hnx Hu g Hfiles.
  apply file_of_inv in Hfile as [Hd' _]. rewrite Hd in Hd'.
  injection Hd' as <-.
  repeat split; try assumption. intros other Hne.
  destruct Hfiles as [-> | ->]; [|reflexivity].
  apply lookup_insert_ne. congruence.
Qed.

Section Isolation.
Context {KM : KeyManager}.

Lemma encrypt_and_write_file_touches fdp t offs data sz fek w res w' name :
  ree_fds w !! fd fdp = Some name ->
  encrypt_and_write_file fdp t offs data sz fek w = (res, w') ->
  touches_only name w w'.
Proof.
  intros Hd H.
  apply encrypt_and_write_file_spec in H as (Hfds & Hnx & Hu & Hfail & Hok).
  destruct (Z.eq_dec res TEE_SUCCESS) as [Hr | Hr].
  - destruct (Hok Hr) as (_ & ct & name' & f & _ & Hfile & Hfiles & _).
    eapply touches_only_update; try eassumption. left. exact Hfiles.
  - destruct (Hfail Hr) as (Hfiles & _).
    repeat split; try assumption. intros other _. rewrite Hfiles.
    reflexivity.
Qed.

Lemma write_meta_counter_touches fdp w res w' name :
  ree_fds w !! fd fdp = Some name ->
  write_meta_counter fdp w = (res, w') -> touches_only name w w'.
Proof.
  intros Hd H.
  apply write_meta_counter_spec in H as (Hfds & Hnx & Hu & _ & Hfail & Hok).
  destruct (Z.eq_dec res TEE_SUCCESS) as [Hr | Hr].
  - destruct (Hok Hr) as (name' & f & Hfile & Hfiles).
    eapply touches_only_update; try eassumption. left. exact Hfiles.
  - repeat split; try assumption. intros other _. rewrite (Hfail Hr).
    reflexivity.
Qed.

Lemma commit_meta_file_touches fdp nm w res fdp' w' name :
  ree_fds w !! fd fdp = Some name ->
  commit_meta_file fdp nm w = (res, fdp', w') ->
  touches_only name w w' /\ fd fdp' = fd fdp.
Proof.
  intros Hd. rewrite commit_meta_file_eq. cbv zeta.
  destruct (write_meta_file _ _ w) as [r1 w1] eqn:E1.
  unfold write_meta_file in E1.
  apply (encrypt_and_write_file_touches _ _ _ _ _ _ _ _ _ name Hd) in E1.
  destruct (failed r1); [intros [= _ <- <-]; auto|].
  destruct (write_meta_counter _ w1) as [r2 w2] eqn:E2.
  apply (write_meta_counter_touches _ _ _ _ name) in E2.
  - intros [= _ <- <-]. split; [|reflexivity].
    eapply touches_only_trans; eassumption.
  - cbn [fd set_meta set_meta_counter]. destruct E1 as (-> & _). exact Hd.
Qed.

Lemma out_of_place_write_loop_touches name n :
  forall buf res h start remain dptr block nm w completed res' h' nm' w',
    ree_fds w !! fd h = Some name ->
    out_of_place_write_loop n buf res h start remain dptr block nm w
    = (completed, res', h', nm', w') ->
    touches_only name w w' /\ fd h' = fd h.
Proof.
  induction n as [|n IH];
    intros buf res h start remain dptr block nm w completed res' h' nm' w' Hd.
  - cbn. intros [= _ _ <- _ <-]. split; [apply touches_only_refl|reflexivity].
  - cbn [out_of_place_write_loop]. cbv zeta.
    destruct (read_block h start block w) as [[r b] w1] eqn:Er.
    apply read_block_spec in Er as (Hs1 & _).
    pose proof (same_store_touches_only name _ _ Hs1) as Ht1.
    destruct (negb (r =? TEE_ERROR_ITEM_NOT_FOUND) && failed r).
    { intros [= _ _ <- _ <-]. split; [exact Ht1|reflexivity]. }
    destruct (write_block h (u32 start) _ nm w1) as [[r2 nm2] w2] eqn:Ew.
    assert (Hd1 : ree_fds w1 !! fd h = Some name)
      by (destruct Ht1 as (-> & _); exact Hd).
    assert (Ht2 : touches_only name w1 w2).
    { unfold write_block in Ew. cbv zeta in Ew.
      destruct (encrypt_and_write_file _ _ _ _ _ _ w1) as [r3 w3] eqn:Ee.
      apply (encrypt_and_write_file_touches _ _ _ _ _ _ _ _ _ name Hd1) in Ee.
      destruct (r3 =? TEE_SUCCESS); injection Ew as _ _ <-; exact Ee. }
    pose proof (touches_only_trans _ _ _ _ Ht1 Ht2) as Ht.
    destruct (failed r2).
    { intros [= _ _ <- _ <-]. split; [exact Ht|reflexivity]. }
    intros Hloop. apply IH in Hloop.
    + destruct Hloop as [Ht3 Hfd]. split; [|exact Hfd].
      eapply touches_only_trans; eassumption.
    + cbn [fd set_pos]. destruct Ht as (-> & _). exact Hd.
Qed.

Lemma out_of_place_write_touches name h buf len nm w res h' nm' w' :
  ree_fds w !! fd h = Some name ->
  out_of_place_write h buf len nm w = (res, h', nm', w') ->
  touches_only name w w' /\ fd h' = fd h.
Proof.
  intros Hd. unfold out_of_place_write. cbv zeta.
  destruct (out_of_place_write_loop _ _ _ _ _ _ _ _ _ _)
    as [[[[completed r] h1] nm1] w1] eqn:Eloop.
  apply (out_of_place_write_loop_touches name) in Eloop; [|exact Hd].
  destruct Eloop as [Ht Hfd].
  intros [= _ <- _ <-]. split; [exact Ht|].
  destruct (failed r); exact Hfd.
Qed.

Lemma ftruncate_touches name h n w res h' w' :
  ree_fds w !! fd h = Some name ->
  ree_fs_ftruncate_internal h n w = (res, h', w') ->
  touches_only name w w' /\ fd h' = fd h.
Proof.
  intros Hd. unfold ree_fs_ftruncate_internal.
  destruct (n >? MAX_FILE_SIZE).
  { intros [= _ <- <-]. split; [apply touches_only_refl|reflexivity]. }
  destruct (u32 n >? length_ (info (meta h))).
  - destruct (out_of_place_write _ _ _ _ w) as [[[r h1] nm1] w1] eqn:Eo.
    apply (out_of_place_write_touches name) in Eo; [|exact Hd].
    cbn [fd set_pos] in Eo. destruct Eo as [Ht1 Hfd1].
    destruct (failed r); [intros [= _ <- <-]; auto|].
    intros Hc. apply (commit_meta_file_touches _ _ _ _ _ _ name) in Hc.
    + cbn [fd set_pos] in Hc. destruct Hc as [Ht2 Hfd2].
      split; [eapply touches_only_trans; eassumption|congruence].
    + cbn [fd set_pos]. rewrite Hfd1. destruct Ht1 as (-> & _). exact Hd.
  - intros Hc. apply (commit_meta_file_touches _ _ _ _ _ _ name Hd) in Hc.
    exact Hc.
Qed.

Lemma ree_fs_write_touches name h buf len w res h' w' :
  ree_fds w !! fd h = Some name ->
  ree_fs_write h buf len w = (res, h', w') ->
  touches_only name w w' /\ fd h' = fd h.
Proof.
  intros Hd. unfold ree_fs_write.
  destruct (len =? 0).
  { intros [= _ <- <-]. split; [apply touches_only_refl|reflexivity]. }
  destruct (_ || _).
  { intros [= _ <- <-]. split; [apply touches_only_refl|reflexivity]. }
  destruct (if length_ (info (meta h)) <? u32 (pos h) then _ else _)
    as [[r1 h1] w1] eqn:E1.
  assert (Hpre : touches_only name w w1 /\ fd h1 = fd h).
  { destruct (_ <? _) in E1.
    - eapply ftruncate_touches; eassumption.
    - injection E1 as _ <- <-.
      split; [apply touches_only_refl|reflexivity]. }
  destruct Hpre as [Ht1 Hfd1]. clear E1.
  destruct (failed r1); [intros [= _ <- <-]; auto|].
  assert (Hd1 : ree_fds w1 !! fd h1 = Some name)
    by (rewrite Hfd1; destruct Ht1 as (-> & _); exact Hd).
  destruct (out_of_place_write h1 buf len (meta h1) w1)
    as [[[r2 h2] nm2] w2] eqn:Eo.
  apply (out_of_place_write_touches name) in Eo; [|exact Hd1].
  destruct Eo as [Ht2 Hfd2].
  destruct (failed r2).
  { intros [= _ <- <-]. split; [|congruence].
    eapply touches_only_trans; eassumption. }
  intros Hc. apply (commit_meta_file_touches _ _ _ _ _ _ name) in Hc.
  - destruct Hc as [Ht3 Hfd3].
    split; [|congruence].
    eapply touches_only_trans; [|exact Ht3].
    eapply touches_only_trans; eassumption.
  - rewrite Hfd2. destruct Ht2 as (-> & _). exact Hd1.
Qed.

End Isolation.

(** X20: an operation on a handle -- seek, read, write, truncate or fsync,
    whatever its outcome and whatever failures the environment injects --
    stays within the container of the handle: it changes no other REE
    file, opens and closes no descriptor, and leaves the descriptor of the
    handle as it was. *)
Theorem operations_touch_one_container (KM : KeyManager)
    (op : file_op) (h : tee_fs_fd) (w : world) (name : string)
    (res : TEE_Result) (h' : tee_fs_fd) (w' : world) :
  ree_fds w !! fd h = Some name ->
  run_op op h w = (res, h', w') ->
  touches_only name w w' /\ fd h' = fd h.
Proof.
  intros Hd. destruct op as [offset whence | len | buf | len |];
    cbn [run_op].
  - destruct (ree_fs_seek h offset whence) as [[r h1] o] eqn:E.
    apply ree_fs_seek_frame in E as (_ & _ & Hfd).
    intros [= _ <- <-]. split; [apply touches_only_refl|exact Hfd].
  - destruct (ree_fs_read h len w) as [[[[r out] l] h1] w1] eqn:E.
    apply ree_fs_read_frame in E as (_ & _ & Hfd & Hs & _).
    intros [= _ <- <-].
    split; [apply same_store_touches_only; exact Hs|exact Hfd].
  - apply ree_fs_write_touches. exact Hd.
  - apply ftruncate_touches. exact Hd.
  - unfold ree_fs_fsync.
    destruct (tee_fs_rpc_fsync (fd h) w) as [r w1] eqn:E.
    apply rpc_fsync_spec in E. intros [= _ <- <-].
    split; [apply same_store_touches_only; exact E|reflexivity].
Qed.

Lemma operations_touch_one_container_witness :
  exists res h' w',
    @run_op RefKM.km (OpWrite [x01]) RefKM.created_handle RefKM.created_world
    = (res, h', w')
    /\ ree_fds w' = ree_fds RefKM.created_world
    /\ fd h' = fd RefKM.created_handle.
Proof.
  destruct (@run_op RefKM.km (OpWrite [x01]) RefKM.created_handle
              RefKM.created_world) as [[res h'] w'] eqn:E.
  assert (Hd : ree_fds RefKM.created_world !! fd RefKM.created_handle
               = Some "/obj/a"%string) by (vm_compute; reflexivity).
  destruct (operations_touch_one_container RefKM.km (OpWrite [x01])
              RefKM.created_handle RefKM.created_world "/obj/a"%string
              res h' w' Hd E) as ((Hfds & _) & Hfd).
  exists res, h', w'. split; [reflexivity|]. split; [exact Hfds|exact Hfd].
Defined.

(** ** The round trip through the REE (C1) *)

(** C1, at the failing input: position 0 and a buffer of no bytes.  On the
    container just created the seek to 0 and the write of no bytes succeed
    and change nothing; the handle is closed; opening the container again
    fails with [TEE_ERROR_CORRUPT_OBJECT], so that the round trip never
    gets to its read.  Create wrote the only meta to the slot the on-disk
    counter does not select, and a write of no bytes commits nothing. *)
Lemma round_trip_of_no_data_fails_to_reopen :
  RefKM.created
  = (TEE_SUCCESS, Some RefKM.created_handle, RefKM.created_world)
  /\ ree_fs_seek RefKM.created_handle 0 TEE_DATA_SEEK_SET
     = (TEE_SUCCESS, RefKM.created_handle, Some 0)
  /\ @ree_fs_write RefKM.km RefKM.created_handle (Some []) 0
       RefKM.created_world
     = (TEE_SUCCESS, RefKM.created_handle, RefKM.created_world)
  /\ (ree_fs_close (Some RefKM.created_handle) RefKM.created_world).2
     = RefKM.closed_world
  /\ (@ree_fs_open RefKM.km (Some "/obj/a"%string) RefKM.closed_world).1
     = (TEE_ERROR_CORRUPT_OBJECT, None).
Proof.
  split; [vm_compute; reflexivity|]. split; [vm_compute; reflexivity|].
  split; [reflexivity|]. split; [reflexivity|]. vm_compute. reflexivity.
Qed.

(** X24: the round trip at any position: in an environment without
    injected failures, a container is created, the cursor is moved to a
    position, a non-empty buffer that ends within the maximal file size is
    written, the handle is closed and the container opened again; a seek to
    the same position and a read of as many bytes return exactly the
    buffer, and each of the six calls succeeds. *)
Theorem round_trip_at_any_position (KM : KeyManager) (OK : KeyManagerOk KM)
    (name : string) (p : Z) (data : list byte) (w : world)
    (fek : list byte) :
  faults w = [] ->
  Z.of_nat (String.length name) + 1 <= TEE_FS_NAME_MAX ->
  tee_fs_generate_fek (session_uuid w) = (TEE_SUCCESS, fek) ->
  0 <= p -> data <> [] -> p + Z.of_nat (length data) <= MAX_FILE_SIZE ->
  exists h1 w1 h2 h3 w3 h4 w4 h5 h6 w6,
    ree_fs_create (Some name) w = (TEE_SUCCESS, Some h1, w1)
    /\ ree_fs_seek h1 p TEE_DATA_SEEK_SET = (TEE_SUCCESS, h2, Some p)
    /\ ree_fs_write h2 (Some data) (Z.of_nat (length data)) w1
       = (TEE_SUCCESS, h3, w3)
    /\ ree_fs_open (Some name) (ree_fs_close (Some h3) w3).2
       = (TEE_SUCCESS, Some h4, w4)
    /\ ree_fs_seek h4 p TEE_DATA_SEEK_SET = (TEE_SUCCESS, h5, Some p)
    /\ ree_fs_read h5 (Z.of_nat (length data)) w4
       = (TEE_SUCCESS, data, Z.of_nat (length data), h6, w6).
Proof.
  intros Hf Hname Hgen Hp Hne Hmax.
  pose proof MAX_FILE_SIZE_bound as HM.
  assert (Hlen : 0 < Z.of_nat (length data))
    by (destruct data; cbn; [congruence|lia]).
  assert (Hseek : forall h, ree_fs_seek h p TEE_DATA_SEEK_SET
                            = (TEE_SUCCESS, set_pos h p, Some p)).
  { intros h. unfold ree_fs_seek. cbn [Z.eqb TEE_DATA_SEEK_SET].
    destruct (Z.ltb_spec p 0); [lia|]. unfold TEE_DATA_MAX_POSITION.
    destruct (Z.gtb_spec p 4294967295); [lia|].
    rewrite s32_id by lia. reflexivity. }
  destruct (create_stored name w fek Hf Hname Hgen)
    as (h1 & w1 & f1 & Hc & Hb1 & Hst1 & Hlen1 & Hpos1 & _).
  pose proof Hst1 as (Himg & _).
  set (h2 := set_pos h1 p).
  destruct (ree_fs_write_stored h2 (Some data) (Z.of_nat (length data)) w1
              name f1 _ 0 Hb1 Hst1)
    as (h3 & w3 & f3 & wm3 & Hw & Hb3 & Hst3 & Hcm3 & Hlen3 & Hwm3 & _);
    try (cbn [h2 meta pos set_pos chunk_ok]; rewrite ?Hlen1; lia).
  cbv zeta in Hst3. rewrite chunk_of_whole in Hst3.
  cbn [h2 meta pos set_pos] in Hst3, Hlen3. rewrite Hlen1 in Hst3, Hlen3.
  set (img3 := patch _ _ _) in Hst3.
  assert (Hl3 : 0 <= length_ (info (meta h3)) <= BLOCK_SIZE * wm3) by lia.
  destruct (reopen_stored h3 w3 name f3 img3 wm3 Hb3 Hst3 Hl3 Hcm3 Hname)
    as (w4 & Ho & Hb4 & Hst4 & _).
  cbv zeta in Ho, Hb4, Hst4.
  match type of Ho with _ = (_, Some ?hh, _) => set (h4 := hh) in * end.
  set (h5 := set_pos h4 p).
  destruct (ree_fs_read_stored h5 (Z.of_nat (length data)) w4 name f3 img3
              wm3 Hb4 Hst4 Hl3)
    as (w6 & Hr & _); [cbn; lia|lia|].
  cbv zeta in Hr.
  assert (Hout : take (Z.to_nat (Z.of_nat (length data)))
                   (drop (Z.to_nat (pos h5)) (contents h5 img3))
                 = data).
  { unfold contents. change (length_ (info (meta h5)))
      with (length_ (info (meta h3))).
    rewrite Hlen3. change (pos h5) with p. unfold img3.
    assert (H0 : 0 <= 0 <= Z.of_nat (length (zeros MAX_FILE_SIZE))) by lia.
    assert (H1 : p + Z.of_nat (length data)
                 <= Z.of_nat (length (zeros MAX_FILE_SIZE))) by lia.
    rewrite (contents_after_write (zeros MAX_FILE_SIZE) data p 0 Hp H0 H1).
    apply pread_pwrite_same. reflexivity. }
  rewrite Hout in Hr.
  exists h1, w1, h2, h3, w3, h4, w4, h5. eexists _, w6.
  split; [exact Hc|]. split; [apply Hseek|]. split; [exact Hw|].
  split; [exact Ho|]. split; [apply Hseek|exact Hr].
Qed.

(** The scenario S2 of the specification with a reopen in between: one
    byte written at position 300. *)
Lemma round_trip_at_any_position_witness :
  exists h1 w1 h2 h3 w3 h4 w4 h5 h6 w6,
    @ree_fs_create RefKM.km (Some "/obj/a"%string) RefKM.empty_world
    = (TEE_SUCCESS, Some h1, w1)
    /\ ree_fs_seek h1 300 TEE_DATA_SEEK_SET = (TEE_SUCCESS, h2, Some 300)
    /\ @ree_fs_write RefKM.km h2 (Some [xaa]) 1 w1 = (TEE_SUCCESS, h3, w3)
    /\ @ree_fs_open RefKM.km (Some "/obj/a"%string)
         (ree_fs_close (Some h3) w3).2
       = (TEE_SUCCESS, Some h4, w4)
    /\ ree_fs_seek h4 300 TEE_DATA_SEEK_SET = (TEE_SUCCESS, h5, Some 300)
    /\ @ree_fs_read RefKM.km h5 1 w4 = (TEE_SUCCESS, [xaa], 1, h6, w6).
Proof.
  apply (round_trip_at_any_position RefKM.km RefKM_contract "/obj/a"%string
           300 [xaa] RefKM.empty_world [x01; x02; x03; x04]).
  - reflexivity.
  - vm_compute. discriminate.
  - reflexivity.
  - lia.
  - discriminate.
  - vm_compute. discriminate.
Defined.
